(** * satellite-visualisation: the position endpoint and the client transition engine

    A shallow embedding of [src/app/api/satellites/route.ts] (module [Route])
    and of the reconciliation code of [src/app/components/satellite-globe.tsx]
    (module [Globe]), followed by the properties of the specification.

    Modelling conventions.
    - A JavaScript [number] is an exact rational or one of the three
      non-finite values; binary64 rounding and the sign of zero are not
      represented, so arithmetic on finite values is exact.
    - A JavaScript [string] is a Stdlib [string] of 7-bit characters; case
      mapping and trimming act on ASCII letters and ASCII white space.
    - Built-ins that have no exact rational or purely structural reading
      ([Number] on strings, number formatting, [Math.sqrt], [Math.pow]) are
      fields of the class [Host]; the satellite.js functions are fields of
      the class [Propagation].  Every property is proved for all instances.
    - Module-level mutable maps become fields of an explicit [Server] state;
      React refs and state become fields of an explicit [Engine] state.
    - Requests are handled one at a time: interleavings of concurrent
      handlers at their [await] points are not represented. *)

From Stdlib Require Import ZArith QArith Qround Qabs Lia Lqa List Bool Ascii String.
From stdpp Require Import base option gmap strings pretty.
From Equations Require Import Equations.
Import ListNotations.

Local Open Scope Z_scope.
Local Open Scope string_scope.
Local Open Scope list_scope.

(** ** JavaScript numbers *)

Inductive number : Type :=
| Fin (q : Q)
| PInf
| NInf
| NaN.

Module Num.

  (** [Number.isFinite] on a value already known to be a number. *)
Definition isFinite (x : number) : bool :=
    match x with Fin _ => true | _ => false end.

Definition Qlt_bool (a b : Q) : bool := negb (Qle_bool b a).

  (** [x < y]; a comparison with [NaN] is false. *)
Definition lt (x y : number) : bool :=
    match x, y with
    | NaN, _ | _, NaN => false
    | Fin a, Fin b => Qlt_bool a b
    | NInf, NInf => false
    | NInf, _ => true
    | _, NInf => false
    | PInf, _ => false
    | Fin _, PInf => true
    end.

  (** [x > y]. *)
Definition gt (x y : number) : bool := lt y x.

  (** [x <= y]. *)
Definition le (x y : number) : bool :=
    match x, y with
    | NaN, _ | _, NaN => false
    | _, _ => negb (lt y x)
    end.

  (** SameValueZero on numbers, the key equality of a JavaScript [Map]. *)
Definition same (x y : number) : bool :=
    match x, y with
    | Fin a, Fin b => Qeq_bool a b
    | PInf, PInf | NInf, NInf | NaN, NaN => true
    | _, _ => false
    end.

Definition neg (x : number) : number :=
    match x with
    | Fin a => Fin (- a)
    | PInf => NInf
    | NInf => PInf
    | NaN => NaN
    end.

Definition add (x y : number) : number :=
    match x, y with
    | NaN, _ | _, NaN => NaN
    | Fin a, Fin b => Fin (a + b)
    | PInf, NInf | NInf, PInf => NaN
    | PInf, _ | _, PInf => PInf
    | NInf, _ | _, NInf => NInf
    end.

Definition sub (x y : number) : number := add x (neg y).

  (** Sign of a rational as an infinity, [NaN] for zero. *)
Definition signed_inf (a : Q) : number :=
    if Qlt_bool 0 a then PInf else if Qlt_bool a 0 then NInf else NaN.

Definition mul (x y : number) : number :=
    match x, y with
    | NaN, _ | _, NaN => NaN
    | Fin a, Fin b => Fin (a * b)
    | Fin a, PInf | PInf, Fin a => signed_inf a
    | Fin a, NInf | NInf, Fin a => signed_inf (- a)
    | PInf, PInf | NInf, NInf => PInf
    | PInf, NInf | NInf, PInf => NInf
    end.

Definition div (x y : number) : number :=
    match x, y with
    | NaN, _ | _, NaN => NaN
    | Fin a, Fin b => if Qeq_bool b 0 then signed_inf a else Fin (a / b)
    | Fin _, _ => Fin 0
    | PInf, Fin b => if Qlt_bool b 0 then NInf else PInf
    | NInf, Fin b => if Qlt_bool b 0 then PInf else NInf
    | _, _ => NaN
    end.

  (** Truncation toward zero of a rational. *)
Definition Qtrunc (a : Q) : Z := Z.quot (Qnum a) (Zpos (Qden a)).

  (** The [%] operator: the remainder has the sign of the dividend. *)
Definition rem (x y : number) : number :=
    match x, y with
    | Fin a, Fin b =>
        if Qeq_bool b 0 then NaN else Fin (a - b * inject_Z (Qtrunc (a / b)))
    | Fin a, PInf | Fin a, NInf => Fin a
    | _, _ => NaN
    end.

  (** [Math.min] and [Math.max] of two arguments. *)
Definition min (x y : number) : number :=
    match x, y with
    | NaN, _ | _, NaN => NaN
    | _, _ => if lt y x then y else x
    end.

Definition max (x y : number) : number :=
    match x, y with
    | NaN, _ | _, NaN => NaN
    | _, _ => if lt x y then y else x
    end.

  (** [Math.floor]. *)
Definition floor (x : number) : number :=
    match x with
    | Fin a => Fin (inject_Z (Qfloor a))
    | _ => x
    end.

Definition of_Z (z : Z) : number := Fin (inject_Z z).
Definition of_nat (n : nat) : number := of_Z (Z.of_nat n).

End Num.

(** ** JavaScript strings (ASCII) *)

Module Str.

Definition is_space (c : ascii) : bool :=
    let n := nat_of_ascii c in
    ((9 <=? n)%nat && (n <=? 13)%nat) || (n =? 32)%nat.

Definition upper_char (c : ascii) : ascii :=
    let n := nat_of_ascii c in
    if ((97 <=? n)%nat && (n <=? 122)%nat) then ascii_of_nat (n - 32) else c.

Definition lower_char (c : ascii) : ascii :=
    let n := nat_of_ascii c in
    if ((65 <=? n)%nat && (n <=? 90)%nat) then ascii_of_nat (n + 32) else c.

Fixpoint map (f : ascii -> ascii) (s : string) : string :=
    match s with
    | EmptyString => EmptyString
    | String c rest => String (f c) (map f rest)
    end.

Definition toUpperCase : string -> string := map upper_char.
Definition toLowerCase : string -> string := map lower_char.

Fixpoint trimStart (s : string) : string :=
    match s with
    | String c rest => if is_space c then trimStart rest else s
    | EmptyString => EmptyString
    end.

  (** Drops trailing white space: a character is kept when it is not white
      space or when something is kept after it. *)
Fixpoint trimEnd (s : string) : string :=
    match s with
    | EmptyString => EmptyString
    | String c rest =>
        match trimEnd rest with
        | EmptyString => if is_space c then EmptyString else String c EmptyString
        | kept => String c kept
        end
    end.

Definition trim (s : string) : string := trimEnd (trimStart s).

Fixpoint startsWith (p s : string) : bool :=
    match p, s with
    | EmptyString, _ => true
    | String a p', String b s' => Ascii.eqb a b && startsWith p' s'
    | String _ _, EmptyString => false
    end.

  (** [s.includes(p)]. *)
Fixpoint includes (s p : string) : bool :=
    startsWith p s ||
    match s with
    | EmptyString => false
    | String _ rest => includes rest p
    end.

  (** Truthiness of a string: only the empty string is falsy. *)
Definition truthy (s : string) : bool :=
    match s with EmptyString => false | _ => true end.

End Str.

(** ** Values, exceptions and the host environment *)

(** A value obtained from parsed JSON or from a missing property.  Arrays and
    nested objects are never inspected by the code: one constructor stands
    for both. *)
Inductive Value : Type :=
| VUndefined
| VNull
| VBool (b : bool)
| VNumber (n : number)
| VString (s : string)
| VObject.

(** A thrown value: an [Error] instance with its message, or anything else. *)
Inductive Thrown : Type :=
| ErrorObj (message : string)
| NotAnError.

Inductive result (A : Type) : Type :=
| Ok (a : A)
| Throw (e : Thrown).
Arguments Ok {A} a.
Arguments Throw {A} e.

(** Built-ins of the JavaScript host with no exact rational reading. *)
Class Host : Type := {
  (** [Number(s)] on a string. *)
  Number : string -> number;
  (** Conversion of a number to a string, as in a template literal. *)
  ToString : number -> string;
  (** [x.toFixed(digits)]. *)
  toFixed : number -> nat -> string;
  Math_sqrt : number -> number;
  Math_pow : number -> number -> number;
  (** [new Date(ms).toISOString()] for a clock reading in milliseconds. *)
  toISOString : Z -> string;
  (** Time value of [new Date(s)]. *)
  Date_ofString : string -> number;
  (** Message of the error with which an aborted [fetch] rejects. *)
  abortMessage : string
}.

(** A raw element-set record of the upstream feed is a JSON object, here a
    [gmap string Value]; [prop entry name] is the property read
    [entry.name], which gives [undefined] for an absent property. *)
Definition prop (entry : gmap string Value) (name : string) : Value :=
  default VUndefined (entry !! name).

Module Vec3.
Record t : Type := { x : number; y : number; z : number }.
End Vec3.

(** Result of [propagate]: each component is an object or [false]. *)
Module PropagationState.
Record t : Type := {
  position : option Vec3.t;
  velocity : option Vec3.t
}.
End PropagationState.

Module Geodetic.
Record t : Type := {
  latitude : number;
  longitude : number;
  height : number
}.
End Geodetic.

(** The satellite.js functions used by the endpoint. *)
Class Propagation : Type := {
  SatRec : Type;
  (** [json2satrec] returns a propagation-ready record or throws. *)
  json2satrec : gmap string Value -> result SatRec;
  (** [propagate] returns a state, or a falsy value on failure. *)
  propagate : SatRec -> number -> option PropagationState.t;
  gstime : number -> number;
  eciToGeodetic : Vec3.t -> number -> Geodetic.t;
  radiansToDegrees : number -> number
}.

(** ** src/app/api/satellites/route.ts *)

Module Route.

Definition DEFAULT_GROUP : string := "active".
Definition REQUEST_TIMEOUT_MS : Z := 25000.
Definition ORBIT_CACHE_TTL_MS : Z := 30 * 60 * 1000.
Definition POSITION_CACHE_TTL_MS : Z := 5000.

Definition ALLOWED_GROUPS : gset string :=
  {[ "active"; "stations"; "starlink" ]}.

Module CachedOrbitRecord.
Record t `{Propagation} : Type := {
  countryCode : option string;
  inclination : option number;
  launchDate : option string;
  noradId : number;
  objectName : string;
  objectType : option string;
  satrec : SatRec
}.
End CachedOrbitRecord.

Module CachedOrbitSet.
Record t `{Propagation} : Type := {
  fetchedAt : string;
  records : list CachedOrbitRecord.t;
  source : string
}.
End CachedOrbitSet.

Module SatellitePosition.
Record t : Type := {
  altitudeKm : number;
  countryCode : option string;
  inclination : option number;
  launchDate : option string;
  lat : number;
  lon : number;
  noradId : number;
  objectName : string;
  objectType : option string;
  speedKps : number
}.
End SatellitePosition.

(** The value of a position-cache entry and the body of a successful
    response. *)
Module Snapshot.
Record t : Type := {
  computedAt : string;
  count : nat;
  fetchedAt : string;
  group : string;
  satellites : list SatellitePosition.t;
  source : string;
  totalOrbits : nat
}.
End Snapshot.

(** *** Coercions and normalisation helpers *)

Section Helpers.
Context `{Host}.

Definition toFiniteNumber (value : Value) : option number :=
  match value with
  | VNumber n => if Num.isFinite n then Some n else None
  | VString s =>
      let parsed := Number s in
      if Num.isFinite parsed then Some parsed else None
  | _ => None
  end.

Definition toCleanString (value : Value) : option string :=
  match value with
  | VString s =>
      let trimmed := Str.trim s in
      if (0 <? String.length trimmed)%nat then Some trimmed else None
  | _ => None
  end.

Definition buildGroupFeedUrl (group : string) : string :=
  "https://celestrak.org/NORAD/elements/gp.php?GROUP=" +:+ group +:+ "&FORMAT=json".

Definition normalizeLongitude (lon : number) : number :=
  if negb (Num.isFinite lon) then lon
  else if Num.gt lon (Fin 180) then Num.sub lon (Fin 360)
  else if Num.lt lon (Fin (-180)) then Num.add lon (Fin 360)
  else lon.

Definition normalizeObjectType (value : option string) : option string :=
  match value with
  | None => None
  | Some value =>
      if negb (Str.truthy value) then None
      else
        let upperValue := Str.toUpperCase (Str.trim value) in
        if String.eqb upperValue "PAY" || String.eqb upperValue "PAYLOAD"
        then Some "PAYLOAD"
        else if String.eqb upperValue "DEB" || String.eqb upperValue "DEBRIS"
        then Some "DEBRIS"
        else if String.eqb upperValue "R/B" || String.eqb upperValue "ROCKET BODY"
                || String.eqb upperValue "RB"
        then Some "ROCKET BODY"
        else Some upperValue
  end.

Definition inferObjectTypeFromName (objectName : string) : string :=
  let upperName := Str.toUpperCase objectName in
  if Str.includes upperName " DEB" || Str.includes upperName "DEBRIS"
  then "DEBRIS"
  else if Str.includes upperName " R/B" || Str.includes upperName "ROCKET BODY"
  then "ROCKET BODY"
  else "PAYLOAD".

Definition parseLimit (limitParam : option string) : option number :=
  match limitParam with
  | None => None
  | Some limitParam =>
      if negb (Str.truthy limitParam) then None
      else
        let parsed := Number limitParam in
        if negb (Num.isFinite parsed) || Num.le parsed (Fin 0) then None
        else Some (Num.floor parsed)
  end.

End Helpers.

(** *** The normaliser: the body of the loop of [loadOrbitSet] *)

(** What one iteration does with the raw record, in evaluation order: the
    properties it reads and the call of [json2satrec]. *)
Inductive Access : Type :=
| Read (name : string)
| Build.

Section Normalizer.
Context `{Host} `{Propagation}.

(** The type and name computed at the head of the [try] block. *)
Definition entryObjectName (entry : gmap string Value) (noradId : number) : string :=
  default ("NORAD-" +:+ ToString noradId) (toCleanString (prop entry "OBJECT_NAME")).

Definition entryObjectType (entry : gmap string Value) (objectName : string) : string :=
  default (inferObjectTypeFromName objectName)
          (normalizeObjectType (toCleanString (prop entry "OBJECT_TYPE"))).

(** One iteration: the accesses made, and the record pushed ([None] when the
    iteration ends in [continue]). *)
Definition normalizeEntry (entry : gmap string Value)
  : list Access * option CachedOrbitRecord.t :=
  match toFiniteNumber (prop entry "NORAD_CAT_ID") with
  | None => ([Read "NORAD_CAT_ID"], None)
  | Some noradId =>
      let objectName := entryObjectName entry noradId in
      let objectType := entryObjectType entry objectName in
      let countryCode := toCleanString (prop entry "COUNTRY_CODE") in
      let inclination := toFiniteNumber (prop entry "INCLINATION") in
      let launchDate := toCleanString (prop entry "LAUNCH_DATE") in
      ([Read "NORAD_CAT_ID"; Read "OBJECT_NAME"; Read "OBJECT_TYPE";
        Read "COUNTRY_CODE"; Read "INCLINATION"; Read "LAUNCH_DATE"; Build],
       match json2satrec entry with
       | Throw _ => None
       | Ok satrec =>
           Some {| CachedOrbitRecord.countryCode := countryCode;
                   CachedOrbitRecord.inclination := inclination;
                   CachedOrbitRecord.launchDate := launchDate;
                   CachedOrbitRecord.noradId := noradId;
                   CachedOrbitRecord.objectName := objectName;
                   CachedOrbitRecord.objectType := Some objectType;
                   CachedOrbitRecord.satrec := satrec |}
       end)
  end.

(** The [for ... of payload] loop: records are pushed in payload order. *)
Fixpoint normalizePayload (payload : list (gmap string Value))
  (records : list CachedOrbitRecord.t) : list CachedOrbitRecord.t :=
  match payload with
  | [] => records
  | entry :: rest =>
      match snd (normalizeEntry entry) with
      | None => normalizePayload rest records
      | Some record => normalizePayload rest (records ++ [record])
      end
  end.

End Normalizer.

(** *** The position computer *)

Section PositionComputer.
Context `{Host} `{Propagation}.

(** The body of the loop of [computePositions] for one record: the position
    pushed, or [None] when the iteration ends in [continue]. *)
Definition positionOf (gmst nowDate : number) (record : CachedOrbitRecord.t)
  : option SatellitePosition.t :=
  match propagate (CachedOrbitRecord.satrec record) nowDate with
  | None => None
  | Some state =>
      match PropagationState.position state, PropagationState.velocity state with
      | Some statePosition, Some stateVelocity =>
          let geodetic := eciToGeodetic statePosition gmst in
          let lat := radiansToDegrees (Geodetic.latitude geodetic) in
          let lon := normalizeLongitude (radiansToDegrees (Geodetic.longitude geodetic)) in
          if negb (Num.isFinite lat) || negb (Num.isFinite lon) then None
          else
            let speedKps :=
              Math_sqrt
                (Num.add
                   (Num.add (Num.mul (Vec3.x stateVelocity) (Vec3.x stateVelocity))
                            (Num.mul (Vec3.y stateVelocity) (Vec3.y stateVelocity)))
                   (Num.mul (Vec3.z stateVelocity) (Vec3.z stateVelocity))) in
            Some {| SatellitePosition.altitudeKm := Number (toFixed (Geodetic.height geodetic) 2);
                    SatellitePosition.countryCode := CachedOrbitRecord.countryCode record;
                    SatellitePosition.inclination := CachedOrbitRecord.inclination record;
                    SatellitePosition.launchDate := CachedOrbitRecord.launchDate record;
                    SatellitePosition.lat := Number (toFixed lat 5);
                    SatellitePosition.lon := Number (toFixed lon 5);
                    SatellitePosition.noradId := CachedOrbitRecord.noradId record;
                    SatellitePosition.objectName := CachedOrbitRecord.objectName record;
                    SatellitePosition.objectType := CachedOrbitRecord.objectType record;
                    SatellitePosition.speedKps := Number (toFixed speedKps 3) |}
      | _, _ => None
      end
  end.

(** [requestedCount] of [computePositions]. *)
Definition requestedCount (records : list CachedOrbitRecord.t)
  (limit : option number) : number :=
  match limit with
  | None => Num.of_nat (List.length records)
  | Some limit => Num.min (Num.of_nat (List.length records)) limit
  end.

(** Reading a property of [undefined]. *)
Definition undefinedRecord : Thrown :=
  ErrorObj "Cannot read properties of undefined (reading 'satrec')".

(** The [for (let index = 0; index < requestedCount; index += 1)] loop, from
    the iteration at [index] on, with the positions pushed so far. *)
Equations? positionsLoop (records : list CachedOrbitRecord.t)
  (gmst nowDate count : number) (index : nat)
  (satellites : list SatellitePosition.t)
  : result (list SatellitePosition.t)
  by wf (List.length records - index)%nat lt :=
positionsLoop records gmst nowDate count index satellites
  with Num.lt (Num.of_nat index) count := {
  | false => Ok satellites
  | true with Equations.Prop.Logic.inspect (records !! index) := {
    | exist _ None _ => Throw undefinedRecord
    | exist _ (Some record) Hrecord
        with positionOf gmst nowDate record := {
        | None =>
            positionsLoop records gmst nowDate count (S index) satellites
        | Some satellite =>
            positionsLoop records gmst nowDate count (S index)
              (satellites ++ [satellite]) } } }.
Proof.
  all: pose proof (lookup_lt_Some records index record Hrecord); lia.
Qed.

Definition computePositions (records : list CachedOrbitRecord.t)
  (nowDate : number) (limit : option number)
  : result (list SatellitePosition.t) :=
  let gmst := gstime nowDate in
  positionsLoop records gmst nowDate (requestedCount records limit) 0 [].

End PositionComputer.

(** *** Requests, responses and the world outside the handler *)

(** The query parameters of a request: [url.searchParams.get] of each. *)
Module Request.
Record t : Type := {
  group : option string;
  limit : option string
}.
End Request.

(** The body passed to [NextResponse.json]. *)
Inductive Body : Type :=
| SnapshotBody (value : Snapshot.t)
| ErrorBody (error : string).

Module Response.
Record t : Type := {
  status : Z;
  body : Body;
  cacheControl : option string
}.
End Response.

(** What reading the body of an upstream response with [response.json()]
    and iterating over it gives: the raw records, or an exception (invalid
    JSON, a payload that is not iterable). *)
Inductive Payload : Type :=
| Records (payload : list (gmap string Value))
| Unreadable (e : Thrown).

Module Upstream.
Record t : Type := {
  status : Z;
  json : Payload
}.
(** [response.ok] of the Fetch standard. *)
Definition ok (response : t) : bool :=
  (200 <=? status response)%Z && (status response <=? 299)%Z.
End Upstream.

(** How the upstream answers a request for a URL: with a response whose
    headers arrive after [latencyMs], or with a network failure. *)
Inductive Exchange : Type :=
| Responds (latencyMs : Z) (response : Upstream.t)
| Fails (e : Thrown).

(** Everything one run of the handler reads from outside: the clock at each
    of its four readings and the upstream. *)
Module Ambient.
Record t : Type := {
  (** [Date.now()] in [GET]. *)
  handlerNow : Z;
  (** [Date.now()] in [loadOrbitSet]. *)
  loaderNow : Z;
  (** [new Date()] when the orbit set is stamped. *)
  fetchedClock : Z;
  (** [new Date()] when the positions are stamped. *)
  computedClock : Z;
  network : string -> Exchange
}.
End Ambient.

(** Instrumentation: the calls whose absence on a cache hit is observable. *)
Inductive Effect : Type :=
| Fetched (url : string)
| Computed.

(** The two module-level caches, and the journal of effects. *)
Module Server.
Record t `{Propagation} : Type := {
  orbitCache : gmap string (Z * CachedOrbitSet.t);
  positionCache : gmap string (Z * Snapshot.t);
  journal : list Effect
}.
End Server.

Section Handler.
Context `{Host} `{Propagation}.

Definition initial : Server.t :=
  {| Server.orbitCache := ∅; Server.positionCache := ∅; Server.journal := [] |}.

(** Computations that read and write the server state and may throw. *)
Definition M (A : Type) : Type := Server.t -> Server.t * result A.

Definition ret {A : Type} (a : A) : M A := fun server => (server, Ok a).

Definition throw {A : Type} (e : Thrown) : M A := fun server => (server, Throw e).

Definition bind {A B : Type} (m : M A) (k : A -> M B) : M B :=
  fun server =>
    match m server with
    | (server', Ok a) => k a server'
    | (server', Throw e) => (server', Throw e)
    end.

Definition lift {A : Type} (r : result A) : M A := fun server => (server, r).

Definition record (effect : Effect) : M unit :=
  fun server =>
    ({| Server.orbitCache := Server.orbitCache server;
        Server.positionCache := Server.positionCache server;
        Server.journal := Server.journal server ++ [effect] |}, Ok tt).

Definition getOrbitCache (key : string) : M (option (Z * CachedOrbitSet.t)) :=
  fun server => (server, Ok (Server.orbitCache server !! key)).

Definition setOrbitCache (key : string) (entry : Z * CachedOrbitSet.t) : M unit :=
  fun server =>
    ({| Server.orbitCache := <[key := entry]> (Server.orbitCache server);
        Server.positionCache := Server.positionCache server;
        Server.journal := Server.journal server |}, Ok tt).

Definition getPositionCache (key : string) : M (option (Z * Snapshot.t)) :=
  fun server => (server, Ok (Server.positionCache server !! key)).

Definition setPositionCache (key : string) (entry : Z * Snapshot.t) : M unit :=
  fun server =>
    ({| Server.orbitCache := Server.orbitCache server;
        Server.positionCache := <[key := entry]> (Server.positionCache server);
        Server.journal := Server.journal server |}, Ok tt).

End Handler.

Notation "'let*' x ':=' m 'in' k" := (bind m (fun x => k))
  (at level 10, x name, m at level 100, k at level 200).
Notation "'run' m 'in' k" := (bind m (fun _ => k))
  (at level 10, m at level 100, k at level 200).

(** *** The element-set cache and the request handler *)

Section Endpoint.
Context `{Host} `{Propagation}.

(** The test [cached && cached.expiresAt > now] of both caches: the stored
    value when it passes. *)
Definition unexpired {A : Type} (now : Z) (cached : option (Z * A)) : option A :=
  match cached with
  | Some (expiresAt, value) => if (now <? expiresAt)%Z then Some value else None
  | None => None
  end.

(** [fetchWithTimeout]: the abort fires when the response has not arrived
    after [timeoutMs].  A response that arrives at exactly [timeoutMs] races
    with the timer; it is counted as aborted here, and no property below
    rests on that case. *)
Definition fetchWithTimeout (world : Ambient.t) (url : string) (timeoutMs : Z)
  : M Upstream.t :=
  run record (Fetched url) in
  match Ambient.network world url with
  | Fails e => throw e
  | Responds latencyMs response =>
      if (timeoutMs <=? latencyMs)%Z then throw (ErrorObj abortMessage)
      else ret response
  end.

Definition readJson (response : Upstream.t) : M (list (gmap string Value)) :=
  match Upstream.json response with
  | Records payload => ret payload
  | Unreadable e => throw e
  end.

Definition loadOrbitSet (world : Ambient.t) (group : string) : M CachedOrbitSet.t :=
  let now := Ambient.loaderNow world in
  let* cached := getOrbitCache group in
  match unexpired now cached with
  | Some value => ret value
  | None =>
      let source := buildGroupFeedUrl group in
      let* response := fetchWithTimeout world source REQUEST_TIMEOUT_MS in
      if negb (Upstream.ok response)
      then throw (ErrorObj ("CelesTrak orbit request failed ("
                            +:+ ToString (Num.of_Z (Upstream.status response))
                            +:+ ")"))
      else
        let* payload := readJson response in
        let records := normalizePayload payload [] in
        let value :=
          {| CachedOrbitSet.fetchedAt := toISOString (Ambient.fetchedClock world);
             CachedOrbitSet.records := records;
             CachedOrbitSet.source := source |} in
        run setOrbitCache group ((now + ORBIT_CACHE_TTL_MS)%Z, value) in
        ret value
  end.

Definition NO_STORE : string := "no-store, no-cache, must-revalidate, max-age=0".

Definition positionCacheKey (group : string) (limit : option number) : string :=
  group +:+ ":" +:+ match limit with Some limit => ToString limit | None => "all" end.

Definition selectGroup (request : Request.t) : string :=
  let requestedGroup := Str.toLowerCase (default DEFAULT_GROUP (Request.group request)) in
  if bool_decide (requestedGroup ∈ ALLOWED_GROUPS) then requestedGroup
  else DEFAULT_GROUP.

Definition success (value : Snapshot.t) : Response.t :=
  {| Response.status := 200;
     Response.body := SnapshotBody value;
     Response.cacheControl := Some NO_STORE |}.

(** The [try] block of [GET]. *)
Definition GET_try (world : Ambient.t) (request : Request.t) : M Response.t :=
  let group := selectGroup request in
  let limit := parseLimit (Request.limit request) in
  let key := positionCacheKey group limit in
  let now := Ambient.handlerNow world in
  let* cachedPositions := getPositionCache key in
  match unexpired now cachedPositions with
  | Some value => ret (success value)
  | None =>
      let* orbitSet := loadOrbitSet world group in
      let computedAt := toISOString (Ambient.computedClock world) in
      run record Computed in
      let* satellites :=
        lift (computePositions (CachedOrbitSet.records orbitSet)
                (Date_ofString computedAt) limit) in
      let value :=
        {| Snapshot.computedAt := computedAt;
           Snapshot.count := List.length satellites;
           Snapshot.fetchedAt := CachedOrbitSet.fetchedAt orbitSet;
           Snapshot.group := group;
           Snapshot.satellites := satellites;
           Snapshot.source := CachedOrbitSet.source orbitSet;
           Snapshot.totalOrbits := List.length (CachedOrbitSet.records orbitSet) |} in
      run setPositionCache key ((now + POSITION_CACHE_TTL_MS)%Z, value) in
      ret (success value)
  end.

(** The [catch] block of [GET]. *)
Definition GET_catch (error : Thrown) : Response.t :=
  let message :=
    match error with
    | ErrorObj message => message
    | NotAnError => "Unknown failure while computing satellite positions"
    end in
  {| Response.status := 502;
     Response.body := ErrorBody ("Unable to fetch live satellite positions: " +:+ message);
     Response.cacheControl := None |}.

Definition GET (world : Ambient.t) (request : Request.t) (server : Server.t)
  : Server.t * Response.t :=
  match GET_try world request server with
  | (server', Ok response) => (server', response)
  | (server', Throw error) => (server', GET_catch error)
  end.

End Endpoint.

End Route.

(** ** src/app/components/satellite-globe.tsx *)

(** A JavaScript [Map] keyed by numbers: entries in insertion order, keys
    compared with SameValueZero. *)
Module NumMap.
Section Ops.
Context {V : Type}.

Fixpoint get (m : list (number * V)) (key : number) : option V :=
  match m with
  | [] => None
  | (k, v) :: rest => if Num.same k key then Some v else get rest key
  end.

(** [m.set(key, value)]: an existing key keeps its place. *)
Fixpoint set (m : list (number * V)) (key : number) (value : V)
  : list (number * V) :=
  match m with
  | [] => [(key, value)]
  | (k, v) :: rest =>
      if Num.same k key then (k, value) :: rest
      else (k, v) :: set rest key value
  end.

Definition size (m : list (number * V)) : nat := List.length m.
Definition keys (m : list (number * V)) : list number := List.map fst m.
Definition values (m : list (number * V)) : list V := List.map snd m.

End Ops.
End NumMap.

Module Globe.

Module Satellite.
Record t : Type := {
  altitudeKm : number;
  countryCode : option string;
  inclination : option number;
  launchDate : option string;
  lat : number;
  lon : number;
  noradId : number;
  objectName : string;
  objectType : option string;
  speedKps : number
}.
End Satellite.

Inductive SatelliteBucket : Type := payload | debris | rocket | other.

(** [Satellite & { bucket, color, lng, pointAltitude }]. *)
Module SatellitePoint.
Record t : Type := {
  altitudeKm : number;
  countryCode : option string;
  inclination : option number;
  launchDate : option string;
  lat : number;
  lon : number;
  noradId : number;
  objectName : string;
  objectType : option string;
  speedKps : number;
  bucket : SatelliteBucket;
  color : string;
  lng : number;
  pointAltitude : number
}.
End SatellitePoint.

Module TransitionState.
Record t : Type := {
  durationMs : number;
  from : list (number * SatellitePoint.t);
  startMs : number;
  to : list (number * SatellitePoint.t)
}.
End TransitionState.

Definition EARTH_RADIUS_KM : number := Fin 6371.
Definition REFRESH_INTERVAL_MS : number := Fin 10000.
Definition MOTION_DURATION_MS : number := Fin 8500.
Definition PAYLOAD_COLOR : string := "#fde047".
Definition DEBRIS_COLOR : string := "#fb7185".
Definition ROCKET_COLOR : string := "#a78bfa".
Definition OTHER_COLOR : string := "#cbd5e1".

Definition normalizeLongitude (lon : number) : number :=
  if Num.gt lon (Fin 180) then Num.sub lon (Fin 360)
  else if Num.lt lon (Fin (-180)) then Num.add lon (Fin 360)
  else lon.

Definition longitudeDelta (from to : number) : number :=
  Num.sub (Num.rem (Num.add (Num.sub to from) (Fin 540)) (Fin 360)) (Fin 180).

Definition getSatelliteBucket (objectType : option string) : SatelliteBucket :=
  match objectType with
  | None => other
  | Some objectType =>
      if negb (Str.truthy objectType) then other
      else
        let upperType := Str.toUpperCase objectType in
        if String.eqb upperType "PAYLOAD" || String.eqb upperType "PAY"
        then payload
        else if Str.includes upperType "DEBRIS" || String.eqb upperType "DEB"
        then debris
        else if Str.includes upperType "ROCKET" || String.eqb upperType "R/B"
                || String.eqb upperType "RB" || Str.includes upperType "R/B"
        then rocket
        else other
  end.

Definition bucketColor (bucket : SatelliteBucket) : string :=
  match bucket with
  | payload => PAYLOAD_COLOR
  | debris => DEBRIS_COLOR
  | rocket => ROCKET_COLOR
  | other => OTHER_COLOR
  end.

Definition makeSatellitePoint (satellite : Satellite.t) : SatellitePoint.t :=
  let bucket := getSatelliteBucket (Satellite.objectType satellite) in
  {| SatellitePoint.altitudeKm := Satellite.altitudeKm satellite;
     SatellitePoint.countryCode := Satellite.countryCode satellite;
     SatellitePoint.inclination := Satellite.inclination satellite;
     SatellitePoint.launchDate := Satellite.launchDate satellite;
     SatellitePoint.lat := Satellite.lat satellite;
     SatellitePoint.lon := Satellite.lon satellite;
     SatellitePoint.noradId := Satellite.noradId satellite;
     SatellitePoint.objectName := Satellite.objectName satellite;
     SatellitePoint.objectType := Satellite.objectType satellite;
     SatellitePoint.speedKps := Satellite.speedKps satellite;
     SatellitePoint.bucket := bucket;
     SatellitePoint.color := bucketColor bucket;
     SatellitePoint.lng := normalizeLongitude (Satellite.lon satellite);
     SatellitePoint.pointAltitude :=
       Num.max (Fin (3 # 2000))
               (Num.div (Satellite.altitudeKm satellite) EARTH_RADIUS_KM) |}.

(** The refs and the state of the component that the transition engine
    reads and writes. *)
Module Engine.
Record t : Type := {
  transitionRef : option TransitionState.t;
  (** Handle of the scheduled animation frame. *)
  animationFrameRef : option Z;
  renderedMapRef : list (number * SatellitePoint.t);
  renderedSatellites : list SatellitePoint.t
}.
End Engine.

(** The component as mounted. *)
Definition mounted : Engine.t :=
  {| Engine.transitionRef := None;
     Engine.animationFrameRef := None;
     Engine.renderedMapRef := [];
     Engine.renderedSatellites := [] |}.

Section TransitionEngine.
Context `{Host}.

Definition easeInOutCubic (value : number) : number :=
  if Num.lt value (Fin (1 # 2))
  then Num.mul (Num.mul (Num.mul (Fin 4) value) value) value
  else Num.sub (Fin 1)
         (Num.div (Math_pow (Num.add (Num.mul (Fin (-2)) value) (Fin 2)) (Fin 3))
                  (Fin 2)).

(** The point built by one iteration of the loop of [animateStep]. *)
Definition interpolate (from target : SatellitePoint.t) (eased : number)
  : SatellitePoint.t :=
  let nextLat :=
    Num.add (SatellitePoint.lat from)
      (Num.mul (Num.sub (SatellitePoint.lat target) (SatellitePoint.lat from)) eased) in
  let nextLng :=
    normalizeLongitude
      (Num.add (SatellitePoint.lng from)
         (Num.mul (longitudeDelta (SatellitePoint.lng from) (SatellitePoint.lng target))
                  eased)) in
  let nextAltitudeKm :=
    Num.add (SatellitePoint.altitudeKm from)
      (Num.mul (Num.sub (SatellitePoint.altitudeKm target)
                        (SatellitePoint.altitudeKm from)) eased) in
  {| SatellitePoint.altitudeKm := nextAltitudeKm;
     SatellitePoint.countryCode := SatellitePoint.countryCode target;
     SatellitePoint.inclination := SatellitePoint.inclination target;
     SatellitePoint.launchDate := SatellitePoint.launchDate target;
     SatellitePoint.lat := nextLat;
     SatellitePoint.lon := SatellitePoint.lon target;
     SatellitePoint.noradId := SatellitePoint.noradId target;
     SatellitePoint.objectName := SatellitePoint.objectName target;
     SatellitePoint.objectType := SatellitePoint.objectType target;
     SatellitePoint.speedKps := SatellitePoint.speedKps target;
     SatellitePoint.bucket := SatellitePoint.bucket target;
     SatellitePoint.color := SatellitePoint.color target;
     SatellitePoint.lng := nextLng;
     SatellitePoint.pointAltitude :=
       Num.max (Fin (3 # 2000)) (Num.div nextAltitudeKm EARTH_RADIUS_KM) |}.

(** The loop of [animateStep] over the remaining entries of [transition.to],
    with the map and the list built so far. *)
Fixpoint animateLoop (from : list (number * SatellitePoint.t)) (eased : number)
  (entries : list (number * SatellitePoint.t))
  (nextMap : list (number * SatellitePoint.t)) (nextList : list SatellitePoint.t)
  : list (number * SatellitePoint.t) * list SatellitePoint.t :=
  match entries with
  | [] => (nextMap, nextList)
  | (noradId, target) :: rest =>
      let from_ := default target (NumMap.get from noradId) in
      let point := interpolate from_ target eased in
      animateLoop from eased rest (NumMap.set nextMap noradId point)
        (nextList ++ [point])
  end.

(** [animateStep(frameTimeMs)]; [handle] is what [requestAnimationFrame]
    returns if the step schedules another frame. *)
Definition animateStep (frameTimeMs : number) (handle : Z) (engine : Engine.t)
  : Engine.t :=
  match Engine.transitionRef engine with
  | None =>
      {| Engine.transitionRef := Engine.transitionRef engine;
         Engine.animationFrameRef := None;
         Engine.renderedMapRef := Engine.renderedMapRef engine;
         Engine.renderedSatellites := Engine.renderedSatellites engine |}
  | Some transition =>
      let progress :=
        Num.min (Fin 1)
          (Num.div (Num.sub frameTimeMs (TransitionState.startMs transition))
                   (TransitionState.durationMs transition)) in
      let eased := easeInOutCubic progress in
      let '(nextMap, nextList) :=
        animateLoop (TransitionState.from transition) eased
          (TransitionState.to transition) [] [] in
      if Num.lt progress (Fin 1)
      then {| Engine.transitionRef := Some transition;
              Engine.animationFrameRef := Some handle;
              Engine.renderedMapRef := nextMap;
              Engine.renderedSatellites := nextList |}
      else {| Engine.transitionRef := None;
              Engine.animationFrameRef := None;
              Engine.renderedMapRef := nextMap;
              Engine.renderedSatellites := nextList |}
  end.

End TransitionEngine.

(** The first loop of [startTransition]. *)
Fixpoint buildTargetMap (incomingSatellites : list Satellite.t)
  (targetMap : list (number * SatellitePoint.t))
  : list (number * SatellitePoint.t) :=
  match incomingSatellites with
  | [] => targetMap
  | satellite :: rest =>
      buildTargetMap rest
        (NumMap.set targetMap (Satellite.noradId satellite)
                    (makeSatellitePoint satellite))
  end.

(** The second loop of [startTransition]. *)
Fixpoint buildFromMap (rendered : list (number * SatellitePoint.t))
  (entries : list (number * SatellitePoint.t))
  (fromMap : list (number * SatellitePoint.t))
  : list (number * SatellitePoint.t) :=
  match entries with
  | [] => fromMap
  | (noradId, target) :: rest =>
      buildFromMap rendered rest
        (NumMap.set fromMap noradId (default target (NumMap.get rendered noradId)))
  end.

(** [startTransition(incomingSatellites)]; [nowMs] is the reading of
    [performance.now()] and [handle] what [requestAnimationFrame] returns
    if a frame gets scheduled. *)
Definition startTransition (incomingSatellites : list Satellite.t)
  (nowMs : number) (handle : Z) (engine : Engine.t) : Engine.t :=
  let targetMap := buildTargetMap incomingSatellites [] in
  if (NumMap.size (Engine.renderedMapRef engine) =? 0)%nat
  then {| Engine.transitionRef := Engine.transitionRef engine;
          Engine.animationFrameRef := Engine.animationFrameRef engine;
          Engine.renderedMapRef := targetMap;
          Engine.renderedSatellites := NumMap.values targetMap |}
  else
    let fromMap := buildFromMap (Engine.renderedMapRef engine) targetMap [] in
    {| Engine.transitionRef :=
         Some {| TransitionState.durationMs := MOTION_DURATION_MS;
                 TransitionState.from := fromMap;
                 TransitionState.startMs := nowMs;
                 TransitionState.to := targetMap |};
       Engine.animationFrameRef :=
         match Engine.animationFrameRef engine with
         | None => Some handle
         | Some scheduled => Some scheduled
         end;
       Engine.renderedMapRef := Engine.renderedMapRef engine;
       Engine.renderedSatellites := Engine.renderedSatellites engine |}.

(** *** The particle groups handed to the globe *)

(** The four arrays of [particleGroups], under their source names. *)
Module Groups.
Record t : Type := {
  debris : list SatellitePoint.t;
  other : list SatellitePoint.t;
  payload : list SatellitePoint.t;
  rocket : list SatellitePoint.t
}.
End Groups.

(** [groups[satellite.bucket].push(satellite)]. *)
Definition pushSatellite (groups : Groups.t) (satellite : SatellitePoint.t)
  : Groups.t :=
  match SatellitePoint.bucket satellite with
  | payload =>
      {| Groups.debris := Groups.debris groups;
         Groups.other := Groups.other groups;
         Groups.payload := Groups.payload groups ++ [satellite];
         Groups.rocket := Groups.rocket groups |}
  | debris =>
      {| Groups.debris := Groups.debris groups ++ [satellite];
         Groups.other := Groups.other groups;
         Groups.payload := Groups.payload groups;
         Groups.rocket := Groups.rocket groups |}
  | rocket =>
      {| Groups.debris := Groups.debris groups;
         Groups.other := Groups.other groups;
         Groups.payload := Groups.payload groups;
         Groups.rocket := Groups.rocket groups ++ [satellite] |}
  | other =>
      {| Groups.debris := Groups.debris groups;
         Groups.other := Groups.other groups ++ [satellite];
         Groups.payload := Groups.payload groups;
         Groups.rocket := Groups.rocket groups |}
  end.

(** The [useMemo] that computes [particleGroups] from [renderedSatellites]. *)
Definition particleGroups (renderedSatellites : list SatellitePoint.t)
  : list (list SatellitePoint.t) :=
  let groups :=
    List.fold_left pushSatellite renderedSatellites
      {| Groups.debris := []; Groups.other := [];
         Groups.payload := []; Groups.rocket := [] |} in
  List.filter (fun groupList => (0 <? List.length groupList)%nat)
    [Groups.payload groups; Groups.debris groups;
     Groups.rocket groups; Groups.other groups].

(** The [particlesColor] accessor: [group[0]?.color ?? OTHER_COLOR]. *)
Definition particlesColor (groupList : list SatellitePoint.t) : string :=
  match groupList with
  | first :: _ => SatellitePoint.color first
  | [] => OTHER_COLOR
  end.

(** *** The refresh effect *)

Inductive FeedStatus : Type := live | degraded.

Module SatellitesApiResponse.
Record t : Type := {
  computedAt : string;
  group : string;
  satellites : list Satellite.t;
  totalOrbits : number
}.
End SatellitesApiResponse.

(** How one run of [fetchSatellites] gets past its awaits: with the parsed
    body of a successful response, or with an exception (a rejected fetch,
    a status that is not ok, a body that does not parse). *)
Inductive Settlement : Type :=
| Arrived (response : SatellitesApiResponse.t)
| Failed.

(** One run of the refresh effect: the component state it writes, the two
    flags of its closure, whether its interval timer is set, and, as
    instrumentation, the number of requests sent and not yet settled. *)
Module Session.
Record t : Type := {
  engine : Engine.t;
  status : FeedStatus;
  lastComputedAt : option string;
  totalOrbits : number;
  isActive : bool;
  isRequestInFlight : bool;
  intervalSet : bool;
  outstanding : nat
}.
End Session.

(** The component when the effect starts: the flags as declared, the timer
    set, nothing requested yet. *)
Definition effectStarted (engine : Engine.t) (status : FeedStatus)
  (lastComputedAt : option string) (totalOrbits : number) : Session.t :=
  {| Session.engine := engine;
     Session.status := status;
     Session.lastComputedAt := lastComputedAt;
     Session.totalOrbits := totalOrbits;
     Session.isActive := true;
     Session.isRequestInFlight := false;
     Session.intervalSet := true;
     Session.outstanding := 0 |}.

(** [fetchSatellites] up to its first [await]: nothing when a request is in
    flight, otherwise the flag is raised and the request sent. *)
Definition fetchSatellites_send (session : Session.t) : Session.t :=
  if Session.isRequestInFlight session then session
  else
    {| Session.engine := Session.engine session;
       Session.status := Session.status session;
       Session.lastComputedAt := Session.lastComputedAt session;
       Session.totalOrbits := Session.totalOrbits session;
       Session.isActive := Session.isActive session;
       Session.isRequestInFlight := true;
       Session.intervalSet := Session.intervalSet session;
       Session.outstanding := S (Session.outstanding session) |}.

(** [fetchSatellites] after its awaits: the rest of the [try] block or the
    [catch] block, then [finally].  [nowMs] and [handle] are what
    [startTransition] reads from [performance.now] and gets from
    [requestAnimationFrame]. *)
Definition fetchSatellites_settle (settlement : Settlement) (nowMs : number)
  (handle : Z) (session : Session.t) : Session.t :=
  match settlement with
  | Arrived response =>
      if negb (Session.isActive session)
      then
        {| Session.engine := Session.engine session;
           Session.status := Session.status session;
           Session.lastComputedAt := Session.lastComputedAt session;
           Session.totalOrbits := Session.totalOrbits session;
           Session.isActive := Session.isActive session;
           Session.isRequestInFlight := false;
           Session.intervalSet := Session.intervalSet session;
           Session.outstanding := pred (Session.outstanding session) |}
      else
        {| Session.engine :=
             startTransition (SatellitesApiResponse.satellites response)
               nowMs handle (Session.engine session);
           Session.status := live;
           Session.lastComputedAt := Some (SatellitesApiResponse.computedAt response);
           Session.totalOrbits := SatellitesApiResponse.totalOrbits response;
           Session.isActive := Session.isActive session;
           Session.isRequestInFlight := false;
           Session.intervalSet := Session.intervalSet session;
           Session.outstanding := pred (Session.outstanding session) |}
  | Failed =>
      {| Session.engine := Session.engine session;
         Session.status :=
           if negb (Session.isActive session) then Session.status session
           else degraded;
         Session.lastComputedAt := Session.lastComputedAt session;
         Session.totalOrbits := Session.totalOrbits session;
         Session.isActive := Session.isActive session;
         Session.isRequestInFlight := false;
         Session.intervalSet := Session.intervalSet session;
         Session.outstanding := pred (Session.outstanding session) |}
  end.

(** The cleanup of the effect: [isActive = false] and [clearInterval]. *)
Definition cleanup (session : Session.t) : Session.t :=
  {| Session.engine := Session.engine session;
     Session.status := Session.status session;
     Session.lastComputedAt := Session.lastComputedAt session;
     Session.totalOrbits := Session.totalOrbits session;
     Session.isActive := false;
     Session.isRequestInFlight := Session.isRequestInFlight session;
     Session.intervalSet := false;
     Session.outstanding := Session.outstanding session |}.

(** What can happen to a running effect: the timer fires, a request settles,
    the effect is cleaned up. *)
Inductive Event : Type :=
| Tick
| Settles (settlement : Settlement) (nowMs : number) (handle : Z)
| Cleanup.

(** The handler of an event.  A cleared timer does not fire, and only a
    request that was sent can settle. *)
Definition handleEvent (event : Event) (session : Session.t) : Session.t :=
  match event with
  | Tick =>
      if Session.intervalSet session then fetchSatellites_send session else session
  | Settles settlement nowMs handle =>
      match Session.outstanding session with
      | O => session
      | S _ => fetchSatellites_settle settlement nowMs handle session
      end
  | Cleanup => cleanup session
  end.

(** The effect from its start: the immediate [void fetchSatellites()], then
    the events in order. *)
Definition runEffect (events : list Event) (session : Session.t) : Session.t :=
  List.fold_left (fun current event => handleEvent event current) events
    (fetchSatellites_send session).

End Globe.

(** ** A small host for evaluating the model on concrete inputs

    Decimal numerals without exponent, clock readings printed as counts of
    milliseconds, and a toy propagator that places a satellite from three
    fields of its element set. *)

Module Sample.

Definition digit (c : ascii) : option Z :=
  let n := nat_of_ascii c in
  if ((48 <=? n)%nat && (n <=? 57)%nat) then Some (Z.of_nat (n - 48)) else None.

(** Reads the leading digits of [s]: their value, how many, and the rest. *)
Fixpoint readDigits (s : string) (value : Z) (count : nat) : Z * nat * string :=
  match s with
  | String c rest =>
      match digit c with
      | Some d => readDigits rest (10 * value + d) (S count)
      | None => (value, count, s)
      end
  | EmptyString => (value, count, s)
  end.

Definition unsignedDecimal (s : string) : option Q :=
  let '(whole, n1, rest) := readDigits s 0 0 in
  match rest with
  | EmptyString => if (n1 =? 0)%nat then None else Some (inject_Z whole)
  | String "."%char fraction =>
      let '(part, n2, rest') := readDigits fraction 0 0 in
      match rest' with
      | EmptyString =>
          if (n1 + n2 =? 0)%nat then None
          else Some (Qred (inject_Z whole + Qmake part (Z.to_pos (10 ^ Z.of_nat n2))))
      | _ => None
      end
  | _ => None
  end.

Definition parseNumber (s : string) : number :=
  let t := Str.trim s in
  if String.eqb t "" then Fin 0
  else if String.eqb t "Infinity" || String.eqb t "+Infinity" then PInf
  else if String.eqb t "-Infinity" then NInf
  else
    match t with
    | String "-"%char rest =>
        match unsignedDecimal rest with Some q => Fin (Qred (- q)) | None => NaN end
    | String "+"%char rest =>
        match unsignedDecimal rest with Some q => Fin q | None => NaN end
    | _ => match unsignedDecimal t with Some q => Fin q | None => NaN end
    end.

Fixpoint fractionDigits (fuel : nat) (num den : Z) : string :=
  match fuel with
  | O => ""
  | S fuel' =>
      if (num =? 0)%Z then ""
      else pretty (10 * num / den)%Z +:+ fractionDigits fuel' (10 * num mod den)%Z den
  end.

Definition printNumber (x : number) : string :=
  match x with
  | NaN => "NaN"
  | PInf => "Infinity"
  | NInf => "-Infinity"
  | Fin q =>
      let magnitude := Qabs q in
      let whole := Qfloor magnitude in
      let num := (Qnum magnitude - whole * Zpos (Qden magnitude))%Z in
      (if Num.Qlt_bool q 0 then "-" else "") +:+ pretty whole
      +:+ (if (num =? 0)%Z then "" else "." +:+ fractionDigits 17 num (Zpos (Qden magnitude)))
  end.

Fixpoint paddedDigits (digits : nat) (n : Z) : string :=
  match digits with
  | O => ""
  | S digits' =>
      paddedDigits digits' (n / 10)%Z +:+ pretty (n mod 10)%Z
  end.

Definition printFixed (x : number) (digits : nat) : string :=
  match x with
  | Fin q =>
      let scale := (10 ^ Z.of_nat digits)%Z in
      let scaled := Qfloor (Qabs q * inject_Z scale + (1 # 2)) in
      (if Num.Qlt_bool q 0 then "-" else "") +:+ pretty (scaled / scale)%Z
      +:+ (if (digits =? 0)%nat then "" else "." +:+ paddedDigits digits (scaled mod scale)%Z)
  | _ => printNumber x
  end.

Definition power (base exponent : number) : number :=
  match base, exponent with
  | Fin b, Fin e =>
      if Qeq_bool e (inject_Z (Qfloor e)) then Fin (Qred (Qpower b (Qfloor e))) else NaN
  | _, _ => NaN
  end.

(** Square root to six decimal places. *)
Definition squareRoot (x : number) : number :=
  match x with
  | Fin q =>
      if Num.Qlt_bool q 0 then NaN
      else Fin (Qred (Qmake (Z.sqrt (Qfloor (q * 1000000000000))) 1000000))
  | PInf => PInf
  | _ => NaN
  end.

#[local] Instance host : Host := {|
  Number := parseNumber;
  ToString := printNumber;
  toFixed := printFixed;
  Math_sqrt := squareRoot;
  Math_pow := power;
  toISOString := fun ms => "T" +:+ pretty ms;
  Date_ofString := fun s =>
    match s with String "T"%char rest => parseNumber rest | _ => NaN end;
  abortMessage := "This operation was aborted"
|}.

(** The toy propagator keeps three numbers of the element set and fails to
    build a record without a finite [MEAN_MOTION]; it fails to propagate a
    non-positive mean motion and reads the angles off the two other
    numbers. *)
Definition field (entry : gmap string Value) (name : string) : number :=
  match Route.toFiniteNumber (prop entry name) with Some n => n | None => NaN end.

Record Elements : Type := {
  meanMotion : number;
  node : number;
  tilt : number
}.

#[local] Instance propagation : Propagation := {|
  SatRec := Elements;
  json2satrec := fun entry =>
    if Num.isFinite (field entry "MEAN_MOTION")
    then Ok {| meanMotion := field entry "MEAN_MOTION";
               node := field entry "RA_OF_ASC_NODE";
               tilt := field entry "INCLINATION" |}
    else Throw (ErrorObj "Mean motion is missing");
  propagate := fun satrec nowDate =>
    if Num.lt (Fin 0) (meanMotion satrec)
    then Some {| PropagationState.position :=
                   Some {| Vec3.x := node satrec;
                           Vec3.y := tilt satrec;
                           Vec3.z := Fin 7000 |};
                 PropagationState.velocity :=
                   Some {| Vec3.x := Fin 3; Vec3.y := Fin 4; Vec3.z := Fin 0 |} |}
    else None;
  gstime := fun nowDate => Fin 0;
  eciToGeodetic := fun statePosition gmst =>
    {| Geodetic.latitude := Vec3.y statePosition;
       Geodetic.longitude := Num.sub (Vec3.x statePosition) gmst;
       Geodetic.height := Num.sub (Vec3.z statePosition) (Fin 6371) |};
  radiansToDegrees := fun radians => radians
|}.

Definition object (fields : list (string * Value)) : gmap string Value :=
  list_to_map fields.

(** Three raw records: a station, a record whose identifier is the string
    "NaN", and a fragment whose type is left to inference. *)
Definition station : gmap string Value :=
  object [("NORAD_CAT_ID", VNumber (Fin 25544)); ("OBJECT_NAME", VString "ISS (ZARYA)");
          ("OBJECT_TYPE", VString "pay"); ("MEAN_MOTION", VNumber (Fin 15));
          ("RA_OF_ASC_NODE", VNumber (Fin 200)); ("INCLINATION", VString "51.6")].

Definition unnumbered : gmap string Value :=
  object [("NORAD_CAT_ID", VString "NaN"); ("OBJECT_NAME", VString "UNKNOWN");
          ("MEAN_MOTION", VNumber (Fin 14))].

Definition fragment : gmap string Value :=
  object [("NORAD_CAT_ID", VString "30000"); ("OBJECT_NAME", VString " FENGYUN 1C DEB ");
          ("MEAN_MOTION", VNumber (Fin 14)); ("RA_OF_ASC_NODE", VNumber (Fin (-10)));
          ("INCLINATION", VNumber (Fin 98))].

(** An upstream that answers after [latencyMs] with [status] and the three
    records. *)
Definition upstream (latencyMs status : Z) : string -> Route.Exchange :=
  fun url =>
    Route.Responds latencyMs
      {| Route.Upstream.status := status;
         Route.Upstream.json := Route.Records [station; unnumbered; fragment] |}.

Definition world (now : Z) (network : string -> Route.Exchange) : Route.Ambient.t :=
  {| Route.Ambient.handlerNow := now;
     Route.Ambient.loaderNow := now + 1;
     Route.Ambient.fetchedClock := now + 200;
     Route.Ambient.computedClock := now + 201;
     Route.Ambient.network := network |}.

Definition request (group limit : option string) : Route.Request.t :=
  {| Route.Request.group := group; Route.Request.limit := limit |}.

(** A satellite of a client snapshot with the given identifier and place. *)
Definition satellite (id : Z) (lat lon : Q) : Globe.Satellite.t :=
  {| Globe.Satellite.altitudeKm := Fin 420;
     Globe.Satellite.countryCode := None;
     Globe.Satellite.inclination := None;
     Globe.Satellite.launchDate := None;
     Globe.Satellite.lat := Fin lat;
     Globe.Satellite.lon := Fin lon;
     Globe.Satellite.noradId := Num.of_Z id;
     Globe.Satellite.objectName := "SAT-" +:+ pretty id;
     Globe.Satellite.objectType := Some "PAYLOAD";
     Globe.Satellite.speedKps := Fin 7 |}.

End Sample.

(** ** Vocabulary of the properties *)

(** A string that does not begin with white space. *)
Definition leads (s : string) : Prop :=
  match s with
  | EmptyString => True
  | String c _ => Str.is_space c = false
  end.

(** The synonym table on an upper-cased tag. *)
Definition canonicalType (upperValue : string) : string :=
  if String.eqb upperValue "PAY" || String.eqb upperValue "PAYLOAD" then "PAYLOAD"
  else if String.eqb upperValue "DEB" || String.eqb upperValue "DEBRIS" then "DEBRIS"
  else if String.eqb upperValue "R/B" || String.eqb upperValue "ROCKET BODY"
          || String.eqb upperValue "RB" then "ROCKET BODY"
  else upperValue.

(** The index at which a loop [for (index; index < count; index += 1)]
    started at [index] stops, when it stops within [fuel] iterations. *)
Fixpoint firstStop (count : number) (index fuel : nat) : nat :=
  match fuel with
  | O => index
  | S fuel' =>
      if Num.lt (Num.of_nat index) count
      then firstStop count (S index) fuel'
      else index
  end.

Section Invariants.
Context `{Host} `{Propagation}.

(** A snapshot whose count is the number of its positions and whose
    positions all carry a classification. *)
Definition complete (value : Route.Snapshot.t) : Prop :=
  Route.Snapshot.count value = List.length (Route.Snapshot.satellites value) /\
  Forall (fun satellite => Route.SatellitePosition.objectType satellite <> None)
         (Route.Snapshot.satellites value).

Definition classified (value : Route.CachedOrbitSet.t) : Prop :=
  Forall (fun record => Route.CachedOrbitRecord.objectType record <> None)
         (Route.CachedOrbitSet.records value).

(** What both caches hold at any time. *)
Definition sound (server : Route.Server.t) : Prop :=
  (forall key expiresAt value,
     Route.Server.positionCache server !! key = Some (expiresAt, value) ->
     complete value) /\
  (forall key expiresAt value,
     Route.Server.orbitCache server !! key = Some (expiresAt, value) ->
     classified value).

(** The states of the server: the initial one and those left by a request. *)
Inductive reachable : Route.Server.t -> Prop :=
| reachable_initial : reachable Route.initial
| reachable_GET (world : Route.Ambient.t) (request : Route.Request.t)
    (server : Route.Server.t) :
    reachable server -> reachable (fst (Route.GET world request server)).

(** The two shapes of a response: the error envelope with status 502, and a
    complete snapshot with status 200. *)
Definition wellFormed (response : Route.Response.t) : Prop :=
  (Route.Response.status response = 502 /\
   exists cause : string,
     Route.Response.body response =
     Route.ErrorBody ("Unable to fetch live satellite positions: " +:+ cause)) \/
  (Route.Response.status response = 200 /\
   exists value : Route.Snapshot.t,
     Route.Response.body response = Route.SnapshotBody value /\ complete value).

(** The server after the fetch for [group] has been journalled. *)
Definition fetching (group : string) (server : Route.Server.t) : Route.Server.t :=
  fst (Route.record (Route.Fetched (Route.buildGroupFeedUrl group)) server).

(** The key of the position cache for a request. *)
Definition keyOf (request : Route.Request.t) : string :=
  Route.positionCacheKey (Route.selectGroup request)
    (Route.parseLimit (Route.Request.limit request)).

(** The snapshot that the miss path builds from an orbit set and the
    positions computed from it. *)
Definition snapshotOf (world : Route.Ambient.t) (request : Route.Request.t)
  (orbitSet : Route.CachedOrbitSet.t) (satellites : list Route.SatellitePosition.t)
  : Route.Snapshot.t :=
  {| Route.Snapshot.computedAt := toISOString (Route.Ambient.computedClock world);
     Route.Snapshot.count := List.length satellites;
     Route.Snapshot.fetchedAt := Route.CachedOrbitSet.fetchedAt orbitSet;
     Route.Snapshot.group := Route.selectGroup request;
     Route.Snapshot.satellites := satellites;
     Route.Snapshot.source := Route.CachedOrbitSet.source orbitSet;
     Route.Snapshot.totalOrbits :=
       List.length (Route.CachedOrbitSet.records orbitSet) |}.

(** The server once the miss path has stored [value]. *)
Definition storing (world : Route.Ambient.t) (request : Route.Request.t)
  (value : Route.Snapshot.t) (server : Route.Server.t) : Route.Server.t :=
  {| Route.Server.orbitCache := Route.Server.orbitCache server;
     Route.Server.positionCache :=
       <[keyOf request :=
           ((Route.Ambient.handlerNow world + Route.POSITION_CACHE_TTL_MS)%Z, value)]>
         (Route.Server.positionCache server);
     Route.Server.journal := Route.Server.journal server ++ [Route.Computed] |}.

End Invariants.

(** No key of [keys] is the same number as [key]. *)
Definition fresh (key : number) (keys : list number) : bool :=
  forallb (fun k => negb (Num.same k key)) keys.

(** Keys that are pairwise different numbers, as the keys of a [Map] are. *)
Fixpoint distinct (keys : list number) : Prop :=
  match keys with
  | [] => True
  | key :: rest => fresh key rest = true /\ distinct rest
  end.

(** The frames that follow one another: each calls [animateStep] with its
    time and the handle that [requestAnimationFrame] would return. *)
Fixpoint play `{Host} (frames : list (number * Z)) (engine : Globe.Engine.t)
  : Globe.Engine.t :=
  match frames with
  | [] => engine
  | (frameTimeMs, handle) :: rest =>
      play rest (Globe.animateStep frameTimeMs handle engine)
  end.

(** The engine renders exactly the identifiers of the target map [to]. *)
Definition shows (to : list (number * Globe.SatellitePoint.t))
  (engine : Globe.Engine.t) : Prop :=
  NumMap.keys (Globe.Engine.renderedMapRef engine) = NumMap.keys to /\
  List.map Globe.SatellitePoint.noradId (Globe.Engine.renderedSatellites engine) =
  List.map (fun entry => Globe.SatellitePoint.noradId (snd entry)) to.

(** A string kept by [toCleanString]: not empty and already trimmed. *)
Definition clean (s : string) : Prop := s <> "" /\ Str.trim s = s.

Section Coherence.
Context `{Host} `{Propagation}.

(** A record as the normaliser builds it. *)
Definition wellKept (record : Route.CachedOrbitRecord.t) : Prop :=
  Num.isFinite (Route.CachedOrbitRecord.noradId record) = true /\
  Route.CachedOrbitRecord.objectName record <> "".

(** An orbit set as [loadOrbitSet] stores it for [group]. *)
Definition stocked (group : string) (value : Route.CachedOrbitSet.t) : Prop :=
  Route.CachedOrbitSet.source value = Route.buildGroupFeedUrl group /\
  Forall wellKept (Route.CachedOrbitSet.records value).

(** A snapshot as the handler builds it. *)
Definition tidy (value : Route.Snapshot.t) : Prop :=
  (Route.Snapshot.count value <= Route.Snapshot.totalOrbits value)%nat /\
  Route.Snapshot.group value ∈ Route.ALLOWED_GROUPS /\
  Route.Snapshot.source value = Route.buildGroupFeedUrl (Route.Snapshot.group value) /\
  Forall (fun satellite =>
            Num.isFinite (Route.SatellitePosition.noradId satellite) = true /\
            Route.SatellitePosition.objectName satellite <> "")
         (Route.Snapshot.satellites value).

Definition coherent (server : Route.Server.t) : Prop :=
  (forall key expiresAt value,
     Route.Server.positionCache server !! key = Some (expiresAt, value) ->
     tidy value) /\
  (forall group expiresAt value,
     Route.Server.orbitCache server !! group = Some (expiresAt, value) ->
     stocked group value).

End Coherence.

(** A point with a finite latitude and altitude and a normalised
    longitude. *)
Definition placed (point : Globe.SatellitePoint.t) (lat altitudeKm lng : Q) : Prop :=
  Globe.SatellitePoint.lat point = Fin lat /\
  Globe.SatellitePoint.altitudeKm point = Fin altitudeKm /\
  Globe.SatellitePoint.lng point = Fin lng /\
  (-180 <= lng <= 180)%Q.

(** A host whose [Math.pow] cubes finite numbers. *)
Definition cubes `{Host} : Prop :=
  forall q : Q, exists r : Q, Math_pow (Fin q) (Fin 3) = Fin r /\ (r == q * q * q)%Q.

(** An entry of a rendered or target map as the engine builds it: filed
    under the identifier of its point, which has the colour of its bucket. *)
Definition filed (entry : number * Globe.SatellitePoint.t) : Prop :=
  Num.same (fst entry) (Globe.SatellitePoint.noradId (snd entry)) = true /\
  Globe.SatellitePoint.color (snd entry) =
    Globe.bucketColor (Globe.SatellitePoint.bucket (snd entry)).

(** What the engine keeps true of its refs and state. *)
Definition orderly (engine : Globe.Engine.t) : Prop :=
  (Globe.Engine.transitionRef engine <> None ->
   Globe.Engine.animationFrameRef engine <> None) /\
  Globe.Engine.renderedSatellites engine =
    NumMap.values (Globe.Engine.renderedMapRef engine) /\
  distinct (NumMap.keys (Globe.Engine.renderedMapRef engine)) /\
  Forall filed (Globe.Engine.renderedMapRef engine) /\
  (forall transition : Globe.TransitionState.t,
     Globe.Engine.transitionRef engine = Some transition ->
     distinct (NumMap.keys (Globe.TransitionState.to transition)) /\
     Forall filed (Globe.TransitionState.to transition)).

(** The states of the engine: as mounted, after a snapshot, after a frame. *)
Inductive running `{Host} : Globe.Engine.t -> Prop :=
| running_mounted : running Globe.mounted
| running_snapshot (incoming : list Globe.Satellite.t) (nowMs : number)
    (handle : Z) (engine : Globe.Engine.t) :
    running engine -> running (Globe.startTransition incoming nowMs handle engine)
| running_frame (frameTimeMs : number) (handle : Z) (engine : Globe.Engine.t) :
    running engine -> running (Globe.animateStep frameTimeMs handle engine).


(** What the refresh effect keeps true of its flags: at most one request
    is outstanding, the in-flight flag is up exactly while one is, and the
    timer is set exactly while the effect is active. *)
Definition guarded (session : Globe.Session.t) : Prop :=
  (Globe.Session.outstanding session <= 1)%nat /\
  (Globe.Session.isRequestInFlight session = true <->
   Globe.Session.outstanding session = 1%nat) /\
  Globe.Session.intervalSet session = Globe.Session.isActive session.


(** * Properties *)

(** ** Arithmetic of the number model *)

Lemma Qlt_bool_true (a b : Q) : Num.Qlt_bool a b = true <-> (a < b)%Q.
Proof.
  unfold Num.Qlt_bool. rewrite negb_true_iff.
  split.
  - intros Hle. apply Qnot_le_lt. intros Hba.
    apply Qle_bool_iff in Hba. congruence.
  - intros Hlt. destruct (Qle_bool b a) eqn:Hba; [| reflexivity].
    apply Qle_bool_iff in Hba. exfalso. apply (Qlt_not_le _ _ Hlt Hba).
Qed.

Lemma Qlt_bool_false (a b : Q) : Num.Qlt_bool a b = false <-> (b <= a)%Q.
Proof.
  unfold Num.Qlt_bool. rewrite negb_false_iff. apply Qle_bool_iff.
Qed.

(** Truncation and floor agree on non-negative rationals. *)
Lemma Qtrunc_nonneg (a : Q) : (0 <= a)%Q -> Num.Qtrunc a = Qfloor a.
Proof.
  destruct a as [n d]. unfold Qle, Num.Qtrunc, Qfloor. simpl. intros Hn.
  apply Z.quot_div_nonneg; lia.
Qed.

(** The remainder of a non-negative rational by 360. *)
Lemma rem_360 (a : Q) :
  (0 <= a)%Q ->
  exists k : Z,
    Num.rem (Fin a) (Fin 360) = Fin (a - 360 * inject_Z k) /\
    (0 <= a - 360 * inject_Z k < 360)%Q.
Proof.
  intros Ha. exists (Qfloor (a / 360)).
  assert (Hq : (0 <= a / 360)%Q).
  { apply Qle_shift_div_l; [reflexivity | lra]. }
  unfold Num.rem. simpl (Qeq_bool 360 0). cbv iota.
  rewrite (Qtrunc_nonneg _ Hq). split; [reflexivity |].
  pose proof (Qfloor_le (a / 360)) as Hlo.
  pose proof (Qlt_floor (a / 360)) as Hhi.
  rewrite inject_Z_plus in Hhi.
  assert (Ha' : (a == 360 * (a / 360))%Q) by (field; discriminate).
  set (f := inject_Z (Qfloor (a / 360))) in *.
  set (t := (a / 360)%Q) in *.
  change (inject_Z 1) with 1%Q in Hhi.
  split; lra.
Qed.

(** ** C2: longitude normalisation *)

(** C2. For every finite longitude in [-540, 540] [normalizeLongitude]
    returns a value in [-180, 180], which is the input minus 360, plus 360 or
    unchanged; the result is a fixed point, and a value already in
    [-180, 180] is returned unchanged. *)
Theorem normalizeLongitude_once_and_idempotent (q : Q) :
  (-540 <= q <= 540)%Q ->
  exists r : Q,
    Route.normalizeLongitude (Fin q) = Fin r /\
    (-180 <= r <= 180)%Q /\
    (r == q - 360 \/ r == q + 360 \/ r = q)%Q /\
    Route.normalizeLongitude (Fin r) = Fin r /\
    ((-180 <= q <= 180)%Q -> Route.normalizeLongitude (Fin q) = Fin q).
Proof.
  intros [Hlo Hhi].
  assert (Hfix : forall r : Q,
             (-180 <= r <= 180)%Q -> Route.normalizeLongitude (Fin r) = Fin r).
  { intros r [Hr1 Hr2]. unfold Route.normalizeLongitude, Num.gt, Num.lt. simpl.
    replace (Num.Qlt_bool 180 r) with false
      by (symmetry; apply Qlt_bool_false; exact Hr2).
    replace (Num.Qlt_bool r (-180)) with false
      by (symmetry; apply Qlt_bool_false; exact Hr1).
    reflexivity. }
  unfold Route.normalizeLongitude at 1. unfold Num.gt, Num.lt. simpl.
  destruct (Num.Qlt_bool 180 q) eqn:Hgt.
  - apply Qlt_bool_true in Hgt.
    exists (q + - (360))%Q.
    split; [reflexivity |]. split; [lra |].
    split; [left; ring |]. split; [apply Hfix; lra |].
    intros [_ Hq]. lra.
  - apply Qlt_bool_false in Hgt.
    destruct (Num.Qlt_bool q (-180)) eqn:Hlt.
    + apply Qlt_bool_true in Hlt.
      exists (q + 360)%Q.
      split; [reflexivity |]. split; [lra |].
      split; [right; left; reflexivity |]. split; [apply Hfix; lra |].
      intros [Hq _]. lra.
    + apply Qlt_bool_false in Hlt.
      exists q.
      split; [reflexivity |]. split; [lra |].
      split; [right; right; reflexivity |]. split; [apply Hfix; lra |].
      intros Hq. apply Hfix. exact Hq.
Qed.

Lemma normalizeLongitude_once_and_idempotent_witness :
  (-540 <= 200 <= 540)%Q /\
  exists r : Q,
    Route.normalizeLongitude (Fin 200) = Fin r /\
    (-180 <= r <= 180)%Q /\
    (r == 200 - 360 \/ r == 200 + 360 \/ r = 200)%Q /\
    Route.normalizeLongitude (Fin r) = Fin r /\
    ((-180 <= 200 <= 180)%Q -> Route.normalizeLongitude (Fin 200) = Fin 200).
Proof.
  assert (Hin : (-540 <= 200 <= 540)%Q) by (split; discriminate).
  split; [exact Hin |].
  exact (normalizeLongitude_once_and_idempotent 200 Hin).
Defined.

(** ** C7: interpolation of the longitude *)

(** The client's [normalizeLongitude] by cases. *)
Lemma Globe_normalizeLongitude_cases (q : Q) :
  exists r : Q,
    Globe.normalizeLongitude (Fin q) = Fin r /\
    (((180 < q)%Q /\ r = (q + - (360))%Q) \/
     ((q < -180)%Q /\ r = (q + 360)%Q) \/
     ((-180 <= q <= 180)%Q /\ r = q)).
Proof.
  unfold Globe.normalizeLongitude, Num.gt, Num.lt. simpl.
  destruct (Num.Qlt_bool 180 q) eqn:Hgt.
  - apply Qlt_bool_true in Hgt. eexists. split; [reflexivity |]. left. auto.
  - apply Qlt_bool_false in Hgt.
    destruct (Num.Qlt_bool q (-180)) eqn:Hlt.
    + apply Qlt_bool_true in Hlt. eexists. split; [reflexivity |].
      right. left. auto.
    + apply Qlt_bool_false in Hlt. eexists. split; [reflexivity |].
      right. right. auto.
Qed.

(** The delta between two normalised longitudes: congruent to their
    difference and in [-180, 180). *)
Lemma longitudeDelta_shortest (from to : Q) :
  (-180 <= from <= 180)%Q -> (-180 <= to <= 180)%Q ->
  exists d : Q,
    Globe.longitudeDelta (Fin from) (Fin to) = Fin d /\
    (-180 <= d < 180)%Q /\
    exists k : Z, (d == to - from + 360 * inject_Z k)%Q.
Proof.
  intros Hf Ht. unfold Globe.longitudeDelta.
  change (Num.add (Num.sub (Fin to) (Fin from)) (Fin 540))
    with (Fin (to + - from + 540)).
  destruct (rem_360 (to + - from + 540)) as (k & Hrem & Hlo & Hhi); [lra |].
  rewrite Hrem. eexists. split; [reflexivity |].
  split; [split; lra |].
  exists (1 - k)%Z. unfold Zminus. rewrite inject_Z_plus, inject_Z_opp.
  change (inject_Z 1) with 1%Q. ring.
Qed.

(** The longitude of the point built by one iteration of [animateStep]. *)
Lemma interpolate_lng (from target : Globe.SatellitePoint.t) (eased : number) :
  Globe.SatellitePoint.lng (Globe.interpolate from target eased) =
  Globe.normalizeLongitude
    (Num.add (Globe.SatellitePoint.lng from)
       (Num.mul (Globe.longitudeDelta (Globe.SatellitePoint.lng from)
                                      (Globe.SatellitePoint.lng target)) eased)).
Proof. reflexivity. Qed.

(** C7. Between two normalised longitudes the per-frame interpolation uses a
    delta congruent to [to - from] modulo 360 and of magnitude at most 180,
    and for an eased progress in (0,1) the rendered longitude is the
    normalised point [from + delta * eased]; from 179 to -179 the delta is 2,
    so the longitude runs from 179 up to 180 and on from -180 to -179. *)
Theorem longitude_interpolation_shortest_arc
  (pf pt : Globe.SatellitePoint.t) (from to e : Q) :
  Globe.SatellitePoint.lng pf = Fin from ->
  Globe.SatellitePoint.lng pt = Fin to ->
  (-180 <= from <= 180)%Q -> (-180 <= to <= 180)%Q -> (0 < e < 1)%Q ->
  exists d r : Q,
    Globe.longitudeDelta (Fin from) (Fin to) = Fin d /\
    (-180 <= d < 180)%Q /\
    (exists k : Z, (d == to - from + 360 * inject_Z k)%Q) /\
    Globe.SatellitePoint.lng (Globe.interpolate pf pt (Fin e)) = Fin r /\
    (-180 <= r <= 180)%Q /\
    (exists j : Z, (r == from + d * e + 360 * inject_Z j)%Q) /\
    (from = 179%Q -> to = (-179)%Q ->
     d = 2%Q /\
     (((e <= 1 # 2)%Q /\ (r == 179 + 2 * e)%Q) \/
      ((1 # 2 < e)%Q /\ (r == 2 * e - 181)%Q))).
Proof.
  intros Hpf Hpt Hf Ht He.
  destruct (longitudeDelta_shortest from to Hf Ht) as (d & Hd & Hrange & Hk).
  rewrite interpolate_lng, Hpf, Hpt, Hd.
  change (Num.add (Fin from) (Num.mul (Fin d) (Fin e))) with (Fin (from + d * e)).
  destruct (Globe_normalizeLongitude_cases (from + d * e)) as (r & Hr & Hcases).
  exists d, r.
  assert (Hde : (-180 < d * e < 180)%Q) by (split; nra).
  split; [reflexivity |]. split; [exact Hrange |]. split; [exact Hk |].
  split; [exact Hr |].
  split.
  { destruct Hcases as [[H1 ->] | [[H1 ->] | [H1 ->]]]; split; lra. }
  split.
  { destruct Hcases as [[H1 ->] | [[H1 ->] | [H1 ->]]].
    - exists (-1)%Z. change (inject_Z (-1)) with (-1)%Q. ring.
    - exists 1%Z. change (inject_Z 1) with 1%Q. ring.
    - exists 0%Z. change (inject_Z 0) with 0%Q. ring. }
  intros -> ->.
  assert (Hd2 : d = 2%Q).
  { vm_compute in Hd. injection Hd as <-. reflexivity. }
  subst d. split; [reflexivity |].
  destruct Hcases as [[H1 ->] | [[H1 ->] | [H1 ->]]].
  - right. split; [lra | ring].
  - exfalso. lra.
  - left. split; [lra | ring].
Qed.

Lemma longitude_interpolation_shortest_arc_witness :
  let pf := Globe.makeSatellitePoint (Sample.satellite 1 0 179) in
  let pt := Globe.makeSatellitePoint (Sample.satellite 1 0 (-179)) in
  Globe.SatellitePoint.lng pf = Fin 179 /\
  Globe.SatellitePoint.lng pt = Fin (-179) /\
  (-180 <= 179 <= 180)%Q /\ (-180 <= -179 <= 180)%Q /\ (0 < 3 # 4 < 1)%Q /\
  exists d r : Q,
    Globe.longitudeDelta (Fin 179) (Fin (-179)) = Fin d /\
    (-180 <= d < 180)%Q /\
    (exists k : Z, (d == -179 - 179 + 360 * inject_Z k)%Q) /\
    Globe.SatellitePoint.lng (Globe.interpolate pf pt (Fin (3 # 4))) = Fin r /\
    (-180 <= r <= 180)%Q /\
    (exists j : Z, (r == 179 + d * (3 # 4) + 360 * inject_Z j)%Q) /\
    (179%Q = 179%Q -> (-179)%Q = (-179)%Q ->
     d = 2%Q /\
     (((3 # 4 <= 1 # 2)%Q /\ (r == 179 + 2 * (3 # 4))%Q) \/
      ((1 # 2 < 3 # 4)%Q /\ (r == 2 * (3 # 4) - 181)%Q))).
Proof.
  intros pf pt.
  assert (H1 : (-180 <= 179 <= 180)%Q) by (split; discriminate).
  assert (H2 : (-180 <= -179 <= 180)%Q) by (split; discriminate).
  assert (H3 : (0 < 3 # 4 < 1)%Q) by (split; reflexivity).
  split; [reflexivity |]. split; [reflexivity |].
  split; [exact H1 |]. split; [exact H2 |]. split; [exact H3 |].
  exact (longitude_interpolation_shortest_arc pf pt 179 (-179) (3 # 4)
           eq_refl eq_refl H1 H2 H3).
Defined.

(** ** Strings: trimming and case mapping *)

Lemma trimEnd_idempotent (s : string) : Str.trimEnd (Str.trimEnd s) = Str.trimEnd s.
Proof.
  induction s as [| c rest IH]; [reflexivity |].
  simpl. destruct (Str.trimEnd rest) as [| k kept] eqn:Hrest.
  - destruct (Str.is_space c) eqn:Hc; [reflexivity |].
    simpl. rewrite Hc. reflexivity.
  - change (Str.trimEnd (String c (String k kept)))
      with (match Str.trimEnd (String k kept) with
            | EmptyString =>
                if Str.is_space c then EmptyString else String c EmptyString
            | kept' => String c kept'
            end).
    rewrite IH. reflexivity.
Qed.

Lemma trimStart_leads (s : string) : leads (Str.trimStart s).
Proof.
  induction s as [| c rest IH]; [exact I |].
  simpl. destruct (Str.is_space c) eqn:Hc; [exact IH | exact Hc].
Qed.

Lemma trimStart_of_leads (s : string) : leads s -> Str.trimStart s = s.
Proof.
  destruct s as [| c rest]; [reflexivity |].
  simpl. intros ->. reflexivity.
Qed.

Lemma trimEnd_leads (s : string) : leads s -> leads (Str.trimEnd s).
Proof.
  destruct s as [| c rest]; [intros _; exact I |].
  simpl. intros Hc. rewrite Hc.
  destruct (Str.trimEnd rest); exact Hc.
Qed.

Lemma trim_idempotent (s : string) : Str.trim (Str.trim s) = Str.trim s.
Proof.
  unfold Str.trim.
  rewrite (trimStart_of_leads (Str.trimEnd (Str.trimStart s))).
  - apply trimEnd_idempotent.
  - apply trimEnd_leads, trimStart_leads.
Qed.

Lemma is_space_upper (c : ascii) : Str.is_space (Str.upper_char c) = Str.is_space c.
Proof. destruct c as [[] [] [] [] [] [] [] []]; reflexivity. Qed.

Lemma upper_char_idempotent (c : ascii) :
  Str.upper_char (Str.upper_char c) = Str.upper_char c.
Proof. destruct c as [[] [] [] [] [] [] [] []]; reflexivity. Qed.

Lemma toUpperCase_idempotent (s : string) :
  Str.toUpperCase (Str.toUpperCase s) = Str.toUpperCase s.
Proof.
  induction s as [| c rest IH]; [reflexivity |].
  unfold Str.toUpperCase in *. simpl. rewrite upper_char_idempotent, IH.
  reflexivity.
Qed.

Lemma toUpperCase_trimStart (s : string) :
  Str.toUpperCase (Str.trimStart s) = Str.trimStart (Str.toUpperCase s).
Proof.
  induction s as [| c rest IH]; [reflexivity |].
  unfold Str.toUpperCase in *. simpl. rewrite is_space_upper.
  destruct (Str.is_space c); [exact IH | reflexivity].
Qed.

Lemma toUpperCase_trimEnd (s : string) :
  Str.toUpperCase (Str.trimEnd s) = Str.trimEnd (Str.toUpperCase s).
Proof.
  induction s as [| c rest IH]; [reflexivity |].
  unfold Str.toUpperCase in *. simpl. rewrite <- IH, is_space_upper.
  destruct (Str.trimEnd rest) as [| k kept]; simpl.
  - destruct (Str.is_space c); reflexivity.
  - reflexivity.
Qed.

Lemma toUpperCase_trim (s : string) :
  Str.toUpperCase (Str.trim s) = Str.trim (Str.toUpperCase s).
Proof.
  unfold Str.trim. rewrite toUpperCase_trimEnd, toUpperCase_trimStart.
  reflexivity.
Qed.

Lemma toUpperCase_empty (s : string) :
  Str.toUpperCase s = EmptyString <-> s = EmptyString.
Proof.
  unfold Str.toUpperCase. destruct s; simpl; split; intros Heq;
    try reflexivity; discriminate.
Qed.

(** [toCleanString] on a string, by cases on its trimmed form. *)
Lemma toCleanString_string (s : string) :
  Route.toCleanString (VString s) =
  if String.eqb (Str.trim s) "" then None else Some (Str.trim s).
Proof.
  unfold Route.toCleanString. destruct (Str.trim s); reflexivity.
Qed.

Lemma toCleanString_not_string (v : Value) :
  (forall s, v <> VString s) -> Route.toCleanString v = None.
Proof. destruct v; intros Hv; try reflexivity. destruct (Hv s eq_refl). Qed.

(** The tag of a record with a non-blank [OBJECT_TYPE] string. *)
Lemma normalizeObjectType_tag (s : string) :
  Str.trim s <> "" ->
  Route.normalizeObjectType (Route.toCleanString (VString s)) =
  Some (canonicalType (Str.toUpperCase (Str.trim s))).
Proof.
  intros Hs. rewrite toCleanString_string.
  destruct (String.eqb_spec (Str.trim s) "") as [Heq | _]; [contradiction |].
  unfold Route.normalizeObjectType.
  destruct (Str.trim s) as [| c rest] eqn:Htrim; [contradiction |].
  simpl (negb _). cbv iota. rewrite <- Htrim, trim_idempotent.
  unfold canonicalType.
  repeat match goal with
         | |- context [if ?b then _ else _] => destruct b; try reflexivity
         end.
Qed.

Lemma normalizeObjectType_blank (v : Value) :
  (forall s, v = VString s -> Str.trim s = "") ->
  Route.normalizeObjectType (Route.toCleanString v) = None.
Proof.
  intros Hv. destruct v; try reflexivity.
  rewrite toCleanString_string, (Hv s eq_refl). reflexivity.
Qed.

(** ** C8: classification *)

Lemma entryObjectType_tagged (entry : gmap string Value) (objectName s : string) :
  prop entry "OBJECT_TYPE" = VString s -> Str.trim s <> "" ->
  Route.entryObjectType entry objectName =
  canonicalType (Str.toUpperCase (Str.trim s)).
Proof.
  intros Hprop Hs. unfold Route.entryObjectType.
  rewrite Hprop, (normalizeObjectType_tag s Hs). reflexivity.
Qed.

Lemma entryObjectType_inferred (entry : gmap string Value) (objectName : string) :
  (forall s, prop entry "OBJECT_TYPE" = VString s -> Str.trim s = "") ->
  Route.entryObjectType entry objectName = Route.inferObjectTypeFromName objectName.
Proof.
  intros Hblank. unfold Route.entryObjectType.
  rewrite (normalizeObjectType_blank _ Hblank). reflexivity.
Qed.

(** C8, as the code has it. A non-blank tag is trimmed, upper-cased and sent
    through the synonym table, any other value passing through upper-cased,
    and tags that differ only in case give the same type; an absent,
    non-string or blank tag is replaced by inference from the upper-cased
    name: DEBRIS if it contains " DEB" (a space, then DEB) or "DEBRIS",
    ROCKET BODY if it contains " R/B" (a space, then R/B) or "ROCKET BODY",
    PAYLOAD otherwise. *)
Theorem classification_table_and_inference
  (entry : gmap string Value) (objectName : string) :
  ((forall s, prop entry "OBJECT_TYPE" = VString s -> Str.trim s = "") ->
   let upperName := Str.toUpperCase objectName in
   Route.entryObjectType entry objectName =
   if Str.includes upperName " DEB" || Str.includes upperName "DEBRIS"
   then "DEBRIS"
   else if Str.includes upperName " R/B" || Str.includes upperName "ROCKET BODY"
   then "ROCKET BODY"
   else "PAYLOAD") /\
  (forall s : string,
     prop entry "OBJECT_TYPE" = VString s -> Str.trim s <> "" ->
     let u := Str.toUpperCase (Str.trim s) in
     (u = "PAY" \/ u = "PAYLOAD" ->
      Route.entryObjectType entry objectName = "PAYLOAD") /\
     (u = "DEB" \/ u = "DEBRIS" ->
      Route.entryObjectType entry objectName = "DEBRIS") /\
     (u = "R/B" \/ u = "RB" \/ u = "ROCKET BODY" ->
      Route.entryObjectType entry objectName = "ROCKET BODY") /\
     (u <> "PAY" -> u <> "PAYLOAD" -> u <> "DEB" -> u <> "DEBRIS" ->
      u <> "R/B" -> u <> "RB" -> u <> "ROCKET BODY" ->
      Route.entryObjectType entry objectName = u) /\
     (forall (entry' : gmap string Value) (s' : string),
        prop entry' "OBJECT_TYPE" = VString s' ->
        Str.toUpperCase s' = Str.toUpperCase s ->
        Route.entryObjectType entry' objectName =
        Route.entryObjectType entry objectName)).
Proof.
  split.
  - intros Hblank. rewrite (entryObjectType_inferred _ _ Hblank). reflexivity.
  - intros s Hprop Hs u.
    rewrite (entryObjectType_tagged entry objectName s Hprop Hs). fold u.
    split; [intros [-> | ->]; reflexivity |].
    split; [intros [-> | ->]; reflexivity |].
    split; [intros [-> | [-> | ->]]; reflexivity |].
    split.
    + intros H1 H2 H3 H4 H5 H6 H7. unfold canonicalType.
      repeat match goal with
             | |- context [String.eqb u ?t] =>
                 destruct (String.eqb_spec u t); [contradiction |]
             end.
      reflexivity.
    + intros entry' s' Hprop' Hupper.
      assert (Htrim : Str.toUpperCase (Str.trim s') = u).
      { unfold u. rewrite !toUpperCase_trim, Hupper. reflexivity. }
      assert (Hs' : Str.trim s' <> "").
      { intros Hempty. rewrite Hempty in Htrim. apply Hs.
        apply toUpperCase_empty. fold u. rewrite <- Htrim. reflexivity. }
      rewrite (entryObjectType_tagged entry' objectName s' Hprop' Hs'), Htrim.
      reflexivity.
Qed.

Lemma classification_table_and_inference_witness :
  let entry := Sample.object [("OBJECT_TYPE", VString " r/b ")] in
  prop entry "OBJECT_TYPE" = VString " r/b " /\
  Str.trim " r/b " <> "" /\
  Route.entryObjectType entry "SL-8" = "ROCKET BODY".
Proof.
  intros entry.
  assert (Hprop : prop entry "OBJECT_TYPE" = VString " r/b ") by reflexivity.
  assert (Hs : Str.trim " r/b " <> "") by discriminate.
  split; [exact Hprop |]. split; [exact Hs |].
  destruct (classification_table_and_inference entry "SL-8") as [_ Htag].
  destruct (Htag " r/b " Hprop Hs) as (_ & _ & Hrocket & _).
  apply Hrocket. left. reflexivity.
Defined.

(** C8 as stated fails: a name that contains "R/B" (and no "DEB") without a
    space before it is classified PAYLOAD. *)
Lemma inference_needs_space_before_token :
  ~ (forall objectName : string,
       Str.includes (Str.toUpperCase objectName) "DEB" = false ->
       Str.includes (Str.toUpperCase objectName) "R/B" = true ->
       Route.entryObjectType ∅ objectName = "ROCKET BODY").
Proof.
  intros Hclaim.
  specialize (Hclaim "ATLAS-R/B" eq_refl eq_refl).
  vm_compute in Hclaim. discriminate Hclaim.
Qed.

(** ** C1: the identifier is checked first *)

Lemma normalizePayload_app `{Host} `{Propagation}
  (payload : list (gmap string Value)) (records : list Route.CachedOrbitRecord.t) :
  Route.normalizePayload payload records =
  records ++ omap (fun entry => snd (Route.normalizeEntry entry)) payload.
Proof.
  revert records. induction payload as [| entry rest IH]; intros records; simpl.
  - rewrite app_nil_r. reflexivity.
  - destruct (snd (Route.normalizeEntry entry)) as [record |].
    + rewrite IH, <- app_assoc. reflexivity.
    + apply IH.
Qed.

Lemma omap_length_le {A B : Type} (f : A -> option B) (l : list A) :
  (List.length (omap f l) <= List.length l)%nat.
Proof.
  induction l as [| a l IH]; [reflexivity |].
  cbn [omap list_omap]. destruct (f a); cbn [List.length]; lia.
Qed.

(** C1. An iteration reads the identifier before anything else; when the
    identifier is absent or is neither a finite number nor a string that
    [Number] turns into one, the iteration reads nothing else, does not call
    [json2satrec] and pushes nothing; a pushed record carries the finite
    identifier; and the records stored never outnumber the raw records. *)
Theorem identifier_checked_first `{Host} `{Propagation}
  (payload : list (gmap string Value)) :
  (forall entry : gmap string Value,
     Route.toFiniteNumber (prop entry "NORAD_CAT_ID") = None ->
     Route.normalizeEntry entry = ([Route.Read "NORAD_CAT_ID"], None)) /\
  (forall entry : gmap string Value,
     entry !! "NORAD_CAT_ID" = None ->
     Route.normalizeEntry entry = ([Route.Read "NORAD_CAT_ID"], None)) /\
  (forall value : Value,
     Route.toFiniteNumber value = None <->
     ~ ((exists n, value = VNumber n /\ Num.isFinite n = true) \/
        (exists s, value = VString s /\ Num.isFinite (Number s) = true))) /\
  (forall entry : gmap string Value,
     hd_error (fst (Route.normalizeEntry entry)) = Some (Route.Read "NORAD_CAT_ID")) /\
  (forall (entry : gmap string Value) (record : Route.CachedOrbitRecord.t),
     snd (Route.normalizeEntry entry) = Some record ->
     Route.toFiniteNumber (prop entry "NORAD_CAT_ID") =
       Some (Route.CachedOrbitRecord.noradId record) /\
     Num.isFinite (Route.CachedOrbitRecord.noradId record) = true) /\
  (List.length (Route.normalizePayload payload []) <= List.length payload)%nat.
Proof.
  assert (Hskip : forall entry : gmap string Value,
             Route.toFiniteNumber (prop entry "NORAD_CAT_ID") = None ->
             Route.normalizeEntry entry = ([Route.Read "NORAD_CAT_ID"], None)).
  { intros entry Hid. unfold Route.normalizeEntry. rewrite Hid. reflexivity. }
  split; [exact Hskip |].
  split.
  { intros entry Habsent. apply Hskip. unfold prop. rewrite Habsent. reflexivity. }
  split.
  { intros value. split.
    - intros Hnone [(n & -> & Hn) | (s & -> & Hs)]; simpl in Hnone.
      + rewrite Hn in Hnone. discriminate.
      + rewrite Hs in Hnone. discriminate.
    - intros Hnot. destruct value as [| | b | n | s |]; try reflexivity; simpl.
      + destruct (Num.isFinite n) eqn:Hn; [| reflexivity].
        exfalso. apply Hnot. left. exists n. auto.
      + destruct (Num.isFinite (Number s)) eqn:Hs; [| reflexivity].
        exfalso. apply Hnot. right. exists s. auto. }
  split.
  { intros entry. unfold Route.normalizeEntry.
    destruct (Route.toFiniteNumber (prop entry "NORAD_CAT_ID")); reflexivity. }
  split.
  { intros entry record. unfold Route.normalizeEntry.
    destruct (Route.toFiniteNumber (prop entry "NORAD_CAT_ID")) as [noradId |] eqn:Hid;
      [| discriminate].
    simpl. destruct (json2satrec entry); [| discriminate].
    intros [= <-]. simpl. split; [reflexivity |].
    destruct (prop entry "NORAD_CAT_ID"); simpl in Hid; try discriminate.
    - destruct (Num.isFinite n) eqn:Hn; [| discriminate].
      injection Hid as <-. exact Hn.
    - destruct (Num.isFinite (Number s)) eqn:Hs; [| discriminate].
      injection Hid as <-. exact Hs. }
  rewrite normalizePayload_app. simpl. apply omap_length_le.
Qed.

Lemma identifier_checked_first_witness :
  Route.toFiniteNumber (H := Sample.host) (prop Sample.unnumbered "NORAD_CAT_ID") = None /\
  Route.normalizeEntry (H := Sample.host) (H0 := Sample.propagation) Sample.unnumbered
  = ([Route.Read "NORAD_CAT_ID"], None).
Proof.
  assert (Hid : Route.toFiniteNumber (H := Sample.host)
                  (prop Sample.unnumbered "NORAD_CAT_ID") = None) by reflexivity.
  split; [exact Hid |].
  exact (proj1 (@identifier_checked_first Sample.host Sample.propagation
                  [Sample.station; Sample.unnumbered; Sample.fragment])
           Sample.unnumbered Hid).
Defined.

(** ** C3: the prefix processed by [computePositions] *)

Lemma firstStop_bounds (count : number) (fuel index : nat) :
  (index <= firstStop count index fuel <= index + fuel)%nat /\
  (forall i, (index <= i < firstStop count index fuel)%nat ->
             Num.lt (Num.of_nat i) count = true) /\
  (firstStop count index fuel = (index + fuel)%nat \/
   Num.lt (Num.of_nat (firstStop count index fuel)) count = false).
Proof.
  revert index. induction fuel as [| fuel IH]; intros index; cbn [firstStop].
  - split; [lia |]. split; [intros i Hi; lia |]. left. lia.
  - destruct (Num.lt (Num.of_nat index) count) eqn:Hlt.
    + destruct (IH (S index)) as (Hb & Hall & Hstop).
      split; [lia |]. split.
      * intros i Hi. destruct (Nat.eq_dec i index) as [-> | Hne]; [exact Hlt |].
        apply Hall. lia.
      * destruct Hstop as [Heq | Hfalse]; [left; lia | right; exact Hfalse].
    + split; [lia |]. split; [intros i Hi; lia |]. right. exact Hlt.
Qed.

Section Loop.
Context `{Host} `{Propagation}.

(** The loop from [index] on, when it is known where it stops. *)
Lemma positionsLoop_prefix (records : list Route.CachedOrbitRecord.t)
  (gmst nowDate count : number) (n : nat) :
  (n <= List.length records)%nat ->
  (forall i, (i < n)%nat -> Num.lt (Num.of_nat i) count = true) ->
  Num.lt (Num.of_nat n) count = false ->
  forall (index : nat) (satellites : list Route.SatellitePosition.t),
    (index <= n)%nat ->
    Route.positionsLoop records gmst nowDate count index satellites =
    Ok (satellites ++
        omap (Route.positionOf gmst nowDate) (take (n - index) (drop index records))).
Proof.
  intros Hn Hbelow Hstop index satellites.
  funelim (Route.positionsLoop records gmst nowDate count index satellites);
    intros Hindex.
  - assert (index = n) as ->.
    { destruct (Nat.eq_dec index n) as [Hsame | Hne]; [exact Hsame |].
      rewrite Hbelow in Heq by lia. discriminate. }
    rewrite Nat.sub_diag, take_0, app_nil_r. reflexivity.
  - exfalso.
    assert (index <> n) by (intros ->; congruence).
    pose proof (proj1 (lookup_ge_None records index) e). lia.
  - assert (index <> n) by (intros ->; congruence).
    rewrite (H1 records gmst nowDate count n Hn Hbelow Hstop (S index)
               (satellites ++ [satellite]) eq_refl eq_refl) by lia.
    rewrite (drop_S records record index Hrecord).
    replace (n - index)%nat with (S (n - S index)) by lia.
    cbn [take omap list_omap]. rewrite Heq, <- app_assoc. reflexivity.
  - assert (index <> n) by (intros ->; congruence).
    rewrite (H1 records gmst nowDate count n Hn Hbelow Hstop (S index)
               satellites eq_refl eq_refl) by lia.
    rewrite (drop_S records record index Hrecord).
    replace (n - index)%nat with (S (n - S index)) by lia.
    cbn [take omap list_omap]. rewrite Heq. reflexivity.
Qed.

End Loop.

Lemma lt_of_nat (a b : nat) : Num.lt (Num.of_nat a) (Num.of_nat b) = (a <? b)%nat.
Proof.
  unfold Num.lt, Num.of_nat, Num.of_Z.
  destruct (Nat.ltb_spec a b) as [Hlt | Hge].
  - apply Qlt_bool_true. rewrite <- Zlt_Qlt. lia.
  - apply Qlt_bool_false. rewrite <- Zle_Qle. lia.
Qed.

Lemma lt_of_nat_Q (i k : nat) (q : Q) :
  (q == inject_Z (Z.of_nat k))%Q ->
  Num.lt (Num.of_nat i) (Fin q) = (i <? k)%nat /\
  Num.lt (Fin q) (Num.of_nat i) = (k <? i)%nat.
Proof.
  intros Hq. unfold Num.lt, Num.of_nat, Num.of_Z. split.
  - destruct (Nat.ltb_spec i k) as [Hlt | Hge].
    + apply Qlt_bool_true. rewrite Hq, <- Zlt_Qlt. lia.
    + apply Qlt_bool_false. rewrite Hq, <- Zle_Qle. lia.
  - destruct (Nat.ltb_spec k i) as [Hlt | Hge].
    + apply Qlt_bool_true. rewrite Hq, <- Zlt_Qlt. lia.
    + apply Qlt_bool_false. rewrite Hq, <- Zle_Qle. lia.
Qed.

Lemma firstStop_ltb (count : number) (m : nat) :
  (forall i, Num.lt (Num.of_nat i) count = (i <? m)%nat) ->
  forall fuel index, (index <= m <= index + fuel)%nat ->
                     firstStop count index fuel = m.
Proof.
  intros Hlt. induction fuel as [| fuel IH]; intros index Hm; cbn [firstStop].
  - lia.
  - rewrite Hlt. destruct (Nat.ltb_spec index m) as [Hin | Hout].
    + apply IH. lia.
    + lia.
Qed.

Lemma Qlt_bool_asym (a b : Q) : Num.Qlt_bool a b = true -> Num.Qlt_bool b a = false.
Proof.
  intros Hab. apply Qlt_bool_true in Hab. apply Qlt_bool_false. lra.
Qed.

Lemma Qlt_bool_irrefl (a : Q) : Num.Qlt_bool a a = false.
Proof. apply Qlt_bool_false. lra. Qed.

Section Prefix.
Context `{Host} `{Propagation}.

(** The loop never runs past the end of the collection. *)
Lemma requestedCount_stop (records : list Route.CachedOrbitRecord.t)
  (limit : option number) :
  Num.lt (Num.of_nat (List.length records)) (Route.requestedCount records limit) = false.
Proof.
  unfold Route.requestedCount. destruct limit as [[q | | |] |].
  - unfold Num.min, Num.of_nat, Num.of_Z, Num.lt.
    destruct (Num.Qlt_bool q (inject_Z (Z.of_nat (List.length records)))) eqn:Hq.
    + apply Qlt_bool_asym. exact Hq.
    + apply Qlt_bool_irrefl.
  - apply Qlt_bool_irrefl.
  - reflexivity.
  - reflexivity.
  - apply Qlt_bool_irrefl.
Qed.

(** An index below the requested count is below the limit. *)
Lemma requestedCount_below (records : list Route.CachedOrbitRecord.t)
  (limit : number) (i : nat) :
  Num.lt (Num.of_nat i) (Route.requestedCount records (Some limit)) = true ->
  Num.lt (Num.of_nat i) limit = true.
Proof.
  unfold Route.requestedCount, Num.min, Num.of_nat, Num.of_Z, Num.lt.
  destruct limit as [q | | |]; try discriminate; try reflexivity.
  destruct (Num.Qlt_bool q (inject_Z (Z.of_nat (List.length records)))) eqn:Hq;
    [trivial |].
  intros Hi. apply Qlt_bool_true in Hi. apply Qlt_bool_false in Hq.
  apply Qlt_bool_true. lra.
Qed.

(** The number of records that [computePositions] processes. *)
Lemma computePositions_take (records : list Route.CachedOrbitRecord.t)
  (nowDate : number) (limit : option number) :
  Route.computePositions records nowDate limit =
  Ok (omap (Route.positionOf (gstime nowDate) nowDate)
        (take (firstStop (Route.requestedCount records limit) 0 (List.length records))
              records)).
Proof.
  unfold Route.computePositions.
  set (count := Route.requestedCount records limit).
  destruct (firstStop_bounds count (List.length records) 0) as (Hb & Hall & Hstop).
  rewrite (positionsLoop_prefix records (gstime nowDate) nowDate count
             (firstStop count 0 (List.length records))).
  - rewrite Nat.sub_0_r, drop_0. reflexivity.
  - lia.
  - intros i Hi. apply Hall. lia.
  - destruct Hstop as [Hend | Hfalse]; [| exact Hfalse].
    rewrite Hend. apply requestedCount_stop.
  - lia.
Qed.

End Prefix.

(** C3. [computePositions] always returns; without a limit it returns the
    positions of all records in collection order, and with a limit that is
    the integer [k] those of the first [min k length] records, in both cases
    without the records whose step is skipped; a step is skipped exactly
    when propagation gives no state, no position or no velocity, or a
    latitude or longitude that is not finite; whatever the limit, every
    returned position is that of a record of the collection whose index is
    below the limit. *)
Theorem computePositions_processes_prefix `{Host} `{Propagation}
  (records : list Route.CachedOrbitRecord.t) (nowDate : number) :
  Route.computePositions records nowDate None =
    Ok (omap (Route.positionOf (gstime nowDate) nowDate) records) /\
  (forall (k : nat) (q : Q),
     (q == inject_Z (Z.of_nat k))%Q ->
     Route.computePositions records nowDate (Some (Fin q)) =
       Ok (omap (Route.positionOf (gstime nowDate) nowDate)
             (take (Nat.min k (List.length records)) records))) /\
  (forall (gmst : number) (record : Route.CachedOrbitRecord.t),
     Route.positionOf gmst nowDate record = None <->
     match propagate (Route.CachedOrbitRecord.satrec record) nowDate with
     | None => True
     | Some state =>
         match PropagationState.position state, PropagationState.velocity state with
         | Some statePosition, Some _ =>
             let geodetic := eciToGeodetic statePosition gmst in
             Num.isFinite (radiansToDegrees (Geodetic.latitude geodetic)) = false \/
             Num.isFinite
               (Route.normalizeLongitude
                  (radiansToDegrees (Geodetic.longitude geodetic))) = false
         | _, _ => True
         end
     end) /\
  (forall limit : option number,
   exists satellites : list Route.SatellitePosition.t,
     Route.computePositions records nowDate limit = Ok satellites /\
     forall satellite : Route.SatellitePosition.t,
       satellite ∈ satellites ->
       exists (i : nat) (record : Route.CachedOrbitRecord.t),
         records !! i = Some record /\
         Route.positionOf (gstime nowDate) nowDate record = Some satellite /\
         match limit with
         | None => True
         | Some limit => Num.lt (Num.of_nat i) limit = true
         end).
Proof.
  split; [| split; [| split]].
  - rewrite computePositions_take.
    rewrite (firstStop_ltb _ (List.length records)).
    + rewrite firstn_all. reflexivity.
    + intros i. apply lt_of_nat.
    + lia.
  - intros k q Hq. rewrite computePositions_take.
    rewrite (firstStop_ltb _ (Nat.min k (List.length records))).
    + reflexivity.
    + intros i. unfold Route.requestedCount.
      destruct (lt_of_nat_Q (List.length records) k q Hq) as [_ Hlen].
      change (Num.min (Num.of_nat (List.length records)) (Fin q))
        with (if Num.lt (Fin q) (Num.of_nat (List.length records))
              then Fin q else Num.of_nat (List.length records)).
      rewrite Hlen.
      destruct (Nat.ltb_spec k (List.length records)) as [Hk | Hk].
      * destruct (lt_of_nat_Q i k q Hq) as [-> _].
        replace (Nat.min k (List.length records)) with k by lia. reflexivity.
      * rewrite lt_of_nat.
        replace (Nat.min k (List.length records)) with (List.length records) by lia.
        reflexivity.
    + lia.
  - intros gmst record. unfold Route.positionOf.
    destruct (propagate _ _) as [state |]; [| tauto].
    destruct (PropagationState.position state) as [statePosition |]; [| tauto].
    destruct (PropagationState.velocity state); [| tauto].
    cbv zeta.
    destruct (Num.isFinite (radiansToDegrees _)),
             (Num.isFinite (Route.normalizeLongitude _)); simpl;
      split; intros Hskip; try reflexivity; try discriminate; auto;
      destruct Hskip; discriminate.
  - intros limit. eexists. split; [apply computePositions_take |].
    intros satellite Hin.
    apply list_elem_of_omap in Hin. destruct Hin as (record & Hrecord & Hstep).
    apply list_elem_of_lookup in Hrecord. destruct Hrecord as (i & Hi).
    apply lookup_take_Some in Hi. destruct Hi as [Hi Hbound].
    exists i, record. split; [exact Hi |]. split; [exact Hstep |].
    destruct limit as [limit |]; [| exact I].
    apply (requestedCount_below records).
    destruct (firstStop_bounds (Route.requestedCount records (Some limit))
                (List.length records) 0) as (_ & Hall & _).
    apply Hall. lia.
Qed.

Lemma computePositions_processes_prefix_witness :
  let records :=
    Route.normalizePayload (H := Sample.host) (H0 := Sample.propagation)
      [Sample.station; Sample.unnumbered; Sample.fragment] [] in
  (1 == inject_Z (Z.of_nat 1))%Q /\
  Route.computePositions (H := Sample.host) (H0 := Sample.propagation)
    records (Fin 0) (Some (Fin 1)) =
  Ok (omap (Route.positionOf (H := Sample.host) (H0 := Sample.propagation)
              (gstime (Propagation := Sample.propagation) (Fin 0)) (Fin 0))
        (take (Nat.min 1 (List.length records)) records)).
Proof.
  intros records.
  assert (Hq : (1 == inject_Z (Z.of_nat 1))%Q) by reflexivity.
  split; [exact Hq |].
  exact (proj1 (proj2 (@computePositions_processes_prefix Sample.host
                         Sample.propagation records (Fin 0))) 1%nat 1%Q Hq).
Defined.

(** ** C4: the limit parameter *)

Lemma Qfloor_unit (q : Q) : (0 < q < 1)%Q -> Qfloor q = 0%Z.
Proof.
  intros [Hlo Hhi].
  pose proof (Qfloor_le q) as Hle. pose proof (Qlt_floor q) as Hlt.
  assert (H1 : (inject_Z (Qfloor q) < inject_Z 1)%Q) by (change (inject_Z 1) with 1%Q; lra).
  assert (H2 : (inject_Z (-1) < inject_Z (Qfloor q))%Q).
  { rewrite inject_Z_plus in Hlt. change (inject_Z 1) with 1%Q in Hlt.
    change (inject_Z (-1)) with (-1)%Q. lra. }
  rewrite <- Zlt_Qlt in H1, H2. lia.
Qed.

(** C4, on the code. [parseLimit] always returns, and returns null or a
    non-negative integer; it returns null for an absent or empty parameter
    and for one that [Number] does not turn into a finite positive number;
    but for a parameter whose number lies strictly between 0 and 1 it
    returns 0, which is neither null nor positive. *)
Theorem parseLimit_admits_zero `{Host} :
  (forall limitParam : option string,
     Route.parseLimit limitParam = None \/
     exists z : Z, (0 <= z)%Z /\ Route.parseLimit limitParam = Some (Num.of_Z z)) /\
  Route.parseLimit None = None /\
  (forall s : string,
     (s = "" \/ Num.isFinite (Number s) = false \/ Num.le (Number s) (Fin 0) = true) ->
     Route.parseLimit (Some s) = None) /\
  (forall (s : string) (q : Q),
     s <> "" -> Number s = Fin q -> (0 < q < 1)%Q ->
     Route.parseLimit (Some s) = Some (Fin 0)).
Proof.
  split; [| split; [reflexivity | split]].
  - intros [s |]; [| left; reflexivity]. unfold Route.parseLimit.
    destruct (negb (Str.truthy s)); [left; reflexivity |].
    destruct (Number s) as [q | | |] eqn:Hnum; simpl; try (left; reflexivity).
    unfold Num.Qlt_bool. rewrite negb_involutive.
    destruct (Qle_bool q 0) eqn:Hle.
    + left. destruct (Qle_bool 0 q); reflexivity.
    + right. exists (Qfloor q). split; [| reflexivity].
      assert (Hpos : (0 <= q)%Q).
      { destruct (Qlt_le_dec q 0) as [Hneg | Hge]; [| exact Hge].
        apply Qlt_le_weak, Qle_bool_iff in Hneg. congruence. }
      apply (Qfloor_resp_le 0 q Hpos).
  - intros s [-> | [Hnum | Hle]]; [reflexivity | |]; unfold Route.parseLimit;
      destruct (negb (Str.truthy s)); try reflexivity.
    + rewrite Hnum. reflexivity.
    + rewrite Hle, orb_true_r. reflexivity.
  - intros s q Hs Hnum [Hlo Hhi]. unfold Route.parseLimit.
    destruct s as [| c rest]; [contradiction |]. simpl (negb _). cbv iota.
    rewrite Hnum. simpl.
    unfold Num.Qlt_bool. rewrite negb_involutive.
    replace (Qle_bool q 0) with false.
    + rewrite (Qfloor_unit q (conj Hlo Hhi)). reflexivity.
    + symmetry. apply not_true_is_false. intros Hle.
      apply Qle_bool_iff in Hle. lra.
Qed.

Lemma parseLimit_admits_zero_witness :
  "0.5" <> "" /\ Number (Host := Sample.host) "0.5" = Fin (1 # 2) /\
  (0 < 1 # 2 < 1)%Q /\
  Route.parseLimit (H := Sample.host) (Some "0.5") = Some (Fin 0).
Proof.
  assert (Hs : "0.5" <> "") by discriminate.
  assert (Hnum : Number (Host := Sample.host) "0.5" = Fin (1 # 2)) by reflexivity.
  assert (Hq : (0 < 1 # 2 < 1)%Q) by (split; reflexivity).
  split; [exact Hs |]. split; [exact Hnum |]. split; [exact Hq |].
  exact (proj2 (proj2 (proj2 (@parseLimit_admits_zero Sample.host)))
           "0.5" (1 # 2) Hs Hnum Hq).
Defined.

(** ** The handler, path by path *)

Section Paths.
Context `{Host} `{Propagation}.

Lemma computePositions_returns (records : list Route.CachedOrbitRecord.t)
  (nowDate : number) (limit : option number) :
  exists satellites, Route.computePositions records nowDate limit = Ok satellites.
Proof. eexists. apply computePositions_take. Qed.

Lemma loadOrbitSet_hit (world : Route.Ambient.t) (group : string)
  (server : Route.Server.t) (value : Route.CachedOrbitSet.t) :
  Route.unexpired (Route.Ambient.loaderNow world)
    (Route.Server.orbitCache server !! group) = Some value ->
  Route.loadOrbitSet world group server = (server, Ok value).
Proof.
  intros Hhit. unfold Route.loadOrbitSet, Route.bind, Route.getOrbitCache.
  rewrite Hhit. reflexivity.
Qed.

Lemma loadOrbitSet_miss (world : Route.Ambient.t) (group : string)
  (server : Route.Server.t) :
  Route.unexpired (Route.Ambient.loaderNow world)
    (Route.Server.orbitCache server !! group) = None ->
  Route.loadOrbitSet world group server =
  match Route.Ambient.network world (Route.buildGroupFeedUrl group) with
  | Route.Fails e => (fetching group server, Throw e)
  | Route.Responds latencyMs response =>
      if (Route.REQUEST_TIMEOUT_MS <=? latencyMs)%Z
      then (fetching group server, Throw (ErrorObj abortMessage))
      else if negb (Route.Upstream.ok response)
      then (fetching group server,
            Throw (ErrorObj ("CelesTrak orbit request failed ("
                             +:+ ToString (Num.of_Z (Route.Upstream.status response))
                             +:+ ")")))
      else
        match Route.Upstream.json response with
        | Route.Unreadable e => (fetching group server, Throw e)
        | Route.Records payload =>
            let value :=
              {| Route.CachedOrbitSet.fetchedAt :=
                   toISOString (Route.Ambient.fetchedClock world);
                 Route.CachedOrbitSet.records := Route.normalizePayload payload [];
                 Route.CachedOrbitSet.source := Route.buildGroupFeedUrl group |} in
            ({| Route.Server.orbitCache :=
                  <[group := ((Route.Ambient.loaderNow world + Route.ORBIT_CACHE_TTL_MS)%Z,
                              value)]> (Route.Server.orbitCache server);
                Route.Server.positionCache := Route.Server.positionCache server;
                Route.Server.journal :=
                  Route.Server.journal server
                  ++ [Route.Fetched (Route.buildGroupFeedUrl group)] |},
             Ok value)
        end
  end.
Proof.
  intros Hmiss.
  unfold Route.loadOrbitSet, Route.bind, Route.getOrbitCache. rewrite Hmiss.
  unfold Route.fetchWithTimeout, Route.bind, fetching. cbn [Route.record fst].
  destruct (Route.Ambient.network world (Route.buildGroupFeedUrl group))
    as [latencyMs response | e]; [| reflexivity].
  destruct (Route.REQUEST_TIMEOUT_MS <=? latencyMs)%Z; [reflexivity |].
  cbn [Route.ret]. destruct (negb (Route.Upstream.ok response)); [reflexivity |].
  unfold Route.readJson. destruct (Route.Upstream.json response); reflexivity.
Qed.

Lemma GET_hit (world : Route.Ambient.t) (request : Route.Request.t)
  (server : Route.Server.t) (value : Route.Snapshot.t) :
  Route.unexpired (Route.Ambient.handlerNow world)
    (Route.Server.positionCache server !! keyOf request) = Some value ->
  Route.GET world request server = (server, Route.success value).
Proof.
  intros Hhit. unfold Route.GET, Route.GET_try, Route.bind, Route.getPositionCache.
  fold (keyOf request). rewrite Hhit. reflexivity.
Qed.

Lemma GET_miss (world : Route.Ambient.t) (request : Route.Request.t)
  (server : Route.Server.t) :
  Route.unexpired (Route.Ambient.handlerNow world)
    (Route.Server.positionCache server !! keyOf request) = None ->
  Route.GET world request server =
  match Route.loadOrbitSet world (Route.selectGroup request) server with
  | (server1, Throw e) => (server1, Route.GET_catch e)
  | (server1, Ok orbitSet) =>
      match Route.computePositions (Route.CachedOrbitSet.records orbitSet)
              (Date_ofString (toISOString (Route.Ambient.computedClock world)))
              (Route.parseLimit (Route.Request.limit request)) with
      | Ok satellites =>
          let value := snapshotOf world request orbitSet satellites in
          (storing world request value server1, Route.success value)
      | Throw e => (fst (Route.record Route.Computed server1), Route.GET_catch e)
      end
  end.
Proof.
  intros Hmiss. unfold Route.GET, Route.GET_try, Route.bind, Route.getPositionCache.
  fold (keyOf request). rewrite Hmiss.
  destruct (Route.loadOrbitSet world (Route.selectGroup request) server)
    as [server1 [orbitSet | e]]; [| reflexivity].
  cbn [Route.record Route.lift fst].
  destruct (Route.computePositions _ _ _) as [satellites | e]; reflexivity.
Qed.

End Paths.

(** ** What the caches hold *)

Section Soundness.
Context `{Host} `{Propagation}.

Lemma unexpired_Some {A : Type} (now : Z) (cached : option (Z * A)) (value : A) :
  Route.unexpired now cached = Some value <->
  exists expiresAt : Z, cached = Some (expiresAt, value) /\ (now < expiresAt)%Z.
Proof.
  unfold Route.unexpired. split.
  - destruct cached as [[expiresAt stored] |]; [| discriminate].
    destruct (Z.ltb_spec now expiresAt); [| discriminate].
    intros [= ->]. exists expiresAt. auto.
  - intros (expiresAt & -> & Hlt).
    destruct (Z.ltb_spec now expiresAt); [reflexivity | lia].
Qed.

Lemma unexpired_None {A : Type} (now : Z) (cached : option (Z * A)) :
  Route.unexpired now cached = None <->
  cached = None \/
  exists (expiresAt : Z) (value : A),
    cached = Some (expiresAt, value) /\ (expiresAt <= now)%Z.
Proof.
  unfold Route.unexpired. split.
  - destruct cached as [[expiresAt stored] |]; [| auto].
    destruct (Z.ltb_spec now expiresAt); [discriminate |].
    intros _. right. eauto.
  - intros [-> | (expiresAt & value & -> & Hle)]; [reflexivity |].
    destruct (Z.ltb_spec now expiresAt); [lia | reflexivity].
Qed.

Lemma normalizeEntry_objectType (entry : gmap string Value)
  (record : Route.CachedOrbitRecord.t) :
  snd (Route.normalizeEntry entry) = Some record ->
  Route.CachedOrbitRecord.objectType record =
  Some (Route.entryObjectType entry (Route.CachedOrbitRecord.objectName record)).
Proof.
  unfold Route.normalizeEntry.
  destruct (Route.toFiniteNumber (prop entry "NORAD_CAT_ID")); [| discriminate].
  simpl. destruct (json2satrec entry); [| discriminate].
  intros [= <-]. reflexivity.
Qed.

Lemma normalizePayload_classified (payload : list (gmap string Value)) :
  Forall (fun record => Route.CachedOrbitRecord.objectType record <> None)
         (Route.normalizePayload payload []).
Proof.
  rewrite normalizePayload_app. simpl. apply Forall_forall.
  intros record Hin. apply list_elem_of_omap in Hin.
  destruct Hin as (entry & _ & Hentry).
  rewrite (normalizeEntry_objectType entry record Hentry). discriminate.
Qed.

Lemma positionOf_objectType (gmst nowDate : number)
  (record : Route.CachedOrbitRecord.t) (satellite : Route.SatellitePosition.t) :
  Route.positionOf gmst nowDate record = Some satellite ->
  Route.SatellitePosition.objectType satellite =
    Route.CachedOrbitRecord.objectType record /\
  Route.SatellitePosition.noradId satellite =
    Route.CachedOrbitRecord.noradId record.
Proof.
  unfold Route.positionOf.
  destruct (propagate _ _) as [state |]; [| discriminate].
  destruct (PropagationState.position state); [| discriminate].
  destruct (PropagationState.velocity state); [| discriminate].
  destruct (negb _ || negb _); [discriminate |].
  intros [= <-]. split; reflexivity.
Qed.

Lemma computePositions_classified (records : list Route.CachedOrbitRecord.t)
  (nowDate : number) (limit : option number)
  (satellites : list Route.SatellitePosition.t) :
  Forall (fun record => Route.CachedOrbitRecord.objectType record <> None) records ->
  Route.computePositions records nowDate limit = Ok satellites ->
  Forall (fun satellite => Route.SatellitePosition.objectType satellite <> None)
         satellites.
Proof.
  intros Hrecords. rewrite computePositions_take. intros [= <-].
  apply Forall_forall. intros satellite Hin.
  apply list_elem_of_omap in Hin. destruct Hin as (record & Hrecord & Hstep).
  apply positionOf_objectType in Hstep. destruct Hstep as [-> _].
  rewrite Forall_forall in Hrecords. apply Hrecords.
  apply list_elem_of_lookup in Hrecord. destruct Hrecord as (i & Hi).
  apply lookup_take_Some in Hi. destruct Hi as [Hi _].
  apply list_elem_of_lookup. eauto.
Qed.

Lemma loadOrbitSet_sound (world : Route.Ambient.t) (group : string)
  (server : Route.Server.t) :
  sound server ->
  sound (fst (Route.loadOrbitSet world group server)) /\
  forall value, snd (Route.loadOrbitSet world group server) = Ok value ->
                classified value.
Proof.
  intros [Hpositions Horbits].
  destruct (Route.unexpired (Route.Ambient.loaderNow world)
              (Route.Server.orbitCache server !! group)) as [cached |] eqn:Hcache.
  - rewrite (loadOrbitSet_hit world group server cached Hcache). simpl.
    split; [split; assumption |].
    intros value [= <-]. apply unexpired_Some in Hcache.
    destruct Hcache as (expiresAt & Hlookup & _). eapply Horbits. exact Hlookup.
  - rewrite (loadOrbitSet_miss world group server Hcache).
    assert (Hfetching : sound (fetching group server)) by (split; assumption).
    destruct (Route.Ambient.network world (Route.buildGroupFeedUrl group))
      as [latencyMs response | e]; [| split; [exact Hfetching | discriminate]].
    destruct (Route.REQUEST_TIMEOUT_MS <=? latencyMs)%Z;
      [split; [exact Hfetching | discriminate] |].
    destruct (negb (Route.Upstream.ok response));
      [split; [exact Hfetching | discriminate] |].
    destruct (Route.Upstream.json response) as [payload | e];
      [| split; [exact Hfetching | discriminate]].
    cbn [fst snd]. split.
    + split; [exact Hpositions |]. cbn [Route.Server.orbitCache].
      intros key expiresAt value Hlookup.
      apply lookup_insert_Some in Hlookup.
      destruct Hlookup as [[_ [= _ <-]] | [_ Hold]].
      * apply normalizePayload_classified.
      * eapply Horbits. exact Hold.
    + intros value [= <-]. apply normalizePayload_classified.
Qed.

Lemma GET_sound (world : Route.Ambient.t) (request : Route.Request.t)
  (server : Route.Server.t) :
  sound server ->
  sound (fst (Route.GET world request server)) /\
  wellFormed (snd (Route.GET world request server)).
Proof.
  intros Hsound.
  assert (Hcatch : forall e, wellFormed (Route.GET_catch e)).
  { intros e. left. split; [reflexivity |]. eexists. reflexivity. }
  destruct (Route.unexpired (Route.Ambient.handlerNow world)
              (Route.Server.positionCache server !! keyOf request))
    as [cached |] eqn:Hcache.
  - rewrite (GET_hit world request server cached Hcache). simpl.
    split; [exact Hsound |]. right. split; [reflexivity |].
    exists cached. split; [reflexivity |].
    apply unexpired_Some in Hcache. destruct Hcache as (expiresAt & Hlookup & _).
    destruct Hsound as [Hpositions _]. eapply Hpositions. exact Hlookup.
  - rewrite (GET_miss world request server Hcache).
    destruct (loadOrbitSet_sound world (Route.selectGroup request) server Hsound)
      as [Hloaded Hvalue].
    destruct (Route.loadOrbitSet world (Route.selectGroup request) server)
      as [server1 [orbitSet | e]]; cbn [fst snd] in *;
      [| split; [exact Hloaded | apply Hcatch]].
    specialize (Hvalue orbitSet eq_refl).
    destruct (Route.computePositions _ _ _) as [satellites | e] eqn:Hcompute;
      cbn [fst snd].
    + assert (Hcomplete : complete (snapshotOf world request orbitSet satellites)).
      { split; [reflexivity |]. cbn [snapshotOf Route.Snapshot.satellites].
        eapply computePositions_classified; [exact Hvalue | exact Hcompute]. }
      split.
      * destruct Hloaded as [Hpositions Horbits]. split; [| exact Horbits].
        cbn [storing Route.Server.positionCache].
        intros key expiresAt value Hlookup.
        apply lookup_insert_Some in Hlookup.
        destruct Hlookup as [[_ [= _ <-]] | [_ Hold]]; [exact Hcomplete |].
        eapply Hpositions. exact Hold.
      * right. split; [reflexivity |]. eexists. split; [reflexivity | exact Hcomplete].
    + split; [| apply Hcatch]. destruct Hloaded as [Hpositions Horbits].
      split; assumption.
Qed.

Lemma reachable_sound (server : Route.Server.t) : reachable server -> sound server.
Proof.
  induction 1 as [| world request server _ IH].
  - split; intros key expiresAt value Hlookup; simpl in Hlookup;
      rewrite lookup_empty in Hlookup; discriminate.
  - apply GET_sound. exact IH.
Qed.

End Soundness.

(** ** C5: the position cache *)

(** C5. The key of the position cache is the group, a colon and the limit,
    "all" standing for no limit, and the position TTL is 5000 ms.  When the
    cache holds an entry for the key that expires strictly after the
    handler's reading of the clock, the handler answers with the stored
    value and leaves the server as it was, journal included: nothing is
    fetched or computed.  When it holds none or one that has expired, and
    the orbit set is obtained, the handler computes the positions at the
    instant of its time stamp, stores the new snapshot under the key with
    expiry [now + 5000] and answers with it. *)
Theorem position_cache_hit_or_refresh `{Host} `{Propagation}
  (world : Route.Ambient.t) (request : Route.Request.t) (server : Route.Server.t) :
  let group := Route.selectGroup request in
  let limit := Route.parseLimit (Route.Request.limit request) in
  let now := Route.Ambient.handlerNow world in
  keyOf request =
    group +:+ ":" +:+ match limit with Some limit => ToString limit | None => "all" end /\
  Route.POSITION_CACHE_TTL_MS = 5000%Z /\
  (forall (expiresAt : Z) (value : Route.Snapshot.t),
     Route.Server.positionCache server !! keyOf request = Some (expiresAt, value) ->
     (now < expiresAt)%Z ->
     Route.GET world request server = (server, Route.success value)) /\
  (Route.Server.positionCache server !! keyOf request = None \/
   (exists (expiresAt : Z) (value : Route.Snapshot.t),
      Route.Server.positionCache server !! keyOf request = Some (expiresAt, value) /\
      (expiresAt <= now)%Z) ->
   forall (server1 : Route.Server.t) (orbitSet : Route.CachedOrbitSet.t),
     Route.loadOrbitSet world group server = (server1, Ok orbitSet) ->
     exists satellites : list Route.SatellitePosition.t,
       Route.computePositions (Route.CachedOrbitSet.records orbitSet)
         (Date_ofString (toISOString (Route.Ambient.computedClock world))) limit
       = Ok satellites /\
       Route.GET world request server =
         (storing world request (snapshotOf world request orbitSet satellites) server1,
          Route.success (snapshotOf world request orbitSet satellites)) /\
       Route.Server.positionCache (fst (Route.GET world request server)) !! keyOf request
       = Some ((now + 5000)%Z, snapshotOf world request orbitSet satellites) /\
       Route.Server.journal (fst (Route.GET world request server))
       = Route.Server.journal server1 ++ [Route.Computed]).
Proof.
  intros group limit now.
  split; [reflexivity |]. split; [reflexivity |]. split.
  - intros expiresAt value Hlookup Hfresh. apply GET_hit.
    apply unexpired_Some. exists expiresAt. auto.
  - intros Hstale server1 orbitSet Hload.
    apply unexpired_None in Hstale.
    rewrite (GET_miss world request server Hstale).
    fold group. rewrite Hload. fold limit.
    destruct (computePositions_returns (Route.CachedOrbitSet.records orbitSet)
                (Date_ofString (toISOString (Route.Ambient.computedClock world)))
                limit) as [satellites Hcompute].
    exists satellites. rewrite Hcompute. cbn [fst].
    split; [reflexivity |]. split; [reflexivity |]. split; [| reflexivity].
    cbn [storing Route.Server.positionCache]. apply lookup_insert_eq.
Qed.

(** ** C6: failures and successes at the boundary *)

(** C6. From any state that the server can be in, the response is either the
    error envelope with status 502 or, with status 200, a snapshot whose
    count is the number of its positions.  When neither cache can serve the
    request and the upstream takes longer than the time-out, answers with a
    non-success status, fails at the network, or sends a body that cannot be
    read, the response is the error envelope carrying the message of the
    error, and both caches are left as they were. *)
Theorem failures_give_error_envelope `{Host} `{Propagation}
  (world : Route.Ambient.t) (request : Route.Request.t) (server : Route.Server.t) :
  let group := Route.selectGroup request in
  let url := Route.buildGroupFeedUrl group in
  (reachable server -> wellFormed (snd (Route.GET world request server))) /\
  (forall e : Thrown,
     Route.Response.status (Route.GET_catch e) = 502%Z /\
     Route.Response.body (Route.GET_catch e) =
       Route.ErrorBody
         ("Unable to fetch live satellite positions: " +:+
          match e with
          | ErrorObj message => message
          | NotAnError => "Unknown failure while computing satellite positions"
          end)) /\
  (Route.Server.orbitCache (fetching group server) = Route.Server.orbitCache server /\
   Route.Server.positionCache (fetching group server) = Route.Server.positionCache server /\
   Route.Server.journal (fetching group server) =
     Route.Server.journal server ++ [Route.Fetched url]) /\
  (Route.unexpired (Route.Ambient.handlerNow world)
     (Route.Server.positionCache server !! keyOf request) = None ->
   Route.unexpired (Route.Ambient.loaderNow world)
     (Route.Server.orbitCache server !! group) = None ->
   (forall (latencyMs : Z) (response : Route.Upstream.t),
      Route.Ambient.network world url = Route.Responds latencyMs response ->
      (Route.REQUEST_TIMEOUT_MS < latencyMs)%Z ->
      Route.GET world request server =
      (fetching group server, Route.GET_catch (ErrorObj abortMessage))) /\
   (forall (latencyMs : Z) (response : Route.Upstream.t),
      Route.Ambient.network world url = Route.Responds latencyMs response ->
      (latencyMs < Route.REQUEST_TIMEOUT_MS)%Z ->
      Route.Upstream.ok response = false ->
      Route.GET world request server =
      (fetching group server,
       Route.GET_catch
         (ErrorObj ("CelesTrak orbit request failed ("
                    +:+ ToString (Num.of_Z (Route.Upstream.status response))
                    +:+ ")")))) /\
   (forall e : Thrown,
      Route.Ambient.network world url = Route.Fails e ->
      Route.GET world request server = (fetching group server, Route.GET_catch e)) /\
   (forall (latencyMs : Z) (response : Route.Upstream.t) (e : Thrown),
      Route.Ambient.network world url = Route.Responds latencyMs response ->
      (latencyMs < Route.REQUEST_TIMEOUT_MS)%Z ->
      Route.Upstream.ok response = true ->
      Route.Upstream.json response = Route.Unreadable e ->
      Route.GET world request server = (fetching group server, Route.GET_catch e))).
Proof.
  intros group url.
  split.
  { intros Hreachable. apply GET_sound, reachable_sound, Hreachable. }
  split.
  { intros e. split; reflexivity. }
  split.
  { repeat split. }
  intros Hpositions Horbits.
  pose proof (GET_miss world request server Hpositions) as Hget.
  fold group in Hget.
  rewrite (loadOrbitSet_miss world group server Horbits) in Hget. fold url in Hget.
  repeat split.
  - intros latencyMs response Hnet Hlate. rewrite Hnet in Hget.
    destruct (Z.leb_spec Route.REQUEST_TIMEOUT_MS latencyMs); [exact Hget | lia].
  - intros latencyMs response Hnet Hearly Hok. rewrite Hnet, Hok in Hget.
    destruct (Z.leb_spec Route.REQUEST_TIMEOUT_MS latencyMs); [lia | exact Hget].
  - intros e Hnet. rewrite Hnet in Hget. exact Hget.
  - intros latencyMs response e Hnet Hearly Hok Hjson.
    rewrite Hnet, Hok, Hjson in Hget.
    destruct (Z.leb_spec Route.REQUEST_TIMEOUT_MS latencyMs); [lia | exact Hget].
Qed.

(** ** C10: no null classification is served *)

(** C10. A record pushed by the normaliser carries a classification, one of
    PAYLOAD, DEBRIS and ROCKET BODY when the raw tag is absent, not a string
    or blank; in every state that the server can be in, every record of the
    element-set cache carries a classification, and so does every position
    of a snapshot that the handler answers with. *)
Theorem classification_never_null `{Host} `{Propagation} :
  (forall (entry : gmap string Value) (record : Route.CachedOrbitRecord.t),
     snd (Route.normalizeEntry entry) = Some record ->
     exists objectType : string,
       Route.CachedOrbitRecord.objectType record = Some objectType /\
       ((forall s, prop entry "OBJECT_TYPE" = VString s -> Str.trim s = "") ->
        objectType = "PAYLOAD" \/ objectType = "DEBRIS" \/ objectType = "ROCKET BODY")) /\
  (forall server : Route.Server.t,
     reachable server ->
     (forall (group : string) (expiresAt : Z) (value : Route.CachedOrbitSet.t)
             (record : Route.CachedOrbitRecord.t),
        Route.Server.orbitCache server !! group = Some (expiresAt, value) ->
        record ∈ Route.CachedOrbitSet.records value ->
        Route.CachedOrbitRecord.objectType record <> None) /\
     (forall (world : Route.Ambient.t) (request : Route.Request.t)
             (value : Route.Snapshot.t) (satellite : Route.SatellitePosition.t),
        Route.Response.body (snd (Route.GET world request server)) =
          Route.SnapshotBody value ->
        satellite ∈ Route.Snapshot.satellites value ->
        Route.SatellitePosition.objectType satellite <> None)).
Proof.
  split.
  - intros entry record Hentry. eexists.
    split; [apply normalizeEntry_objectType; exact Hentry |].
    intros Hblank. rewrite (entryObjectType_inferred _ _ Hblank).
    unfold Route.inferObjectTypeFromName.
    destruct (_ || _); [auto |]. destruct (_ || _); auto.
  - intros server Hreachable. apply reachable_sound in Hreachable. split.
    + intros group expiresAt value record Hlookup Hin.
      destruct Hreachable as [_ Horbits].
      specialize (Horbits group expiresAt value Hlookup).
      unfold classified in Horbits. rewrite Forall_forall in Horbits.
      apply Horbits. exact Hin.
    + intros world request value satellite Hbody Hin.
      destruct (GET_sound world request server Hreachable) as [_ Hresponse].
      destruct Hresponse as [[_ (cause & Herror)] | [_ (served & Hserved & Hcomplete)]].
      * rewrite Herror in Hbody. discriminate.
      * rewrite Hserved in Hbody. injection Hbody as <-.
        destruct Hcomplete as [_ Hall]. rewrite Forall_forall in Hall.
        apply Hall. exact Hin.
Qed.

Lemma position_cache_hit_or_refresh_witness :
  let request := Sample.request (Some "Stations") None in
  let warm :=
    fst (Route.GET (H := Sample.host) (H0 := Sample.propagation)
           (Sample.world 1000 (Sample.upstream 150 200)) request Route.initial) in
  exists value : Route.Snapshot.t,
    Route.Server.positionCache warm !! keyOf (H := Sample.host) request
    = Some (6000%Z, value) /\
    (3000 < 6000)%Z /\
    Route.GET (H := Sample.host) (H0 := Sample.propagation)
      (Sample.world 3000 (Sample.upstream 150 200)) request warm
    = (warm, Route.success value).
Proof.
  intros request warm.
  assert (Hlookup : exists value : Route.Snapshot.t,
             Route.Server.positionCache warm !! keyOf (H := Sample.host) request
             = Some (6000%Z, value)).
  { eexists. vm_compute. reflexivity. }
  destruct Hlookup as [value Hlookup].
  assert (Hfresh : (3000 < 6000)%Z) by reflexivity.
  exists value. split; [exact Hlookup |]. split; [exact Hfresh |].
  exact (proj1 (proj2 (proj2
           (@position_cache_hit_or_refresh Sample.host Sample.propagation
              (Sample.world 3000 (Sample.upstream 150 200)) request warm)))
           6000%Z value Hlookup Hfresh).
Defined.

Lemma failures_give_error_envelope_witness :
  let request := Sample.request (Some "starlink") (Some "5") in
  let world := Sample.world 1000 (Sample.upstream 30000 200) in
  (Route.REQUEST_TIMEOUT_MS < 30000)%Z /\
  Route.GET (H := Sample.host) (H0 := Sample.propagation) world request Route.initial
  = (fetching (H0 := Sample.propagation) "starlink" Route.initial,
     Route.GET_catch (ErrorObj (abortMessage (Host := Sample.host)))).
Proof.
  intros request world.
  assert (Hlate : (Route.REQUEST_TIMEOUT_MS < 30000)%Z) by reflexivity.
  split; [exact Hlate |].
  destruct (@failures_give_error_envelope Sample.host Sample.propagation
              world request Route.initial) as (_ & _ & _ & Hfail).
  destruct (Hfail eq_refl eq_refl) as (Htimeout & _).
  exact (Htimeout 30000%Z _ eq_refl Hlate).
Defined.

Lemma classification_never_null_witness :
  exists (record : Route.CachedOrbitRecord.t (H := Sample.propagation))
         (objectType : string),
    snd (Route.normalizeEntry (H := Sample.host) (H0 := Sample.propagation)
           Sample.fragment) = Some record /\
    (forall s, prop Sample.fragment "OBJECT_TYPE" = VString s -> Str.trim s = "") /\
    Route.CachedOrbitRecord.objectType record = Some objectType /\
    (objectType = "PAYLOAD" \/ objectType = "DEBRIS" \/ objectType = "ROCKET BODY").
Proof.
  assert (Hpushed : exists record : Route.CachedOrbitRecord.t (H := Sample.propagation),
             snd (Route.normalizeEntry (H := Sample.host) (H0 := Sample.propagation)
           Sample.fragment) = Some record).
  { eexists. reflexivity. }
  destruct Hpushed as [record Hpushed].
  assert (Hblank : forall s, prop Sample.fragment "OBJECT_TYPE" = VString s ->
                             Str.trim s = "").
  { intros s Hs. vm_compute in Hs. discriminate Hs. }
  destruct (proj1 (@classification_never_null Sample.host Sample.propagation)
              Sample.fragment record Hpushed) as (objectType & Htype & Hthree).
  exists record, objectType.
  split; [exact Hpushed |]. split; [exact Hblank |]. split; [exact Htype |].
  exact (Hthree Hblank).
Defined.

(** ** Maps keyed by numbers *)

Lemma same_refl (a : number) : Num.same a a = true.
Proof. destruct a; simpl; try reflexivity. apply Qeq_bool_iff. reflexivity. Qed.

Lemma same_sym (a b : number) : Num.same a b = Num.same b a.
Proof.
  destruct a as [p | | |], b as [q | | |]; simpl; try reflexivity.
  destruct (Qeq_bool p q) eqn:Hpq, (Qeq_bool q p) eqn:Hqp; try reflexivity.
  - apply Qeq_bool_iff in Hpq. symmetry in Hpq. apply Qeq_bool_iff in Hpq. congruence.
  - apply Qeq_bool_iff in Hqp. symmetry in Hqp. apply Qeq_bool_iff in Hqp. congruence.
Qed.

Lemma same_trans (a b c : number) :
  Num.same a b = true -> Num.same b c = true -> Num.same a c = true.
Proof.
  destruct a as [p | | |], b as [q | | |], c as [r | | |]; simpl;
    try discriminate; try reflexivity.
  intros Hpq Hqr. apply Qeq_bool_iff in Hpq, Hqr. apply Qeq_bool_iff.
  rewrite Hpq. exact Hqr.
Qed.

(** A key that is the same number as another is the same to every key. *)
Lemma same_congruent (a b c : number) :
  Num.same a b = true -> Num.same c a = Num.same c b.
Proof.
  intros Hab. destruct (Num.same c a) eqn:Hca, (Num.same c b) eqn:Hcb;
    try reflexivity.
  - rewrite (same_trans c a b Hca Hab) in Hcb. discriminate.
  - rewrite same_sym in Hab. rewrite (same_trans c b a Hcb Hab) in Hca. discriminate.
Qed.

Section NumMapFacts.
Context {V : Type}.
Implicit Types (m : list (number * V)) (key : number) (value : V).

Lemma get_same m key key' :
  Num.same key key' = true -> NumMap.get m key = NumMap.get m key'.
Proof.
  intros Hsame. induction m as [| [k v] rest IH]; [reflexivity |].
  simpl. rewrite (same_congruent key key' k Hsame), IH. reflexivity.
Qed.

Lemma get_None_fresh m key :
  NumMap.get m key = None <-> fresh key (NumMap.keys m) = true.
Proof.
  induction m as [| [k v] rest IH]; simpl; [tauto |].
  destruct (Num.same k key); simpl; [split; discriminate | exact IH].
Qed.

Lemma get_set m key value key' :
  NumMap.get (NumMap.set m key value) key' =
  if Num.same key key' then Some value else NumMap.get m key'.
Proof.
  induction m as [| [k v] rest IH]; [reflexivity |].
  simpl. destruct (Num.same k key) eqn:Hk; simpl.
  - rewrite (same_sym k key'), (same_sym key key').
    rewrite (same_congruent k key key' Hk).
    destruct (Num.same key' key); reflexivity.
  - rewrite IH. destruct (Num.same k key') eqn:Hk'; [| reflexivity].
    destruct (Num.same key key') eqn:Hkey; [| reflexivity].
    rewrite same_sym in Hkey. rewrite (same_trans k key' key Hk' Hkey) in Hk.
    discriminate.
Qed.

Lemma set_fresh m key value :
  NumMap.get m key = None -> NumMap.set m key value = m ++ [(key, value)].
Proof.
  induction m as [| [k v] rest IH]; [reflexivity |].
  simpl. destruct (Num.same k key); [discriminate |].
  intros Hrest. rewrite (IH Hrest). reflexivity.
Qed.

Lemma set_keys_present m key value :
  NumMap.get m key <> None -> NumMap.keys (NumMap.set m key value) = NumMap.keys m.
Proof.
  induction m as [| [k v] rest IH]; [intros Hnone; contradiction |].
  simpl. destruct (Num.same k key); [reflexivity |].
  intros Hrest. simpl. f_equal. apply IH. exact Hrest.
Qed.

End NumMapFacts.

Lemma fresh_app (key : number) (a b : list number) :
  fresh key (a ++ b) = fresh key a && fresh key b.
Proof. unfold fresh. apply forallb_app. Qed.

Lemma distinct_snoc (keys : list number) (key : number) :
  distinct keys -> fresh key keys = true -> distinct (keys ++ [key]).
Proof.
  induction keys as [| k rest IH]; simpl.
  - intros _ _. split; [reflexivity | exact I].
  - intros [Hk Hrest] Hkey. apply andb_true_iff in Hkey. destruct Hkey as [Hne Hkey].
    split; [| apply IH; assumption].
    rewrite fresh_app, Hk. simpl. rewrite same_sym, Hne. reflexivity.
Qed.

(** The middle key of distinct keys is fresh for the keys before it. *)
Lemma distinct_middle (before after : list number) (key : number) :
  distinct (before ++ key :: after) -> fresh key before = true.
Proof.
  induction before as [| k rest IH]; simpl; [reflexivity |].
  intros [Hk Hrest]. rewrite (IH Hrest), andb_true_r.
  rewrite fresh_app in Hk. apply andb_true_iff in Hk. destruct Hk as [_ Hk].
  simpl in Hk. apply andb_true_iff in Hk. destruct Hk as [Hne _].
  rewrite same_sym. exact Hne.
Qed.

Lemma keys_app {V : Type} (a b : list (number * V)) :
  NumMap.keys (a ++ b) = NumMap.keys a ++ NumMap.keys b.
Proof. unfold NumMap.keys. apply List.map_app. Qed.

Lemma set_distinct {V : Type} (m : list (number * V)) (key : number) (value : V) :
  distinct (NumMap.keys m) -> distinct (NumMap.keys (NumMap.set m key value)).
Proof.
  intros Hm. destruct (NumMap.get m key) as [v |] eqn:Hget.
  - rewrite set_keys_present by congruence. exact Hm.
  - rewrite (set_fresh m key value Hget), keys_app. simpl.
    apply distinct_snoc; [exact Hm |]. apply get_None_fresh. exact Hget.
Qed.

(** Looking up a map whose values were rebuilt entry by entry. *)
Lemma get_rebuilt {V W : Type} (h : number -> V -> W) (m : list (number * V))
  (key : number) :
  (forall value, NumMap.get m key = Some value ->
     exists k, Num.same k key = true /\
               NumMap.get (List.map (fun entry => (fst entry, h (fst entry) (snd entry))) m) key
               = Some (h k value)) /\
  (NumMap.get m key = None ->
   NumMap.get (List.map (fun entry => (fst entry, h (fst entry) (snd entry))) m) key = None).
Proof.
  induction m as [| [k v] rest [IHsome IHnone]]; simpl.
  - split; [discriminate | reflexivity].
  - destruct (Num.same k key) eqn:Hk.
    + split; [| discriminate]. intros value [= <-]. exists k. auto.
    + split; assumption.
Qed.

(** *** The loops of the transition engine *)

Lemma buildTargetMap_distinct (incoming : list Globe.Satellite.t)
  (targetMap : list (number * Globe.SatellitePoint.t)) :
  distinct (NumMap.keys targetMap) ->
  distinct (NumMap.keys (Globe.buildTargetMap incoming targetMap)).
Proof.
  revert targetMap. induction incoming as [| satellite rest IH]; intros targetMap Hm.
  - exact Hm.
  - simpl. apply IH, set_distinct, Hm.
Qed.

Lemma buildTargetMap_keeps (incoming : list Globe.Satellite.t)
  (targetMap : list (number * Globe.SatellitePoint.t)) (key : number) :
  NumMap.get targetMap key <> None ->
  NumMap.get (Globe.buildTargetMap incoming targetMap) key <> None.
Proof.
  revert targetMap. induction incoming as [| satellite rest IH]; intros targetMap Hm.
  - exact Hm.
  - simpl. apply IH. rewrite get_set.
    destruct (Num.same _ key); [discriminate | exact Hm].
Qed.

Lemma buildTargetMap_covers (incoming : list Globe.Satellite.t)
  (targetMap : list (number * Globe.SatellitePoint.t)) (satellite : Globe.Satellite.t) :
  satellite ∈ incoming ->
  NumMap.get (Globe.buildTargetMap incoming targetMap)
    (Globe.Satellite.noradId satellite) <> None.
Proof.
  revert targetMap. induction incoming as [| first rest IH]; intros targetMap Hin.
  - apply elem_of_nil in Hin. contradiction.
  - apply elem_of_cons in Hin. simpl. destruct Hin as [-> | Hin].
    + apply buildTargetMap_keeps. rewrite get_set, same_refl. discriminate.
    + apply IH. exact Hin.
Qed.

Lemma buildTargetMap_origin (incoming : list Globe.Satellite.t)
  (targetMap : list (number * Globe.SatellitePoint.t)) (key : number) :
  NumMap.get (Globe.buildTargetMap incoming targetMap) key <> None ->
  NumMap.get targetMap key <> None \/
  exists satellite, satellite ∈ incoming /\
                    Num.same (Globe.Satellite.noradId satellite) key = true.
Proof.
  revert targetMap. induction incoming as [| first rest IH]; intros targetMap Hget.
  - left. exact Hget.
  - simpl in Hget. destruct (IH _ Hget) as [Hset | (satellite & Hin & Hsame)].
    + rewrite get_set in Hset.
      destruct (Num.same (Globe.Satellite.noradId first) key) eqn:Hfirst.
      * right. exists first. split; [apply elem_of_cons; auto | exact Hfirst].
      * left. exact Hset.
    + right. exists satellite. split; [apply elem_of_cons; auto | exact Hsame].
Qed.

Lemma buildFromMap_entries (rendered entries fromMap : list (number * Globe.SatellitePoint.t)) :
  distinct (NumMap.keys fromMap ++ NumMap.keys entries) ->
  Globe.buildFromMap rendered entries fromMap =
  fromMap ++
  List.map (fun entry =>
              (fst entry, default (snd entry) (NumMap.get rendered (fst entry))))
           entries.
Proof.
  revert fromMap. induction entries as [| [k t] rest IH]; intros fromMap Hkeys.
  - simpl. rewrite app_nil_r. reflexivity.
  - simpl. simpl in Hkeys.
    rewrite set_fresh
      by (apply get_None_fresh; apply (distinct_middle _ _ _ Hkeys)).
    rewrite IH.
    + rewrite <- app_assoc. reflexivity.
    + rewrite keys_app, <- app_assoc. exact Hkeys.
Qed.

Lemma animateLoop_entries (from : list (number * Globe.SatellitePoint.t))
  (eased : number) (entries nextMap : list (number * Globe.SatellitePoint.t))
  (nextList : list Globe.SatellitePoint.t) :
  distinct (NumMap.keys nextMap ++ NumMap.keys entries) ->
  Globe.animateLoop from eased entries nextMap nextList =
  (nextMap ++
   List.map (fun entry =>
               (fst entry,
                Globe.interpolate (default (snd entry) (NumMap.get from (fst entry)))
                                  (snd entry) eased))
            entries,
   nextList ++
   List.map (fun entry =>
               Globe.interpolate (default (snd entry) (NumMap.get from (fst entry)))
                                 (snd entry) eased)
            entries).
Proof.
  revert nextMap nextList.
  induction entries as [| [k t] rest IH]; intros nextMap nextList Hkeys.
  - simpl. rewrite !app_nil_r. reflexivity.
  - simpl. simpl in Hkeys.
    rewrite set_fresh
      by (apply get_None_fresh; apply (distinct_middle _ _ _ Hkeys)).
    rewrite IH.
    + rewrite <- !app_assoc. reflexivity.
    + rewrite keys_app, <- app_assoc. exact Hkeys.
Qed.

Section Frames.
Context `{Host}.

Lemma animateStep_shows (transition : Globe.TransitionState.t)
  (frameTimeMs : number) (handle : Z) (engine : Globe.Engine.t) :
  distinct (NumMap.keys (Globe.TransitionState.to transition)) ->
  Globe.Engine.transitionRef engine = Some transition ->
  shows (Globe.TransitionState.to transition)
        (Globe.animateStep frameTimeMs handle engine) /\
  (Globe.Engine.transitionRef (Globe.animateStep frameTimeMs handle engine)
   = Some transition \/
   Globe.Engine.transitionRef (Globe.animateStep frameTimeMs handle engine) = None).
Proof.
  intros Hdistinct Htransition. unfold Globe.animateStep. rewrite Htransition.
  rewrite animateLoop_entries by exact Hdistinct. cbn [app].
  match goal with
  | |- context [if ?b then _ else _] => destruct b
  end; (split; [split |]); cbn [Globe.Engine.renderedMapRef
                                Globe.Engine.renderedSatellites
                                Globe.Engine.transitionRef]; auto;
    unfold NumMap.keys; rewrite List.map_map; reflexivity.
Qed.

Lemma animateStep_idle (to : list (number * Globe.SatellitePoint.t))
  (frameTimeMs : number) (handle : Z) (engine : Globe.Engine.t) :
  Globe.Engine.transitionRef engine = None ->
  shows to engine ->
  shows to (Globe.animateStep frameTimeMs handle engine) /\
  Globe.Engine.transitionRef (Globe.animateStep frameTimeMs handle engine) = None.
Proof.
  intros Hidle Hshows. unfold Globe.animateStep. rewrite Hidle.
  split; [exact Hshows | reflexivity].
Qed.

Lemma play_idle (to : list (number * Globe.SatellitePoint.t))
  (frames : list (number * Z)) (engine : Globe.Engine.t) :
  Globe.Engine.transitionRef engine = None ->
  shows to engine -> shows to (play frames engine).
Proof.
  revert engine. induction frames as [| [frameTimeMs handle] rest IH];
    intros engine Hidle Hshows; [exact Hshows |].
  simpl. destruct (animateStep_idle to frameTimeMs handle engine Hidle Hshows).
  apply IH; assumption.
Qed.

Lemma play_shows (transition : Globe.TransitionState.t)
  (frames : list (number * Z)) (engine : Globe.Engine.t) :
  distinct (NumMap.keys (Globe.TransitionState.to transition)) ->
  frames <> [] ->
  Globe.Engine.transitionRef engine = Some transition ->
  shows (Globe.TransitionState.to transition) (play frames engine).
Proof.
  intros Hdistinct. revert engine.
  induction frames as [| [frameTimeMs handle] rest IH];
    intros engine Hframes Htransition; [contradiction |].
  simpl.
  destruct (animateStep_shows transition frameTimeMs handle engine
              Hdistinct Htransition) as [Hshows [Hsome | Hnone]].
  - destruct rest as [| next rest']; [exact Hshows |].
    apply IH; [discriminate | exact Hsome].
  - apply play_idle; assumption.
Qed.

End Frames.

(** ** C9: a snapshot that arrives while something is rendered *)

(** C9. When a snapshot arrives while the rendered map is not empty, whether
    or not a transition is in flight, [startTransition] leaves what is
    rendered as it is, schedules a frame and installs a transition to the
    target map of the snapshot; its from-map has the keys of the target map
    and gives each identifier of the snapshot the point currently rendered
    for it, or its own target when none is; and after any number of
    following frames the rendered map and the rendered list hold exactly the
    identifiers of the target map, so that an identifier absent from the
    snapshot is no longer rendered. *)
Theorem transition_restarts_from_rendered `{Host}
  (engine : Globe.Engine.t) (incoming : list Globe.Satellite.t)
  (nowMs : number) (handle : Z) :
  Globe.Engine.renderedMapRef engine <> [] ->
  let rendered := Globe.Engine.renderedMapRef engine in
  let started := Globe.startTransition incoming nowMs handle engine in
  exists transition : Globe.TransitionState.t,
    Globe.Engine.transitionRef started = Some transition /\
    Globe.TransitionState.to transition = Globe.buildTargetMap incoming [] /\
    Globe.TransitionState.startMs transition = nowMs /\
    Globe.Engine.renderedMapRef started = rendered /\
    Globe.Engine.renderedSatellites started = Globe.Engine.renderedSatellites engine /\
    Globe.Engine.animationFrameRef started <> None /\
    NumMap.keys (Globe.TransitionState.from transition) =
      NumMap.keys (Globe.TransitionState.to transition) /\
    (forall satellite : Globe.Satellite.t,
       satellite ∈ incoming ->
       exists target : Globe.SatellitePoint.t,
         NumMap.get (Globe.TransitionState.to transition)
           (Globe.Satellite.noradId satellite) = Some target /\
         NumMap.get (Globe.TransitionState.from transition)
           (Globe.Satellite.noradId satellite) =
         Some (default target (NumMap.get rendered (Globe.Satellite.noradId satellite)))) /\
    (forall id : number,
       NumMap.get (Globe.TransitionState.to transition) id <> None ->
       exists satellite, satellite ∈ incoming /\
                         Num.same (Globe.Satellite.noradId satellite) id = true) /\
    (forall frames : list (number * Z),
       frames <> [] ->
       shows (Globe.TransitionState.to transition) (play frames started) /\
       forall id : number,
         (forall satellite, satellite ∈ incoming ->
                            Num.same (Globe.Satellite.noradId satellite) id = false) ->
         NumMap.get (Globe.Engine.renderedMapRef (play frames started)) id = None).
Proof.
  intros Hrendered rendered started.
  assert (Hdistinct : distinct (NumMap.keys (Globe.buildTargetMap incoming [])))
    by (apply buildTargetMap_distinct; exact I).
  assert (Hstarted : started =
    {| Globe.Engine.transitionRef :=
         Some {| Globe.TransitionState.durationMs := Globe.MOTION_DURATION_MS;
                 Globe.TransitionState.from :=
                   Globe.buildFromMap rendered (Globe.buildTargetMap incoming []) [];
                 Globe.TransitionState.startMs := nowMs;
                 Globe.TransitionState.to := Globe.buildTargetMap incoming [] |};
       Globe.Engine.animationFrameRef :=
         match Globe.Engine.animationFrameRef engine with
         | None => Some handle
         | Some scheduled => Some scheduled
         end;
       Globe.Engine.renderedMapRef := rendered;
       Globe.Engine.renderedSatellites := Globe.Engine.renderedSatellites engine |}).
  { unfold started, rendered, Globe.startTransition, NumMap.size.
    destruct (Globe.Engine.renderedMapRef engine); [congruence | reflexivity]. }
  assert (Horigin : forall id : number,
            NumMap.get (Globe.buildTargetMap incoming []) id <> None ->
            exists satellite, satellite ∈ incoming /\
                              Num.same (Globe.Satellite.noradId satellite) id = true).
  { intros id Hget. destruct (buildTargetMap_origin incoming [] id Hget) as [Hnil | Hin];
      [contradiction | exact Hin]. }
  eexists. split; [rewrite Hstarted; reflexivity |].
  cbn [Globe.TransitionState.to Globe.TransitionState.from Globe.TransitionState.startMs].
  rewrite (buildFromMap_entries rendered _ []) by exact Hdistinct. cbn [app].
  split; [reflexivity |]. split; [reflexivity |].
  split; [rewrite Hstarted; reflexivity |].
  split; [rewrite Hstarted; reflexivity |].
  split.
  { rewrite Hstarted. cbn [Globe.Engine.animationFrameRef].
    destruct (Globe.Engine.animationFrameRef engine); discriminate. }
  split.
  { unfold NumMap.keys. rewrite List.map_map. reflexivity. }
  split.
  { intros satellite Hin.
    pose proof (buildTargetMap_covers incoming [] satellite Hin) as Hcovered.
    destruct (NumMap.get (Globe.buildTargetMap incoming [])
                (Globe.Satellite.noradId satellite)) as [target |] eqn:Htarget;
      [| contradiction].
    exists target. split; [reflexivity |].
    destruct (get_rebuilt (fun k t => default t (NumMap.get rendered k))
                (Globe.buildTargetMap incoming []) (Globe.Satellite.noradId satellite))
      as [Hsome _].
    destruct (Hsome target Htarget) as (k & Hk & Hfrom).
    rewrite Hfrom, (get_same rendered k _ Hk). reflexivity. }
  split; [exact Horigin |].
  intros frames Hframes.
  assert (Hshows : shows (Globe.buildTargetMap incoming []) (play frames started)).
  { apply (play_shows
             {| Globe.TransitionState.durationMs := Globe.MOTION_DURATION_MS;
                Globe.TransitionState.from :=
                  Globe.buildFromMap rendered (Globe.buildTargetMap incoming []) [];
                Globe.TransitionState.startMs := nowMs;
                Globe.TransitionState.to := Globe.buildTargetMap incoming [] |});
      [exact Hdistinct | exact Hframes | rewrite Hstarted; reflexivity]. }
  split; [exact Hshows |].
  intros id Habsent. apply get_None_fresh. destruct Hshows as [-> _].
  apply get_None_fresh.
  destruct (NumMap.get (Globe.buildTargetMap incoming []) id) eqn:Hget; [| reflexivity].
  destruct (Horigin id) as (satellite & Hin & Hsame); [congruence |].
  rewrite (Habsent satellite Hin) in Hsame. discriminate.
Qed.

Lemma transition_restarts_from_rendered_witness :
  let populated :=
    Globe.startTransition [Sample.satellite 1 0 10; Sample.satellite 2 0 20]
      (Fin 0) 7 Globe.mounted in
  let incoming := [Sample.satellite 2 0 30; Sample.satellite 3 5 5] in
  Globe.Engine.renderedMapRef populated <> [] /\
  exists transition : Globe.TransitionState.t,
    Globe.Engine.transitionRef (Globe.startTransition incoming (Fin 10000) 8 populated)
    = Some transition /\
    NumMap.keys (Globe.TransitionState.from transition) =
    NumMap.keys (Globe.TransitionState.to transition).
Proof.
  intros populated incoming.
  assert (Hrendered : Globe.Engine.renderedMapRef populated <> []) by discriminate.
  split; [exact Hrendered |].
  destruct (@transition_restarts_from_rendered Sample.host populated incoming
              (Fin 10000) 8%Z Hrendered)
    as (transition & Hinstalled & _ & _ & _ & _ & _ & Hkeys & _).
  exists transition. split; [exact Hinstalled | exact Hkeys].
Defined.

(** * Further properties of the endpoint *)

(** ** The group selector *)

Lemma selectGroup_member (request : Route.Request.t) :
  Route.selectGroup request ∈ Route.ALLOWED_GROUPS.
Proof.
  unfold Route.selectGroup. case_bool_decide; [assumption |].
  unfold Route.DEFAULT_GROUP, Route.ALLOWED_GROUPS.
  rewrite !elem_of_union, !elem_of_singleton. tauto.
Qed.

Lemma selectGroup_three (request : Route.Request.t) :
  Route.selectGroup request = "active" \/
  Route.selectGroup request = "stations" \/
  Route.selectGroup request = "starlink".
Proof.
  pose proof (selectGroup_member request) as Hin.
  unfold Route.ALLOWED_GROUPS in Hin.
  rewrite !elem_of_union, !elem_of_singleton in Hin. tauto.
Qed.

(** X1. The group that the handler serves is always one of the three allowed
    groups: the requested one, compared without regard to case, when it is
    allowed, and "active" when the parameter is missing or names anything
    else. *)
Theorem selectGroup_allowed (request : Route.Request.t) :
  Route.selectGroup request ∈ Route.ALLOWED_GROUPS /\
  (Route.selectGroup request = "active" \/
   Route.selectGroup request = "stations" \/
   Route.selectGroup request = "starlink") /\
  (Route.Request.group request = None -> Route.selectGroup request = "active") /\
  (forall requested : string,
     Route.Request.group request = Some requested ->
     (Str.toLowerCase requested ∈ Route.ALLOWED_GROUPS ->
      Route.selectGroup request = Str.toLowerCase requested) /\
     (Str.toLowerCase requested ∉ Route.ALLOWED_GROUPS ->
      Route.selectGroup request = "active")).
Proof.
  assert (Hdefault : Route.DEFAULT_GROUP ∈ Route.ALLOWED_GROUPS).
  { unfold Route.DEFAULT_GROUP, Route.ALLOWED_GROUPS.
    rewrite !elem_of_union, !elem_of_singleton. tauto. }
  assert (Hin : Route.selectGroup request ∈ Route.ALLOWED_GROUPS).
  { unfold Route.selectGroup. case_bool_decide; assumption. }
  split; [exact Hin |]. split.
  { unfold Route.ALLOWED_GROUPS in Hin.
    rewrite !elem_of_union, !elem_of_singleton in Hin. tauto. }
  split.
  { intros Hnone. unfold Route.selectGroup. rewrite Hnone.
    case_bool_decide; reflexivity. }
  intros requested Hsome. unfold Route.selectGroup. rewrite Hsome. simpl.
  split; intros Hallowed; case_bool_decide; try reflexivity; contradiction.
Qed.

Lemma selectGroup_allowed_witness :
  Route.Request.group (Sample.request (Some "StarLink") None) = Some "StarLink" /\
  Str.toLowerCase "StarLink" ∈ Route.ALLOWED_GROUPS /\
  Route.selectGroup (Sample.request (Some "StarLink") None) = Str.toLowerCase "StarLink".
Proof.
  assert (Hgroup : Route.Request.group (Sample.request (Some "StarLink") None)
                   = Some "StarLink") by reflexivity.
  assert (Hallowed : Str.toLowerCase "StarLink" ∈ Route.ALLOWED_GROUPS).
  { apply (bool_decide_eq_true_1
             (Str.toLowerCase "StarLink" ∈ Route.ALLOWED_GROUPS)).
    vm_compute. reflexivity. }
  split; [exact Hgroup |]. split; [exact Hallowed |].
  exact (proj1 (proj2 (proj2 (proj2
           (selectGroup_allowed (Sample.request (Some "StarLink") None))))
           "StarLink" Hgroup) Hallowed).
Defined.

(** X2. Requests that select different groups never use the same key of the
    position cache, whatever their limits. *)
Theorem keys_separate_groups `{Host} (first second : Route.Request.t) :
  Route.selectGroup first <> Route.selectGroup second ->
  keyOf first <> keyOf second.
Proof.
  intros Hgroups Hkeys. unfold keyOf, Route.positionCacheKey in Hkeys.
  pose proof (selectGroup_three first) as Hfirst.
  pose proof (selectGroup_three second) as Hsecond.
  destruct Hfirst as [H1 | [H1 | H1]], Hsecond as [H2 | [H2 | H2]];
    rewrite H1, H2 in *; try congruence; simpl in Hkeys; discriminate Hkeys.
Qed.

Lemma keys_separate_groups_witness :
  Route.selectGroup (Sample.request (Some "stations") (Some "5")) <>
  Route.selectGroup (Sample.request None (Some "5")) /\
  keyOf (H := Sample.host) (Sample.request (Some "stations") (Some "5")) <>
  keyOf (H := Sample.host) (Sample.request None (Some "5")).
Proof.
  assert (Hgroups : Route.selectGroup (Sample.request (Some "stations") (Some "5")) <>
                    Route.selectGroup (Sample.request None (Some "5"))).
  { vm_compute. discriminate. }
  split; [exact Hgroups |].
  exact (@keys_separate_groups Sample.host _ _ Hgroups).
Defined.

(** ** The two caches across requests *)

Section Caches.
Context `{Host} `{Propagation}.

(** What a run of [loadOrbitSet] leaves behind. *)
Lemma loadOrbitSet_outcome (world : Route.Ambient.t) (group : string)
  (server server1 : Route.Server.t) (loaded : result Route.CachedOrbitSet.t) :
  Route.loadOrbitSet world group server = (server1, loaded) ->
  Route.Server.positionCache server1 = Route.Server.positionCache server /\
  match loaded with
  | Throw _ =>
      Route.unexpired (Route.Ambient.loaderNow world)
        (Route.Server.orbitCache server !! group) = None /\
      server1 = fetching group server
  | Ok value =>
      (Route.unexpired (Route.Ambient.loaderNow world)
         (Route.Server.orbitCache server !! group) = Some value /\
       server1 = server) \/
      (Route.unexpired (Route.Ambient.loaderNow world)
         (Route.Server.orbitCache server !! group) = None /\
       Route.Server.orbitCache server1 =
         <[group := ((Route.Ambient.loaderNow world + Route.ORBIT_CACHE_TTL_MS)%Z, value)]>
           (Route.Server.orbitCache server) /\
       Route.Server.journal server1 =
         Route.Server.journal server ++ [Route.Fetched (Route.buildGroupFeedUrl group)])
  end.
Proof.
  destruct (Route.unexpired (Route.Ambient.loaderNow world)
              (Route.Server.orbitCache server !! group)) as [cached |] eqn:Hcache.
  - rewrite (loadOrbitSet_hit world group server cached Hcache).
    intros [= <- <-]. split; [reflexivity |]. left. auto.
  - rewrite (loadOrbitSet_miss world group server Hcache).
    destruct (Route.Ambient.network world (Route.buildGroupFeedUrl group))
      as [latencyMs response | e].
    + destruct (Route.REQUEST_TIMEOUT_MS <=? latencyMs)%Z;
        [intros [= <- <-]; split; [reflexivity | auto] |].
      destruct (negb (Route.Upstream.ok response));
        [intros [= <- <-]; split; [reflexivity | auto] |].
      destruct (Route.Upstream.json response) as [payload | e];
        [| intros [= <- <-]; split; [reflexivity | auto]].
      cbv zeta. intros [= <- <-]. split; [reflexivity |]. right. auto.
    + intros [= <- <-]. split; [reflexivity | auto].
Qed.

End Caches.

(** X3. The element-set cache gives back what was stored: after
    [loadOrbitSet] has returned an orbit set, the cache holds that set for
    the group with an expiry later than the loader's clock reading (the
    reading plus 30 minutes when the set was fetched), and any later call
    for the group made before that expiry returns the same set and changes
    nothing, so that nothing is fetched. *)
Theorem orbit_cache_round_trip `{Host} `{Propagation}
  (world : Route.Ambient.t) (group : string)
  (server server1 : Route.Server.t) (value : Route.CachedOrbitSet.t) :
  Route.loadOrbitSet world group server = (server1, Ok value) ->
  exists expiresAt : Z,
    Route.Server.orbitCache server1 !! group = Some (expiresAt, value) /\
    (Route.Ambient.loaderNow world < expiresAt)%Z /\
    (Route.unexpired (Route.Ambient.loaderNow world)
       (Route.Server.orbitCache server !! group) = None ->
     expiresAt = (Route.Ambient.loaderNow world + 30 * 60 * 1000)%Z) /\
    forall later : Route.Ambient.t,
      (Route.Ambient.loaderNow later < expiresAt)%Z ->
      Route.loadOrbitSet later group server1 = (server1, Ok value).
Proof.
  intros Hload.
  destruct (loadOrbitSet_outcome world group server server1 (Ok value) Hload)
    as [_ [[Hhit ->] | (Hmiss & Hcache & _)]].
  - pose proof Hhit as Hentry. apply unexpired_Some in Hentry.
    destruct Hentry as (expiresAt & Hlookup & Hfresh).
    exists expiresAt. split; [exact Hlookup |]. split; [exact Hfresh |].
    split; [intros Hnone; congruence |].
    intros later Hlater. apply loadOrbitSet_hit, unexpired_Some.
    exists expiresAt. auto.
  - exists (Route.Ambient.loaderNow world + Route.ORBIT_CACHE_TTL_MS)%Z.
    assert (Hlookup : Route.Server.orbitCache server1 !! group =
                      Some ((Route.Ambient.loaderNow world + Route.ORBIT_CACHE_TTL_MS)%Z,
                            value))
      by (rewrite Hcache; apply lookup_insert_eq).
    split; [exact Hlookup |].
    split; [unfold Route.ORBIT_CACHE_TTL_MS; lia |].
    split; [intros _; reflexivity |].
    intros later Hlater. apply loadOrbitSet_hit, unexpired_Some.
    eexists. split; [exact Hlookup | exact Hlater].
Qed.

(** X4. The position cache gives back what was served: after a response
    with status 200 the cache holds the snapshot of its body under the key
    of the request, with an expiry later than the handler's clock reading,
    and every later request with the same key handled before that expiry
    gets the same response and changes nothing, so that nothing is fetched
    or computed. *)
Theorem position_cache_round_trip `{Host} `{Propagation}
  (world : Route.Ambient.t) (request : Route.Request.t)
  (server server1 : Route.Server.t) (response : Route.Response.t) :
  Route.GET world request server = (server1, response) ->
  Route.Response.status response = 200%Z ->
  exists (expiresAt : Z) (value : Route.Snapshot.t),
    Route.Response.body response = Route.SnapshotBody value /\
    Route.Server.positionCache server1 !! keyOf request = Some (expiresAt, value) /\
    (Route.Ambient.handlerNow world < expiresAt)%Z /\
    forall (later : Route.Ambient.t) (again : Route.Request.t),
      keyOf again = keyOf request ->
      (Route.Ambient.handlerNow later < expiresAt)%Z ->
      Route.GET later again server1 = (server1, response).
Proof.
  intros Hget Hstatus.
  assert (Hserve : forall (expiresAt : Z) (value : Route.Snapshot.t),
             Route.Server.positionCache server1 !! keyOf request = Some (expiresAt, value) ->
             forall (later : Route.Ambient.t) (again : Route.Request.t),
               keyOf again = keyOf request ->
               (Route.Ambient.handlerNow later < expiresAt)%Z ->
               Route.GET later again server1 = (server1, Route.success value)).
  { intros expiresAt value Hlookup later again Hkey Hlater.
    apply GET_hit. rewrite Hkey. apply unexpired_Some. exists expiresAt. auto. }
  destruct (Route.unexpired (Route.Ambient.handlerNow world)
              (Route.Server.positionCache server !! keyOf request))
    as [cached |] eqn:Hcache.
  - rewrite (GET_hit world request server cached Hcache) in Hget.
    injection Hget as <- <-.
    apply unexpired_Some in Hcache. destruct Hcache as (expiresAt & Hlookup & Hfresh).
    exists expiresAt, cached. split; [reflexivity |]. split; [exact Hlookup |].
    split; [exact Hfresh |]. apply (Hserve expiresAt cached Hlookup).
  - rewrite (GET_miss world request server Hcache) in Hget.
    destruct (Route.loadOrbitSet world (Route.selectGroup request) server)
      as [loaded [orbitSet | e]];
      [| injection Hget as <- <-; discriminate Hstatus].
    destruct (Route.computePositions _ _ _) as [satellites | e];
      [| injection Hget as <- <-; discriminate Hstatus].
    cbv zeta in Hget. injection Hget as <- <-.
    assert (Hlookup :
      Route.Server.positionCache
        (storing world request (snapshotOf world request orbitSet satellites) loaded)
        !! keyOf request =
      Some ((Route.Ambient.handlerNow world + Route.POSITION_CACHE_TTL_MS)%Z,
            snapshotOf world request orbitSet satellites))
      by apply lookup_insert_eq.
    eexists. eexists. split; [reflexivity |]. split; [exact Hlookup |].
    split; [unfold Route.POSITION_CACHE_TTL_MS; lia |].
    apply (Hserve _ _ Hlookup).
Qed.

(** X5. An error response leaves both caches as they were: whenever the
    handler answers with status 502, neither cache has changed, the one
    effect of the request is the fetch of the feed of the selected group,
    and neither cache held an unexpired entry for the request. *)
Theorem error_leaves_caches `{Host} `{Propagation}
  (world : Route.Ambient.t) (request : Route.Request.t)
  (server server1 : Route.Server.t) (response : Route.Response.t) :
  Route.GET world request server = (server1, response) ->
  Route.Response.status response = 502%Z ->
  Route.Server.orbitCache server1 = Route.Server.orbitCache server /\
  Route.Server.positionCache server1 = Route.Server.positionCache server /\
  Route.Server.journal server1 =
    Route.Server.journal server
    ++ [Route.Fetched (Route.buildGroupFeedUrl (Route.selectGroup request))] /\
  Route.unexpired (Route.Ambient.handlerNow world)
    (Route.Server.positionCache server !! keyOf request) = None /\
  Route.unexpired (Route.Ambient.loaderNow world)
    (Route.Server.orbitCache server !! Route.selectGroup request) = None.
Proof.
  intros Hget Hstatus.
  destruct (Route.unexpired (Route.Ambient.handlerNow world)
              (Route.Server.positionCache server !! keyOf request))
    as [cached |] eqn:Hcache.
  - rewrite (GET_hit world request server cached Hcache) in Hget.
    injection Hget as <- <-. discriminate Hstatus.
  - rewrite (GET_miss world request server Hcache) in Hget.
    destruct (Route.loadOrbitSet world (Route.selectGroup request) server)
      as [loaded [orbitSet | e]] eqn:Hload.
    + destruct (computePositions_returns (Route.CachedOrbitSet.records orbitSet)
                  (Date_ofString (toISOString (Route.Ambient.computedClock world)))
                  (Route.parseLimit (Route.Request.limit request)))
        as [satellites Hcompute].
      rewrite Hcompute in Hget. cbv zeta in Hget. injection Hget as <- <-.
      discriminate Hstatus.
    + injection Hget as <- <-.
      destruct (loadOrbitSet_outcome world _ server loaded (Throw e) Hload)
        as [_ [Hmiss ->]].
      repeat split; assumption || reflexivity.
Qed.

Lemma orbit_cache_round_trip_witness :
  let world := Sample.world 1000 (Sample.upstream 150 200) in
  let later := Sample.world 5000 (Sample.upstream 150 200) in
  exists (server1 : Route.Server.t (H := Sample.propagation))
         (value : Route.CachedOrbitSet.t (H := Sample.propagation)),
    Route.loadOrbitSet (H := Sample.host) (H0 := Sample.propagation)
      world "stations" Route.initial = (server1, Ok value) /\
    Route.loadOrbitSet (H := Sample.host) (H0 := Sample.propagation)
      later "stations" server1 = (server1, Ok value).
Proof.
  intros world later.
  assert (Hload : exists (server1 : Route.Server.t (H := Sample.propagation))
                         (value : Route.CachedOrbitSet.t (H := Sample.propagation)),
             Route.loadOrbitSet (H := Sample.host) (H0 := Sample.propagation)
               world "stations" Route.initial = (server1, Ok value)).
  { eexists. eexists. rewrite loadOrbitSet_miss by reflexivity. reflexivity. }
  destruct Hload as (server1 & value & Hload).
  exists server1, value. split; [exact Hload |].
  destruct (@orbit_cache_round_trip Sample.host Sample.propagation
              world "stations" Route.initial server1 value Hload)
    as (expiresAt & _ & _ & Hexpiry & Hlater).
  apply Hlater. rewrite (Hexpiry eq_refl). reflexivity.
Defined.

Lemma position_cache_round_trip_witness :
  let request := Sample.request (Some "stations") (Some "1") in
  let first :=
    Route.GET (H := Sample.host) (H0 := Sample.propagation)
      (Sample.world 1000 (Sample.upstream 150 200)) request Route.initial in
  Route.Response.status (snd first) = 200%Z /\
  Route.GET (H := Sample.host) (H0 := Sample.propagation)
    (Sample.world 3000 (Sample.upstream 150 200)) request (fst first)
  = (fst first, snd first).
Proof.
  intros request first.
  assert (Hstatus : Route.Response.status (snd first) = 200%Z)
    by (vm_compute; reflexivity).
  split; [exact Hstatus |].
  destruct (@position_cache_round_trip Sample.host Sample.propagation
              (Sample.world 1000 (Sample.upstream 150 200)) request Route.initial
              (fst first) (snd first) (surjective_pairing first) Hstatus)
    as (expiresAt & value & _ & Hlookup & _ & Hlater).
  apply Hlater; [reflexivity |].
  assert (Hexpiry : expiresAt = 6000%Z).
  { vm_compute in Hlookup. injection Hlookup as <- _. reflexivity. }
  rewrite Hexpiry. reflexivity.
Defined.

Lemma error_leaves_caches_witness :
  let request := Sample.request (Some "stations") None in
  let failed :=
    Route.GET (H := Sample.host) (H0 := Sample.propagation)
      (Sample.world 1000 (Sample.upstream 150 503)) request Route.initial in
  Route.Response.status (snd failed) = 502%Z /\
  Route.Server.orbitCache (fst failed) = ∅ /\
  Route.Server.positionCache (fst failed) = ∅.
Proof.
  intros request failed.
  assert (Hstatus : Route.Response.status (snd failed) = 502%Z)
    by (vm_compute; reflexivity).
  split; [exact Hstatus |].
  destruct (@error_leaves_caches Sample.host Sample.propagation
              (Sample.world 1000 (Sample.upstream 150 503)) request Route.initial
              (fst failed) (snd failed) (surjective_pairing failed) Hstatus)
    as (Horbits & Hpositions & _).
  split; [exact Horbits | exact Hpositions].
Defined.

(** X6. A request fetches at most once and computes at most once, and what
    it does is fixed by the two caches: nothing when the position cache
    serves it; one computation and no fetch when only the element-set cache
    has an unexpired entry, the response then having status 200 and the
    element-set cache staying as it was; one fetch when neither has, followed
    by one computation exactly when the response has status 200. *)
Theorem effects_per_request `{Host} `{Propagation}
  (world : Route.Ambient.t) (request : Route.Request.t) (server : Route.Server.t) :
  let group := Route.selectGroup request in
  let url := Route.buildGroupFeedUrl group in
  let after := Route.GET world request server in
  match Route.unexpired (Route.Ambient.handlerNow world)
          (Route.Server.positionCache server !! keyOf request),
        Route.unexpired (Route.Ambient.loaderNow world)
          (Route.Server.orbitCache server !! group) with
  | Some _, _ => Route.Server.journal (fst after) = Route.Server.journal server
  | None, Some _ =>
      Route.Server.journal (fst after) = Route.Server.journal server ++ [Route.Computed] /\
      Route.Response.status (snd after) = 200%Z /\
      Route.Server.orbitCache (fst after) = Route.Server.orbitCache server
  | None, None =>
      (Route.Server.journal (fst after) =
         Route.Server.journal server ++ [Route.Fetched url] /\
       Route.Response.status (snd after) = 502%Z) \/
      (Route.Server.journal (fst after) =
         Route.Server.journal server ++ [Route.Fetched url; Route.Computed] /\
       Route.Response.status (snd after) = 200%Z)
  end.
Proof.
  intros group url after. unfold after.
  destruct (Route.unexpired (Route.Ambient.handlerNow world)
              (Route.Server.positionCache server !! keyOf request))
    as [cached |] eqn:Hpositions.
  - rewrite (GET_hit world request server cached Hpositions). reflexivity.
  - rewrite (GET_miss world request server Hpositions). fold group.
    destruct (Route.loadOrbitSet world group server) as [loaded outcome] eqn:Hload.
    pose proof (loadOrbitSet_outcome world group server loaded outcome Hload)
      as [_ Houtcome].
    destruct outcome as [orbitSet | e].
    + destruct (computePositions_returns (Route.CachedOrbitSet.records orbitSet)
                  (Date_ofString (toISOString (Route.Ambient.computedClock world)))
                  (Route.parseLimit (Route.Request.limit request)))
        as [satellites ->].
      cbv zeta. cbn [fst snd storing Route.Server.journal Route.Server.orbitCache].
      destruct Houtcome as [[Hhit ->] | (Hmiss & _ & Hjournal)].
      * rewrite Hhit. auto.
      * rewrite Hmiss. right. rewrite Hjournal, <- app_assoc. auto.
    + destruct Houtcome as [Hmiss ->]. rewrite Hmiss. left. auto.
Qed.

(** ** The records that the normaliser keeps *)

Lemma toCleanString_Some (value : Value) (kept : string) :
  Route.toCleanString value = Some kept ->
  clean kept /\ exists s, value = VString s /\ kept = Str.trim s.
Proof.
  destruct value as [| | b | n | s |]; try discriminate.
  rewrite toCleanString_string.
  destruct (String.eqb_spec (Str.trim s) "") as [Hblank | Hfull]; [discriminate |].
  intros [= <-]. split; [split; [exact Hfull | apply trim_idempotent] |].
  exists s. auto.
Qed.

Lemma canonicalType_upper (upperValue : string) :
  Str.toUpperCase upperValue = upperValue ->
  Str.toUpperCase (canonicalType upperValue) = canonicalType upperValue.
Proof.
  intros Hupper. unfold canonicalType.
  repeat match goal with
         | |- context [if ?b then _ else _] => destruct b; try reflexivity
         end.
  exact Hupper.
Qed.

Lemma canonicalType_nonempty (upperValue : string) :
  upperValue <> "" -> canonicalType upperValue <> "".
Proof.
  intros Hfull. unfold canonicalType.
  repeat match goal with
         | |- context [if ?b then _ else _] => destruct b; try discriminate
         end.
  exact Hfull.
Qed.

Lemma inferObjectTypeFromName_upper (objectName : string) :
  Route.inferObjectTypeFromName objectName <> "" /\
  Str.toUpperCase (Route.inferObjectTypeFromName objectName) =
  Route.inferObjectTypeFromName objectName.
Proof.
  unfold Route.inferObjectTypeFromName.
  destruct (_ || _); [split; [discriminate | reflexivity] |].
  destruct (_ || _); split; discriminate || reflexivity.
Qed.

Lemma entryObjectType_upper (entry : gmap string Value) (objectName : string) :
  Route.entryObjectType entry objectName <> "" /\
  Str.toUpperCase (Route.entryObjectType entry objectName) =
  Route.entryObjectType entry objectName.
Proof.
  destruct (prop entry "OBJECT_TYPE") as [| | b | n | s |] eqn:Hprop;
    try (rewrite entryObjectType_inferred
           by (intros s' Hs'; rewrite Hprop in Hs'; discriminate);
         apply inferObjectTypeFromName_upper).
  destruct (String.eqb_spec (Str.trim s) "") as [Hblank | Hfull].
  - rewrite entryObjectType_inferred
      by (intros s' Hs'; rewrite Hprop in Hs'; injection Hs' as <-; exact Hblank).
    apply inferObjectTypeFromName_upper.
  - rewrite (entryObjectType_tagged entry objectName s Hprop Hfull). split.
    + apply canonicalType_nonempty. intros Hempty.
      apply Hfull, (proj1 (toUpperCase_empty (Str.trim s))), Hempty.
    + apply canonicalType_upper, toUpperCase_idempotent.
Qed.

(** X7. What a stored record is made of.  Its name is never empty: it is the
    trimmed name of the raw record when that is a non-blank string, and
    "NORAD-" followed by the identifier otherwise.  A country code or launch
    date, when present, is a non-empty trimmed string, and an inclination,
    when present, is finite.  The classification is a non-empty upper-case
    string. *)
Theorem stored_record_fields `{Host} `{Propagation}
  (entry : gmap string Value) (record : Route.CachedOrbitRecord.t) :
  snd (Route.normalizeEntry entry) = Some record ->
  Route.CachedOrbitRecord.objectName record <> "" /\
  (forall s, prop entry "OBJECT_NAME" = VString s -> Str.trim s <> "" ->
             Route.CachedOrbitRecord.objectName record = Str.trim s) /\
  ((forall s, prop entry "OBJECT_NAME" = VString s -> Str.trim s = "") ->
   Route.CachedOrbitRecord.objectName record =
   "NORAD-" +:+ ToString (Route.CachedOrbitRecord.noradId record)) /\
  (forall code, Route.CachedOrbitRecord.countryCode record = Some code -> clean code) /\
  (forall date, Route.CachedOrbitRecord.launchDate record = Some date -> clean date) /\
  (forall degrees, Route.CachedOrbitRecord.inclination record = Some degrees ->
                   Num.isFinite degrees = true) /\
  (exists objectType,
     Route.CachedOrbitRecord.objectType record = Some objectType /\
     objectType <> "" /\ Str.toUpperCase objectType = objectType).
Proof.
  unfold Route.normalizeEntry.
  destruct (Route.toFiniteNumber (prop entry "NORAD_CAT_ID")) as [noradId |];
    [| discriminate].
  simpl. destruct (json2satrec entry); [| discriminate].
  intros [= <-]. simpl. unfold Route.entryObjectName.
  split; [| split; [| split; [| split; [| split; [| split]]]]].
  - destruct (Route.toCleanString (prop entry "OBJECT_NAME")) as [kept |] eqn:Hname;
      simpl; [| discriminate].
    apply toCleanString_Some in Hname. destruct Hname as [[Hfull _] _]. exact Hfull.
  - intros s Hprop Hs. rewrite Hprop, toCleanString_string.
    destruct (String.eqb_spec (Str.trim s) ""); [contradiction | reflexivity].
  - intros Hblank.
    destruct (Route.toCleanString (prop entry "OBJECT_NAME")) as [kept |] eqn:Hname;
      [| reflexivity].
    apply toCleanString_Some in Hname.
    destruct Hname as [[Hfull _] (s & Hprop & ->)].
    destruct (Hfull (Hblank s Hprop)).
  - intros code Hcode. apply toCleanString_Some in Hcode. tauto.
  - intros date Hdate. apply toCleanString_Some in Hdate. tauto.
  - intros degrees. destruct (prop entry "INCLINATION"); simpl; try discriminate.
    + destruct (Num.isFinite n) eqn:Hn; [| discriminate]. intros [= <-]. exact Hn.
    + destruct (Num.isFinite (Number s)) eqn:Hs; [| discriminate].
      intros [= <-]. exact Hs.
  - eexists. split; [reflexivity |]. apply entryObjectType_upper.
Qed.

Lemma stored_record_fields_witness :
  exists record : Route.CachedOrbitRecord.t (H := Sample.propagation),
    snd (Route.normalizeEntry (H := Sample.host) (H0 := Sample.propagation)
           Sample.fragment) = Some record /\
    Route.CachedOrbitRecord.objectName record <> "".
Proof.
  assert (Hpushed : exists record : Route.CachedOrbitRecord.t (H := Sample.propagation),
             snd (Route.normalizeEntry (H := Sample.host) (H0 := Sample.propagation)
                    Sample.fragment) = Some record).
  { eexists. reflexivity. }
  destruct Hpushed as [record Hpushed].
  exists record. split; [exact Hpushed |].
  exact (proj1 (@stored_record_fields Sample.host Sample.propagation
                  Sample.fragment record Hpushed)).
Defined.

(** ** Batches *)

Section Batches.
Context `{Host} `{Propagation}.



Lemma normalizeEntry_wellKept (entry : gmap string Value)
  (record : Route.CachedOrbitRecord.t) :
  snd (Route.normalizeEntry entry) = Some record -> wellKept record.
Proof.
  unfold Route.normalizeEntry.
  destruct (Route.toFiniteNumber (prop entry "NORAD_CAT_ID")) as [noradId |] eqn:Hid;
    [| discriminate].
  simpl. destruct (json2satrec entry); [| discriminate].
  intros [= <-]. split; simpl.
  - destruct (prop entry "NORAD_CAT_ID"); simpl in Hid; try discriminate.
    + destruct (Num.isFinite n) eqn:Hn; [| discriminate]. injection Hid as <-. exact Hn.
    + destruct (Num.isFinite (Number s)) eqn:Hs; [| discriminate].
      injection Hid as <-. exact Hs.
  - unfold Route.entryObjectName.
    destruct (Route.toCleanString (prop entry "OBJECT_NAME")) as [kept |] eqn:Hname;
      simpl; [| discriminate].
    apply toCleanString_Some in Hname. destruct Hname as [[Hfull _] _]. exact Hfull.
Qed.

Lemma normalizePayload_wellKept (payload : list (gmap string Value)) :
  Forall wellKept (Route.normalizePayload payload []).
Proof.
  rewrite normalizePayload_app. simpl. apply Forall_forall.
  intros record Hin. apply list_elem_of_omap in Hin.
  destruct Hin as (entry & _ & Hentry). exact (normalizeEntry_wellKept entry record Hentry).
Qed.

End Batches.



(** ** Positions and the records they come from *)

Lemma omap_sublist {A B C : Type} (f : A -> option B) (g : B -> C) (h : A -> C)
  (l : list A) :
  (forall a b, f a = Some b -> g b = h a) ->
  List.map g (omap f l) `sublist_of` List.map h l.
Proof.
  intros Hagree. induction l as [| a l IH]; [constructor |].
  cbn [omap list_omap List.map]. destruct (f a) as [b |] eqn:Hb.
  - cbn [List.map]. rewrite (Hagree a b Hb). apply sublist_skip, IH.
  - apply sublist_cons, IH.
Qed.

Lemma map_take {A B : Type} (h : A -> B) (n : nat) (l : list A) :
  List.map h (take n l) = take n (List.map h l).
Proof.
  revert n. induction l as [| a l IH]; intros [| n]; simpl; try reflexivity.
  rewrite IH. reflexivity.
Qed.

Section Copies.
Context `{Host} `{Propagation}.

Lemma positionOf_copies (gmst nowDate : number)
  (record : Route.CachedOrbitRecord.t) (satellite : Route.SatellitePosition.t) :
  Route.positionOf gmst nowDate record = Some satellite ->
  Route.SatellitePosition.noradId satellite = Route.CachedOrbitRecord.noradId record /\
  Route.SatellitePosition.objectName satellite = Route.CachedOrbitRecord.objectName record /\
  Route.SatellitePosition.objectType satellite = Route.CachedOrbitRecord.objectType record /\
  Route.SatellitePosition.countryCode satellite = Route.CachedOrbitRecord.countryCode record /\
  Route.SatellitePosition.inclination satellite = Route.CachedOrbitRecord.inclination record /\
  Route.SatellitePosition.launchDate satellite = Route.CachedOrbitRecord.launchDate record.
Proof.
  unfold Route.positionOf.
  destruct (propagate _ _) as [state |]; [| discriminate].
  destruct (PropagationState.position state); [| discriminate].
  destruct (PropagationState.velocity state); [| discriminate].
  destruct (negb _ || negb _); [discriminate |].
  intros [= <-]. repeat split.
Qed.

(** Where the loop stops for a limit that is the integer [k]. *)
Lemma firstStop_integer (records : list Route.CachedOrbitRecord.t) (k : nat) (q : Q) :
  (q == inject_Z (Z.of_nat k))%Q ->
  firstStop (Route.requestedCount records (Some (Fin q))) 0 (List.length records)
  = Nat.min k (List.length records).
Proof.
  intros Hq. apply firstStop_ltb; [| lia].
  intros i. unfold Route.requestedCount.
  destruct (lt_of_nat_Q (List.length records) k q Hq) as [_ Hlen].
  change (Num.min (Num.of_nat (List.length records)) (Fin q))
    with (if Num.lt (Fin q) (Num.of_nat (List.length records))
          then Fin q else Num.of_nat (List.length records)).
  rewrite Hlen.
  destruct (Nat.ltb_spec k (List.length records)) as [Hk | Hk].
  - destruct (lt_of_nat_Q i k q Hq) as [-> _].
    replace (Nat.min k (List.length records)) with k by lia. reflexivity.
  - rewrite lt_of_nat.
    replace (Nat.min k (List.length records)) with (List.length records) by lia.
    reflexivity.
Qed.

End Copies.

(** X9. The positions follow the records.  There are never more positions
    than records, nor more than an integer limit; their identifiers, in
    order, form a subsequence of the identifiers of the records; and each
    position carries the identifier, name, classification, country code,
    inclination and launch date of a record of the collection, unchanged. *)
Theorem positions_follow_records `{Host} `{Propagation}
  (records : list Route.CachedOrbitRecord.t) (nowDate : number)
  (limit : option number) (satellites : list Route.SatellitePosition.t) :
  Route.computePositions records nowDate limit = Ok satellites ->
  (List.length satellites <= List.length records)%nat /\
  (forall (k : nat) (q : Q),
     limit = Some (Fin q) -> (q == inject_Z (Z.of_nat k))%Q ->
     (List.length satellites <= k)%nat) /\
  List.map Route.SatellitePosition.noradId satellites
    `sublist_of` List.map Route.CachedOrbitRecord.noradId records /\
  (forall satellite : Route.SatellitePosition.t,
     satellite ∈ satellites ->
     exists record : Route.CachedOrbitRecord.t,
       record ∈ records /\
       Route.SatellitePosition.noradId satellite = Route.CachedOrbitRecord.noradId record /\
       Route.SatellitePosition.objectName satellite = Route.CachedOrbitRecord.objectName record /\
       Route.SatellitePosition.objectType satellite = Route.CachedOrbitRecord.objectType record /\
       Route.SatellitePosition.countryCode satellite = Route.CachedOrbitRecord.countryCode record /\
       Route.SatellitePosition.inclination satellite = Route.CachedOrbitRecord.inclination record /\
       Route.SatellitePosition.launchDate satellite = Route.CachedOrbitRecord.launchDate record).
Proof.
  rewrite computePositions_take. intros [= <-].
  set (n := firstStop (Route.requestedCount records limit) 0 (List.length records)).
  assert (Hbound : (List.length (omap (Route.positionOf (gstime nowDate) nowDate)
                                   (take n records)) <= Nat.min n (List.length records))%nat).
  { pose proof (omap_length_le (Route.positionOf (gstime nowDate) nowDate)
                  (take n records)) as Hle.
    rewrite length_take in Hle. exact Hle. }
  split; [lia |]. split.
  { intros k q -> Hq. unfold n in *.
    rewrite (firstStop_integer records k q Hq) in *. lia. }
  split.
  { etransitivity.
    - apply (omap_sublist _ _ Route.CachedOrbitRecord.noradId).
      intros record satellite Hstep. apply positionOf_copies in Hstep. tauto.
    - rewrite map_take. apply sublist_take. }
  intros satellite Hin. apply list_elem_of_omap in Hin.
  destruct Hin as (record & Hrecord & Hstep).
  exists record. split.
  - apply list_elem_of_lookup in Hrecord. destruct Hrecord as (i & Hi).
    apply lookup_take_Some in Hi. destruct Hi as [Hi _].
    apply list_elem_of_lookup. eauto.
  - apply positionOf_copies in Hstep. exact Hstep.
Qed.

Lemma positions_follow_records_witness :
  let records :=
    Route.normalizePayload (H := Sample.host) (H0 := Sample.propagation)
      [Sample.station; Sample.unnumbered; Sample.fragment] [] in
  exists satellites : list Route.SatellitePosition.t,
    Route.computePositions (H := Sample.host) (H0 := Sample.propagation)
      records (Fin 0) (Some (Fin 1)) = Ok satellites /\
    (List.length satellites <= 1)%nat.
Proof.
  intros records.
  destruct (@computePositions_returns Sample.host Sample.propagation
              records (Fin 0) (Some (Fin 1))) as [satellites Hcompute].
  exists satellites. split; [exact Hcompute |].
  assert (Hq : (1 == inject_Z (Z.of_nat 1))%Q) by reflexivity.
  exact (proj1 (proj2 (@positions_follow_records Sample.host Sample.propagation
                         records (Fin 0) (Some (Fin 1)) satellites Hcompute))
           1%nat 1%Q eq_refl Hq).
Defined.

(** ** What is served from any state *)

Section Coherent.
Context `{Host} `{Propagation}.

Lemma loadOrbitSet_coherent (world : Route.Ambient.t) (group : string)
  (server : Route.Server.t) :
  coherent server ->
  coherent (fst (Route.loadOrbitSet world group server)) /\
  forall value, snd (Route.loadOrbitSet world group server) = Ok value ->
                stocked group value.
Proof.
  intros [Hpositions Horbits].
  destruct (Route.loadOrbitSet world group server) as [server1 loaded] eqn:Hload.
  destruct (loadOrbitSet_outcome world group server server1 loaded Hload)
    as [Hsame Houtcome].
  cbn [fst snd]. destruct loaded as [value | e].
  - destruct Houtcome as [[Hhit ->] | (Hmiss & Hcache & _)].
    + split; [split; assumption |]. intros stored [= <-].
      apply unexpired_Some in Hhit. destruct Hhit as (expiresAt & Hlookup & _).
      exact (Horbits group expiresAt value Hlookup).
    + assert (Hvalue : stocked group value).
      { rewrite (loadOrbitSet_miss world group server Hmiss) in Hload.
        destruct (Route.Ambient.network world (Route.buildGroupFeedUrl group))
          as [latencyMs response | e]; [| discriminate].
        destruct (Route.REQUEST_TIMEOUT_MS <=? latencyMs)%Z; [discriminate |].
        destruct (negb (Route.Upstream.ok response)); [discriminate |].
        destruct (Route.Upstream.json response) as [payload | e]; [| discriminate].
        cbv zeta in Hload. injection Hload as _ <-.
        split; [reflexivity | apply normalizePayload_wellKept]. }
      split; [| intros stored [= <-]; exact Hvalue].
      split.
      * rewrite Hsame. exact Hpositions.
      * rewrite Hcache. intros key expiresAt stored Hlookup.
        apply lookup_insert_Some in Hlookup.
        destruct Hlookup as [[<- [= _ <-]] | [_ Hold]]; [exact Hvalue |].
        exact (Horbits key expiresAt stored Hold).
  - destruct Houtcome as [_ ->]. split; [split; assumption | discriminate].
Qed.

Lemma snapshotOf_tidy (world : Route.Ambient.t) (request : Route.Request.t)
  (orbitSet : Route.CachedOrbitSet.t) (satellites : list Route.SatellitePosition.t) :
  stocked (Route.selectGroup request) orbitSet ->
  Route.computePositions (Route.CachedOrbitSet.records orbitSet)
    (Date_ofString (toISOString (Route.Ambient.computedClock world)))
    (Route.parseLimit (Route.Request.limit request)) = Ok satellites ->
  tidy (snapshotOf world request orbitSet satellites).
Proof.
  intros [Hsource Hrecords]. rewrite computePositions_take. intros [= <-].
  unfold tidy. cbn [snapshotOf Route.Snapshot.count Route.Snapshot.totalOrbits
                    Route.Snapshot.group Route.Snapshot.source
                    Route.Snapshot.satellites].
  split.
  { etransitivity; [apply omap_length_le |]. rewrite length_take. lia. }
  split; [apply selectGroup_member |].
  split; [exact Hsource |].
  apply Forall_forall. intros satellite Hin.
  apply list_elem_of_omap in Hin. destruct Hin as (record & Hrecord & Hstep).
  apply positionOf_copies in Hstep. destruct Hstep as (-> & -> & _).
  rewrite Forall_forall in Hrecords. apply Hrecords.
  apply list_elem_of_lookup in Hrecord. destruct Hrecord as (i & Hi).
  apply lookup_take_Some in Hi. destruct Hi as [Hi _].
  apply list_elem_of_lookup. eauto.
Qed.

Lemma GET_coherent (world : Route.Ambient.t) (request : Route.Request.t)
  (server : Route.Server.t) :
  coherent server ->
  coherent (fst (Route.GET world request server)) /\
  forall value, Route.Response.body (snd (Route.GET world request server))
                = Route.SnapshotBody value -> tidy value.
Proof.
  intros Hcoherent.
  destruct (Route.unexpired (Route.Ambient.handlerNow world)
              (Route.Server.positionCache server !! keyOf request))
    as [cached |] eqn:Hcache.
  - rewrite (GET_hit world request server cached Hcache). cbn [fst snd].
    split; [exact Hcoherent |]. intros value [= <-].
    apply unexpired_Some in Hcache. destruct Hcache as (expiresAt & Hlookup & _).
    destruct Hcoherent as [Hpositions _]. exact (Hpositions _ _ _ Hlookup).
  - rewrite (GET_miss world request server Hcache).
    destruct (loadOrbitSet_coherent world (Route.selectGroup request) server Hcoherent)
      as [Hloaded Hvalue].
    destruct (Route.loadOrbitSet world (Route.selectGroup request) server)
      as [server1 [orbitSet | e]]; cbn [fst snd] in *;
      [| split; [exact Hloaded | discriminate]].
    specialize (Hvalue orbitSet eq_refl).
    destruct (Route.computePositions _ _ _) as [satellites | e] eqn:Hcompute;
      cbn [fst snd]; [| split; [destruct Hloaded; split; assumption | discriminate]].
    pose proof (snapshotOf_tidy world request orbitSet satellites Hvalue Hcompute)
      as Htidy.
    split; [| intros value [= <-]; exact Htidy].
    destruct Hloaded as [Hpositions Horbits]. split; [| exact Horbits].
    cbn [storing Route.Server.positionCache]. intros key expiresAt value Hlookup.
    apply lookup_insert_Some in Hlookup.
    destruct Hlookup as [[_ [= _ <-]] | [_ Hold]]; [exact Htidy |].
    exact (Hpositions _ _ _ Hold).
Qed.

Lemma reachable_coherent (server : Route.Server.t) : reachable server -> coherent server.
Proof.
  induction 1 as [| world request server _ IH].
  - split; intros key expiresAt value Hlookup; simpl in Hlookup;
      rewrite lookup_empty in Hlookup; discriminate.
  - apply GET_coherent. exact IH.
Qed.

End Coherent.

(** X10. Whatever requests came before, a snapshot that the handler answers
    with never counts more positions than it reports orbit records, names
    one of the three allowed groups, gives as its source the feed address of
    that group, and holds only positions with a finite identifier and a
    non-empty name; and every orbit set in the element-set cache is filed
    under the group whose feed it came from. *)
Theorem served_snapshot_is_tidy `{Host} `{Propagation} (server : Route.Server.t) :
  reachable server ->
  (forall (world : Route.Ambient.t) (request : Route.Request.t)
          (value : Route.Snapshot.t),
     Route.Response.body (snd (Route.GET world request server))
     = Route.SnapshotBody value ->
     (Route.Snapshot.count value <= Route.Snapshot.totalOrbits value)%nat /\
     Route.Snapshot.group value ∈ Route.ALLOWED_GROUPS /\
     Route.Snapshot.source value =
       Route.buildGroupFeedUrl (Route.Snapshot.group value) /\
     forall satellite : Route.SatellitePosition.t,
       satellite ∈ Route.Snapshot.satellites value ->
       Num.isFinite (Route.SatellitePosition.noradId satellite) = true /\
       Route.SatellitePosition.objectName satellite <> "") /\
  (forall (group : string) (expiresAt : Z) (value : Route.CachedOrbitSet.t),
     Route.Server.orbitCache server !! group = Some (expiresAt, value) ->
     Route.CachedOrbitSet.source value = Route.buildGroupFeedUrl group).
Proof.
  intros Hreachable. apply reachable_coherent in Hreachable. split.
  - intros world request value Hbody.
    destruct (GET_coherent world request server Hreachable) as [_ Hserved].
    destruct (Hserved value Hbody) as (Hcount & Hgroup & Hsource & Hall).
    split; [exact Hcount |]. split; [exact Hgroup |]. split; [exact Hsource |].
    rewrite Forall_forall in Hall. exact Hall.
  - intros group expiresAt value Hlookup.
    destruct Hreachable as [_ Horbits].
    destruct (Horbits group expiresAt value Hlookup) as [Hsource _]. exact Hsource.
Qed.

Lemma served_snapshot_is_tidy_witness :
  let request := Sample.request (Some "stations") None in
  let warm :=
    fst (Route.GET (H := Sample.host) (H0 := Sample.propagation)
           (Sample.world 1000 (Sample.upstream 150 200)) request Route.initial) in
  reachable (H := Sample.host) (H0 := Sample.propagation) warm /\
  forall value : Route.Snapshot.t,
    Route.Response.body
      (snd (Route.GET (H := Sample.host) (H0 := Sample.propagation)
              (Sample.world 9000 (Sample.upstream 150 200)) request warm))
    = Route.SnapshotBody value ->
    (Route.Snapshot.count value <= Route.Snapshot.totalOrbits value)%nat.
Proof.
  intros request warm.
  assert (Hreachable : reachable (H := Sample.host) (H0 := Sample.propagation) warm).
  { apply reachable_GET, reachable_initial. }
  split; [exact Hreachable |].
  intros value Hbody.
  exact (proj1 (proj1 (@served_snapshot_is_tidy Sample.host Sample.propagation
                         warm Hreachable) _ request value Hbody)).
Defined.

(** ** Classification, on the server and on the client *)

Lemma normalizeObjectType_nonempty (tag : string) :
  tag <> "" ->
  Route.normalizeObjectType (Some tag) =
  Some (canonicalType (Str.toUpperCase (Str.trim tag))).
Proof.
  intros Htag. unfold Route.normalizeObjectType.
  destruct tag as [| c rest]; [contradiction |]. simpl (negb _). cbv iota.
  unfold canonicalType.
  repeat match goal with
         | |- context [if ?b then _ else _] => destruct b; try reflexivity
         end.
Qed.

Lemma canonicalType_fixed (upperValue : string) :
  canonicalType (canonicalType upperValue) = canonicalType upperValue.
Proof.
  unfold canonicalType.
  destruct (String.eqb upperValue "PAY" || String.eqb upperValue "PAYLOAD") eqn:H1;
    [reflexivity |].
  destruct (String.eqb upperValue "DEB" || String.eqb upperValue "DEBRIS") eqn:H2;
    [reflexivity |].
  destruct (String.eqb upperValue "R/B" || String.eqb upperValue "ROCKET BODY"
            || String.eqb upperValue "RB") eqn:H3; [reflexivity |].
  rewrite H1, H2, H3. reflexivity.
Qed.

Lemma canonicalType_trimmed (upperValue : string) :
  Str.trim upperValue = upperValue ->
  Str.trim (canonicalType upperValue) = canonicalType upperValue.
Proof.
  intros Htrim. unfold canonicalType.
  repeat match goal with
         | |- context [if ?b then _ else _] => destruct b; try reflexivity
         end.
  exact Htrim.
Qed.

(** X11. [normalizeObjectType] by itself.  Null and the empty string give
    null.  A tag that is not blank gives a non-empty, upper-case, trimmed
    string on which the function changes nothing more.  A tag that is not
    empty but made of white space alone gives the empty string, not
    null. *)
Theorem normalizeObjectType_canonical (tag : string) :
  Route.normalizeObjectType None = None /\
  Route.normalizeObjectType (Some "") = None /\
  (Str.trim tag <> "" ->
   exists normalized : string,
     Route.normalizeObjectType (Some tag) = Some normalized /\
     normalized <> "" /\
     Str.toUpperCase normalized = normalized /\
     Str.trim normalized = normalized /\
     Route.normalizeObjectType (Some normalized) = Some normalized) /\
  (tag <> "" -> Str.trim tag = "" -> Route.normalizeObjectType (Some tag) = Some "").
Proof.
  split; [reflexivity |]. split; [reflexivity |]. split.
  - intros Hfull.
    assert (Htag : tag <> "") by (intros ->; apply Hfull; reflexivity).
    set (upperValue := Str.toUpperCase (Str.trim tag)).
    assert (Hupper : Str.toUpperCase upperValue = upperValue)
      by apply toUpperCase_idempotent.
    assert (Htrim : Str.trim upperValue = upperValue).
    { unfold upperValue. rewrite <- toUpperCase_trim, trim_idempotent. reflexivity. }
    assert (Hnonempty : upperValue <> "").
    { intros Hempty. apply Hfull, (proj1 (toUpperCase_empty (Str.trim tag))), Hempty. }
    exists (canonicalType upperValue).
    split; [apply normalizeObjectType_nonempty; exact Htag |].
    split; [apply canonicalType_nonempty; exact Hnonempty |].
    split; [apply canonicalType_upper; exact Hupper |].
    split; [apply canonicalType_trimmed; exact Htrim |].
    rewrite normalizeObjectType_nonempty
      by (apply canonicalType_nonempty; exact Hnonempty).
    rewrite (canonicalType_trimmed upperValue Htrim),
            (canonicalType_upper upperValue Hupper).
    rewrite canonicalType_fixed. reflexivity.
  - intros Htag Hblank. rewrite (normalizeObjectType_nonempty tag Htag), Hblank.
    reflexivity.
Qed.

Lemma normalizeObjectType_canonical_witness :
  Str.trim " deb " <> "" /\
  exists normalized : string,
    Route.normalizeObjectType (Some " deb ") = Some normalized /\
    Route.normalizeObjectType (Some normalized) = Some normalized.
Proof.
  assert (Hfull : Str.trim " deb " <> "") by discriminate.
  split; [exact Hfull |].
  destruct (proj1 (proj2 (proj2 (normalizeObjectType_canonical " deb "))) Hfull)
    as (normalized & Hfirst & _ & _ & _ & Hagain).
  exists normalized. split; [exact Hfirst | exact Hagain].
Defined.





(** * Further properties of the globe *)

(** ** The particle groups *)

Lemma pushSatellite_keeps (groups : Globe.Groups.t) (satellite : Globe.SatellitePoint.t)
  (seen : list Globe.SatellitePoint.t) :
  Globe.Groups.payload groups ++ Globe.Groups.debris groups ++
    Globe.Groups.rocket groups ++ Globe.Groups.other groups ≡ₚ seen ->
  Forall (fun p => Globe.SatellitePoint.bucket p = Globe.payload) (Globe.Groups.payload groups) ->
  Forall (fun p => Globe.SatellitePoint.bucket p = Globe.debris) (Globe.Groups.debris groups) ->
  Forall (fun p => Globe.SatellitePoint.bucket p = Globe.rocket) (Globe.Groups.rocket groups) ->
  Forall (fun p => Globe.SatellitePoint.bucket p = Globe.other) (Globe.Groups.other groups) ->
  let pushed := Globe.pushSatellite groups satellite in
  Globe.Groups.payload pushed ++ Globe.Groups.debris pushed ++
    Globe.Groups.rocket pushed ++ Globe.Groups.other pushed ≡ₚ seen ++ [satellite] /\
  Forall (fun p => Globe.SatellitePoint.bucket p = Globe.payload) (Globe.Groups.payload pushed) /\
  Forall (fun p => Globe.SatellitePoint.bucket p = Globe.debris) (Globe.Groups.debris pushed) /\
  Forall (fun p => Globe.SatellitePoint.bucket p = Globe.rocket) (Globe.Groups.rocket pushed) /\
  Forall (fun p => Globe.SatellitePoint.bucket p = Globe.other) (Globe.Groups.other pushed).
Proof.
  intros Hperm Hp Hd Hr Ho pushed. unfold pushed, Globe.pushSatellite.
  assert (Hone : forall bucket, Globe.SatellitePoint.bucket satellite = bucket ->
                                Forall (fun p => Globe.SatellitePoint.bucket p = bucket)
                                       [satellite])
    by (intros bucket Hb; constructor; [exact Hb | constructor]).
  destruct (Globe.SatellitePoint.bucket satellite) eqn:Hbucket; simpl;
    (split; [rewrite <- Hperm; solve_Permutation |]);
    repeat match goal with |- _ /\ _ => split end;
    first [assumption | apply Forall_app_2; [assumption | apply Hone; reflexivity]].
Qed.

Lemma fold_pushSatellite (rendered seen : list Globe.SatellitePoint.t)
  (groups : Globe.Groups.t) :
  Globe.Groups.payload groups ++ Globe.Groups.debris groups ++
    Globe.Groups.rocket groups ++ Globe.Groups.other groups ≡ₚ seen ->
  Forall (fun p => Globe.SatellitePoint.bucket p = Globe.payload) (Globe.Groups.payload groups) ->
  Forall (fun p => Globe.SatellitePoint.bucket p = Globe.debris) (Globe.Groups.debris groups) ->
  Forall (fun p => Globe.SatellitePoint.bucket p = Globe.rocket) (Globe.Groups.rocket groups) ->
  Forall (fun p => Globe.SatellitePoint.bucket p = Globe.other) (Globe.Groups.other groups) ->
  let final := List.fold_left Globe.pushSatellite rendered groups in
  Globe.Groups.payload final ++ Globe.Groups.debris final ++
    Globe.Groups.rocket final ++ Globe.Groups.other final ≡ₚ seen ++ rendered /\
  Forall (fun p => Globe.SatellitePoint.bucket p = Globe.payload) (Globe.Groups.payload final) /\
  Forall (fun p => Globe.SatellitePoint.bucket p = Globe.debris) (Globe.Groups.debris final) /\
  Forall (fun p => Globe.SatellitePoint.bucket p = Globe.rocket) (Globe.Groups.rocket final) /\
  Forall (fun p => Globe.SatellitePoint.bucket p = Globe.other) (Globe.Groups.other final).
Proof.
  revert seen groups. induction rendered as [| satellite rest IH];
    intros seen groups Hperm Hp Hd Hr Ho.
  - simpl. rewrite app_nil_r. auto.
  - simpl.
    destruct (pushSatellite_keeps groups satellite seen Hperm Hp Hd Hr Ho)
      as (Hperm' & Hp' & Hd' & Hr' & Ho').
    destruct (IH (seen ++ [satellite]) (Globe.pushSatellite groups satellite)
                Hperm' Hp' Hd' Hr' Ho') as (Hfinal & Hrest).
    split; [| exact Hrest]. rewrite Hfinal, <- app_assoc. reflexivity.
Qed.

Lemma concat_nonempty {A : Type} (lists : list (list A)) :
  concat (List.filter (fun l => (0 <? List.length l)%nat) lists) = concat lists.
Proof.
  induction lists as [| l rest IH]; [reflexivity |].
  simpl. destruct l as [| a l]; simpl; [exact IH |]. rewrite IH. reflexivity.
Qed.

(** X13. The particle groups partition what is rendered: taken together
    they hold exactly the rendered satellites, each once; no group is empty;
    the satellites of a group all have the same bucket; and there are at
    most four groups. *)
Theorem particleGroups_partition (rendered : list Globe.SatellitePoint.t) :
  concat (Globe.particleGroups rendered) ≡ₚ rendered /\
  (forall groupList : list Globe.SatellitePoint.t,
     groupList ∈ Globe.particleGroups rendered ->
     groupList <> [] /\
     exists bucket : Globe.SatelliteBucket,
       Forall (fun p => Globe.SatellitePoint.bucket p = bucket) groupList) /\
  (List.length (Globe.particleGroups rendered) <= 4)%nat.
Proof.
  unfold Globe.particleGroups.
  destruct (fold_pushSatellite rendered []
              {| Globe.Groups.debris := []; Globe.Groups.other := [];
                 Globe.Groups.payload := []; Globe.Groups.rocket := [] |}
              ltac:(reflexivity) ltac:(constructor) ltac:(constructor)
              ltac:(constructor) ltac:(constructor))
    as (Hperm & Hp & Hd & Hr & Ho).
  simpl app in Hperm.
  set (final := List.fold_left Globe.pushSatellite rendered _) in *.
  split; [| split].
  - rewrite concat_nonempty. simpl. rewrite app_nil_r. exact Hperm.
  - intros groupList Hin. apply list_elem_of_In, filter_In in Hin.
    destruct Hin as [Hin Hfull]. split.
    + intros ->. discriminate Hfull.
    + simpl in Hin.
      destruct Hin as [<- | [<- | [<- | [<- | []]]]]; eauto.
  - etransitivity; [apply filter_length_le |]. reflexivity.
Qed.

(** ** One step of interpolation *)

Lemma few_turns (k : Z) (x : Q) :
  (x == 360 * inject_Z k)%Q -> (-720 < x < 720)%Q ->
  k = (-1)%Z \/ k = 0%Z \/ k = 1%Z.
Proof.
  intros Hx [Hlo Hhi].
  assert (H1 : (inject_Z (-2) < inject_Z k)%Q)
    by (change (inject_Z (-2)) with (-2)%Q; lra).
  assert (H2 : (inject_Z k < inject_Z 2)%Q)
    by (change (inject_Z 2) with 2%Q; lra).
  rewrite <- Zlt_Qlt in H1, H2. lia.
Qed.

Lemma pointAltitude_floor (altitudeKm : Q) :
  exists h : Q,
    Num.max (Fin (3 # 2000)) (Num.div (Fin altitudeKm) Globe.EARTH_RADIUS_KM) = Fin h /\
    (3 # 2000 <= h)%Q /\
    ((3 # 2000 <= altitudeKm / 6371)%Q -> (h == altitudeKm / 6371)%Q) /\
    ((altitudeKm / 6371 <= 3 # 2000)%Q -> (h == 3 # 2000)%Q).
Proof.
  change (Num.div (Fin altitudeKm) Globe.EARTH_RADIUS_KM)
    with (Fin (altitudeKm / 6371)).
  unfold Num.max, Num.lt.
  destruct (Num.Qlt_bool (3 # 2000) (altitudeKm / 6371)) eqn:Hlt.
  - apply Qlt_bool_true in Hlt. eexists. split; [reflexivity |].
    split; [lra |]. split; [reflexivity |]. intros Hle. lra.
  - apply Qlt_bool_false in Hlt. eexists. split; [reflexivity |].
    split; [lra |]. split; [| reflexivity]. intros Hge. lra.
Qed.

(** The facts about one iteration of the loop of [animateStep]. *)
Lemma interpolate_step (from target : Globe.SatellitePoint.t)
  (fl fa fg tl ta tg e : Q) :
  placed from fl fa fg -> placed target tl ta tg -> (0 <= e <= 1)%Q ->
  let point := Globe.interpolate from target (Fin e) in
  exists y z r h : Q,
    Globe.SatellitePoint.lat point = Fin y /\
    Globe.SatellitePoint.altitudeKm point = Fin z /\
    Globe.SatellitePoint.lng point = Fin r /\
    Globe.SatellitePoint.pointAltitude point = Fin h /\
    ((fl <= y <= tl)%Q \/ (tl <= y <= fl)%Q) /\
    ((fa <= z <= ta)%Q \/ (ta <= z <= fa)%Q) /\
    (-180 <= r <= 180)%Q /\
    (3 # 2000 <= h)%Q /\
    ((e == 0)%Q -> (y == fl)%Q /\ (z == fa)%Q /\ (r == fg)%Q) /\
    ((e == 1)%Q ->
     (y == tl)%Q /\ (z == ta)%Q /\
     ((r == tg)%Q \/ (((tg == 180)%Q \/ (tg == -180)%Q) /\ (r == - tg)%Q))) /\
    Globe.SatellitePoint.noradId point = Globe.SatellitePoint.noradId target /\
    Globe.SatellitePoint.objectName point = Globe.SatellitePoint.objectName target /\
    Globe.SatellitePoint.objectType point = Globe.SatellitePoint.objectType target /\
    Globe.SatellitePoint.bucket point = Globe.SatellitePoint.bucket target /\
    Globe.SatellitePoint.color point = Globe.SatellitePoint.color target.
Proof.
  intros (Hfl & Hfa & Hfg & Hfrange) (Htl & Hta & Htg & Htrange) He point.
  destruct (longitudeDelta_shortest fg tg Hfrange Htrange)
    as (d & Hd & Hdrange & k & Hk).
  destruct (Globe_normalizeLongitude_cases (fg + d * e)) as (r & Hr & Hcases).
  destruct (pointAltitude_floor (fa + (ta + - fa) * e)) as (h & Hh & Hfloor & _).
  exists (fl + (tl + - fl) * e)%Q, (fa + (ta + - fa) * e)%Q, r, h.
  assert (Hde : (-180 <= d * e < 180)%Q) by (split; nra).
  split; [unfold point; simpl; rewrite Hfl, Htl; reflexivity |].
  split; [unfold point; simpl; rewrite Hfa, Hta; reflexivity |].
  split; [unfold point; rewrite interpolate_lng, Hfg, Htg, Hd; exact Hr |].
  split; [unfold point; simpl; rewrite Hfa, Hta; exact Hh |].
  split; [destruct (Qlt_le_dec fl tl); [left | right]; split; nra |].
  split; [destruct (Qlt_le_dec fa ta); [left | right]; split; nra |].
  split; [destruct Hcases as [[H1 ->] | [[H1 ->] | [H1 ->]]]; split; lra |].
  split; [exact Hfloor |].
  split.
  { intros Hzero.
    assert (Hde0 : (d * e == 0)%Q) by (rewrite Hzero; ring).
    split; [rewrite Hzero; ring |]. split; [rewrite Hzero; ring |].
    destruct Hcases as [[H1 ->] | [[H1 ->] | [H1 ->]]]; lra. }
  split.
  { intros Hone.
    assert (Hde1 : (d * e == d)%Q) by (rewrite Hone; ring).
    split; [rewrite Hone; ring |]. split; [rewrite Hone; ring |].
    assert (Hturns : k = (-1)%Z \/ k = 0%Z \/ k = 1%Z).
    { apply (few_turns k (d - (tg - fg))); [rewrite Hk; ring | split; lra]. }
    destruct Hturns as [-> | [-> | ->]].
    - change (inject_Z (-1)) with (-1)%Q in Hk.
      destruct Hcases as [[H1 ->] | [[H1 ->] | [H1 ->]]].
      + exfalso. lra.
      + left. lra.
      + right. split; [left |]; lra.
    - change (inject_Z 0) with 0%Q in Hk.
      destruct Hcases as [[H1 ->] | [[H1 ->] | [H1 ->]]].
      + exfalso. lra.
      + exfalso. lra.
      + left. lra.
    - change (inject_Z 1) with 1%Q in Hk.
      destruct Hcases as [[H1 ->] | [[H1 ->] | [H1 ->]]].
      + left. lra.
      + exfalso. lra.
      + right. split; [right |]; lra. }
  repeat split.
Qed.


(** X14. One frame of a transition between two placed points, for an eased
    progress between 0 and 1: the latitude and the altitude lie between
    those of the two points, the longitude is normalised and the render
    altitude is at least 0.0015; at progress 0 the point is where it came
    from, and at progress 1 it is at its target, up to the meridian of 180
    degrees being written 180 or -180; the identifier, name,
    classification, bucket and colour are those of the target. *)
Theorem interpolate_between (from target : Globe.SatellitePoint.t)
  (fl fa fg tl ta tg e : Q) :
  placed from fl fa fg -> placed target tl ta tg -> (0 <= e <= 1)%Q ->
  let point := Globe.interpolate from target (Fin e) in
  exists y z r h : Q,
    Globe.SatellitePoint.lat point = Fin y /\
    Globe.SatellitePoint.altitudeKm point = Fin z /\
    Globe.SatellitePoint.lng point = Fin r /\
    Globe.SatellitePoint.pointAltitude point = Fin h /\
    ((fl <= y <= tl)%Q \/ (tl <= y <= fl)%Q) /\
    ((fa <= z <= ta)%Q \/ (ta <= z <= fa)%Q) /\
    (-180 <= r <= 180)%Q /\
    (3 # 2000 <= h)%Q /\
    ((e == 0)%Q -> (y == fl)%Q /\ (z == fa)%Q /\ (r == fg)%Q) /\
    ((e == 1)%Q ->
     (y == tl)%Q /\ (z == ta)%Q /\
     ((r == tg)%Q \/ (((tg == 180)%Q \/ (tg == -180)%Q) /\ (r == - tg)%Q))) /\
    Globe.SatellitePoint.noradId point = Globe.SatellitePoint.noradId target /\
    Globe.SatellitePoint.objectName point = Globe.SatellitePoint.objectName target /\
    Globe.SatellitePoint.objectType point = Globe.SatellitePoint.objectType target /\
    Globe.SatellitePoint.bucket point = Globe.SatellitePoint.bucket target /\
    Globe.SatellitePoint.color point = Globe.SatellitePoint.color target.
Proof.
  intros Hfrom Htarget He.
  exact (interpolate_step from target fl fa fg tl ta tg e Hfrom Htarget He).
Qed.

Lemma interpolate_between_witness :
  let from := Globe.makeSatellitePoint (Sample.satellite 1 10 179) in
  let target := Globe.makeSatellitePoint (Sample.satellite 1 20 (-179)) in
  placed from 10 420 179 /\ placed target 20 420 (-179) /\ (0 <= 1 # 2 <= 1)%Q /\
  exists y : Q,
    Globe.SatellitePoint.lat (Globe.interpolate from target (Fin (1 # 2))) = Fin y /\
    ((10 <= y <= 20)%Q \/ (20 <= y <= 10)%Q).
Proof.
  intros from target.
  assert (Hfrom : placed from 10 420 179).
  { repeat split; discriminate. }
  assert (Htarget : placed target 20 420 (-179)).
  { repeat split; discriminate. }
  assert (He : (0 <= 1 # 2 <= 1)%Q) by (split; discriminate).
  split; [exact Hfrom |]. split; [exact Htarget |]. split; [exact He |].
  destruct (interpolate_between from target 10 420 179 20 420 (-179) (1 # 2)
              Hfrom Htarget He)
    as (y & z & r & h & Hy & _ & _ & _ & Hbetween & _).
  exists y. split; [exact Hy | exact Hbetween].
Defined.

(** X15. A point whose origin and target are in the same place stays there
    throughout a transition, for every finite eased value: its latitude,
    altitude and longitude are those of the target.  This is how an object
    that was not rendered before, whose origin is its own target, appears
    without moving. *)
Theorem stationary_point_stays (target : Globe.SatellitePoint.t)
  (lat altitudeKm lng e : Q) :
  placed target lat altitudeKm lng ->
  let point := Globe.interpolate target target (Fin e) in
  exists y z r : Q,
    Globe.SatellitePoint.lat point = Fin y /\ (y == lat)%Q /\
    Globe.SatellitePoint.altitudeKm point = Fin z /\ (z == altitudeKm)%Q /\
    Globe.SatellitePoint.lng point = Fin r /\ (r == lng)%Q.
Proof.
  intros (Hlat & Halt & Hlng & Hrange) point.
  assert (Hdelta : exists d : Q,
             Globe.longitudeDelta (Fin lng) (Fin lng) = Fin d /\ (d == 0)%Q).
  { destruct (longitudeDelta_shortest lng lng Hrange Hrange)
      as (d & Hd & Hdrange & k & Hk).
    exists d. split; [exact Hd |].
    assert (Hturns : k = (-1)%Z \/ k = 0%Z \/ k = 1%Z).
    { apply (few_turns k d); [rewrite Hk; ring | split; lra]. }
    destruct Hturns as [-> | [-> | ->]].
    - change (inject_Z (-1)) with (-1)%Q in Hk. exfalso. lra.
    - change (inject_Z 0) with 0%Q in Hk. lra.
    - change (inject_Z 1) with 1%Q in Hk. exfalso. lra. }
  destruct Hdelta as (d & Hd & Hzero).
  destruct (Globe_normalizeLongitude_cases (lng + d * e)) as (r & Hr & Hcases).
  assert (Hde : (d * e == 0)%Q) by (rewrite Hzero; ring).
  exists (lat + (lat + - lat) * e)%Q, (altitudeKm + (altitudeKm + - altitudeKm) * e)%Q, r.
  split; [unfold point; simpl; rewrite Hlat; reflexivity |].
  split; [ring |].
  split; [unfold point; simpl; rewrite Halt; reflexivity |].
  split; [ring |].
  split; [unfold point; rewrite interpolate_lng, Hlng, Hd; exact Hr |].
  destruct Hcases as [[H1 ->] | [[H1 ->] | [H1 ->]]]; lra.
Qed.

Lemma stationary_point_stays_witness :
  let target := Globe.makeSatellitePoint (Sample.satellite 3 5 180) in
  placed target 5 420 180 /\
  exists y : Q,
    Globe.SatellitePoint.lat (Globe.interpolate target target (Fin (7 # 10))) = Fin y /\
    (y == 5)%Q.
Proof.
  intros target.
  assert (Hplaced : placed target 5 420 180) by (repeat split; discriminate).
  split; [exact Hplaced |].
  destruct (stationary_point_stays target 5 420 180 (7 # 10) Hplaced)
    as (y & z & r & Hy & Hlat & _).
  exists y. split; [exact Hy | exact Hlat].
Defined.

(** ** The first snapshot *)

Lemma buildTargetMap_app (first second : list Globe.Satellite.t)
  (targetMap : list (number * Globe.SatellitePoint.t)) :
  Globe.buildTargetMap (first ++ second) targetMap =
  Globe.buildTargetMap second (Globe.buildTargetMap first targetMap).
Proof.
  revert targetMap. induction first as [| satellite rest IH]; intros targetMap.
  - reflexivity.
  - simpl. apply IH.
Qed.

Lemma buildTargetMap_untouched (incoming : list Globe.Satellite.t)
  (targetMap : list (number * Globe.SatellitePoint.t)) (key : number) :
  (forall satellite, satellite ∈ incoming ->
                     Num.same (Globe.Satellite.noradId satellite) key = false) ->
  NumMap.get (Globe.buildTargetMap incoming targetMap) key = NumMap.get targetMap key.
Proof.
  revert targetMap. induction incoming as [| first rest IH]; intros targetMap Hnone.
  - reflexivity.
  - simpl. rewrite IH.
    + rewrite get_set, Hnone; [reflexivity | apply elem_of_cons; auto].
    + intros satellite Hin. apply Hnone. apply elem_of_cons. auto.
Qed.

Lemma set_length {V : Type} (m : list (number * V)) (key : number) (value : V) :
  (List.length (NumMap.set m key value) <= S (List.length m))%nat.
Proof.
  induction m as [| [k v] rest IH]; simpl; [lia |].
  destruct (Num.same k key); simpl; lia.
Qed.

Lemma buildTargetMap_length (incoming : list Globe.Satellite.t)
  (targetMap : list (number * Globe.SatellitePoint.t)) :
  (List.length (Globe.buildTargetMap incoming targetMap)
   <= List.length targetMap + List.length incoming)%nat.
Proof.
  revert targetMap. induction incoming as [| first rest IH]; intros targetMap.
  - simpl. lia.
  - simpl. etransitivity; [apply IH |].
    pose proof (set_length targetMap (Globe.Satellite.noradId first)
                  (Globe.makeSatellitePoint first)).
    lia.
Qed.

(** X16. The first snapshot is shown at once.  When nothing is rendered,
    [startTransition] installs no transition and schedules no frame: the
    rendered map becomes the target map of the snapshot and the rendered list
    its values.  Of several satellites with the same identifier the last one
    of the snapshot is the one shown; every rendered identifier comes from
    the snapshot; and no more points are rendered than the snapshot has
    satellites. *)
Theorem first_snapshot_shown_at_once (engine : Globe.Engine.t)
  (incoming : list Globe.Satellite.t) (nowMs : number) (handle : Z) :
  Globe.Engine.renderedMapRef engine = [] ->
  let started := Globe.startTransition incoming nowMs handle engine in
  Globe.Engine.transitionRef started = Globe.Engine.transitionRef engine /\
  Globe.Engine.animationFrameRef started = Globe.Engine.animationFrameRef engine /\
  Globe.Engine.renderedSatellites started =
    NumMap.values (Globe.Engine.renderedMapRef started) /\
  distinct (NumMap.keys (Globe.Engine.renderedMapRef started)) /\
  (forall (before : list Globe.Satellite.t) (satellite : Globe.Satellite.t)
          (after : list Globe.Satellite.t),
     incoming = before ++ satellite :: after ->
     (forall later, later ∈ after ->
        Num.same (Globe.Satellite.noradId later) (Globe.Satellite.noradId satellite)
        = false) ->
     NumMap.get (Globe.Engine.renderedMapRef started) (Globe.Satellite.noradId satellite)
     = Some (Globe.makeSatellitePoint satellite)) /\
  (forall id : number,
     NumMap.get (Globe.Engine.renderedMapRef started) id <> None ->
     exists satellite, satellite ∈ incoming /\
                       Num.same (Globe.Satellite.noradId satellite) id = true) /\
  (List.length (Globe.Engine.renderedSatellites started) <= List.length incoming)%nat.
Proof.
  intros Hempty started.
  assert (Hstarted : started =
    {| Globe.Engine.transitionRef := Globe.Engine.transitionRef engine;
       Globe.Engine.animationFrameRef := Globe.Engine.animationFrameRef engine;
       Globe.Engine.renderedMapRef := Globe.buildTargetMap incoming [];
       Globe.Engine.renderedSatellites :=
         NumMap.values (Globe.buildTargetMap incoming []) |}).
  { unfold started, Globe.startTransition. rewrite Hempty. reflexivity. }
  rewrite Hstarted.
  cbn [Globe.Engine.transitionRef Globe.Engine.animationFrameRef
       Globe.Engine.renderedMapRef Globe.Engine.renderedSatellites].
  split; [reflexivity |]. split; [reflexivity |]. split; [reflexivity |].
  split; [apply buildTargetMap_distinct; exact I |].
  split.
  { intros before satellite after -> Hlast.
    rewrite buildTargetMap_app. simpl.
    rewrite (buildTargetMap_untouched after _ _ Hlast).
    rewrite get_set, same_refl. reflexivity. }
  split.
  { intros id Hget.
    destruct (buildTargetMap_origin incoming [] id Hget) as [Hnil | Hin];
      [contradiction | exact Hin]. }
  unfold NumMap.values. rewrite List.length_map.
  apply (buildTargetMap_length incoming []).
Qed.

Lemma first_snapshot_shown_at_once_witness :
  let incoming := [Sample.satellite 1 0 10; Sample.satellite 2 0 20;
                   Sample.satellite 1 5 15] in
  Globe.Engine.renderedMapRef Globe.mounted = [] /\
  Globe.Engine.transitionRef
    (Globe.startTransition incoming (Fin 0) 7 Globe.mounted) = None /\
  (List.length (Globe.Engine.renderedSatellites
                  (Globe.startTransition incoming (Fin 0) 7 Globe.mounted))
   <= 3)%nat.
Proof.
  intros incoming.
  assert (Hempty : Globe.Engine.renderedMapRef Globe.mounted = []) by reflexivity.
  split; [exact Hempty |].
  destruct (first_snapshot_shown_at_once Globe.mounted incoming (Fin 0) 7%Z Hempty)
    as (Htransition & _ & _ & _ & _ & _ & Hlength).
  split; [exact Htransition | exact Hlength].
Defined.

(** ** What the engine keeps true *)

Lemma set_filed (m : list (number * Globe.SatellitePoint.t)) (key : number)
  (value : Globe.SatellitePoint.t) :
  Forall filed m -> filed (key, value) -> Forall filed (NumMap.set m key value).
Proof.
  intros Hm [Hkey Hcolor]. induction Hm as [| [k v] rest Hentry Hrest IH]; simpl.
  - constructor; [split; assumption | constructor].
  - destruct (Num.same k key) eqn:Hk.
    + constructor; [| exact Hrest]. split; [| exact Hcolor].
      simpl. simpl in Hkey. apply (same_trans k key _ Hk Hkey).
    + constructor; assumption.
Qed.

Lemma buildTargetMap_filed (incoming : list Globe.Satellite.t)
  (targetMap : list (number * Globe.SatellitePoint.t)) :
  Forall filed targetMap -> Forall filed (Globe.buildTargetMap incoming targetMap).
Proof.
  revert targetMap. induction incoming as [| first rest IH]; intros targetMap Hm.
  - exact Hm.
  - simpl. apply IH, set_filed; [exact Hm |].
    split; [apply same_refl | reflexivity].
Qed.

Lemma fresh_same (key key' : number) (keys keys' : list number) :
  Num.same key key' = true ->
  Forall2 (fun k k' => Num.same k k' = true) keys keys' ->
  fresh key keys = fresh key' keys'.
Proof.
  intros Hkey Hkeys. induction Hkeys as [| k k' rest rest' Hk Hrest IH]; [reflexivity |].
  simpl. rewrite IH. f_equal. f_equal.
  rewrite (same_congruent key key' k Hkey).
  rewrite (same_sym k key'), (same_sym k' key').
  apply (same_congruent k k' key' Hk).
Qed.

Lemma distinct_same (keys keys' : list number) :
  Forall2 (fun k k' => Num.same k k' = true) keys keys' ->
  distinct keys -> distinct keys'.
Proof.
  intros Hkeys. induction Hkeys as [| k k' rest rest' Hk Hrest IH]; [auto |].
  simpl. intros [Hfresh Hdistinct]. split; [| apply IH, Hdistinct].
  rewrite <- (fresh_same k k' rest rest' Hk Hrest). exact Hfresh.
Qed.

Lemma filed_ids (m : list (number * Globe.SatellitePoint.t)) :
  Forall filed m ->
  Forall2 (fun k k' => Num.same k k' = true) (NumMap.keys m)
          (List.map Globe.SatellitePoint.noradId (NumMap.values m)).
Proof.
  intros Hm. induction Hm as [| [k v] rest [Hkey _] Hrest IH]; simpl.
  - constructor.
  - constructor; [exact Hkey | exact IH].
Qed.

Section Orderly.
Context `{Host}.

(** What a frame of a transition renders, and how it leaves the refs. *)
Lemma animateStep_renders (transition : Globe.TransitionState.t)
  (frameTimeMs : number) (handle : Z) (engine : Globe.Engine.t) :
  distinct (NumMap.keys (Globe.TransitionState.to transition)) ->
  Globe.Engine.transitionRef engine = Some transition ->
  let progress :=
    Num.min (Fin 1)
      (Num.div (Num.sub frameTimeMs (Globe.TransitionState.startMs transition))
               (Globe.TransitionState.durationMs transition)) in
  let after := Globe.animateStep frameTimeMs handle engine in
  Globe.Engine.renderedMapRef after =
    List.map (fun entry =>
                (fst entry,
                 Globe.interpolate
                   (default (snd entry)
                      (NumMap.get (Globe.TransitionState.from transition) (fst entry)))
                   (snd entry) (Globe.easeInOutCubic progress)))
             (Globe.TransitionState.to transition) /\
  Globe.Engine.renderedSatellites after =
    NumMap.values (Globe.Engine.renderedMapRef after) /\
  (Num.lt progress (Fin 1) = true /\
   Globe.Engine.transitionRef after = Some transition /\
   Globe.Engine.animationFrameRef after = Some handle \/
   Num.lt progress (Fin 1) = false /\
   Globe.Engine.transitionRef after = None /\
   Globe.Engine.animationFrameRef after = None).
Proof.
  intros Hdistinct Htransition progress after.
  unfold after, Globe.animateStep. rewrite Htransition.
  rewrite animateLoop_entries by exact Hdistinct. cbn [app].
  fold progress.
  destruct (Num.lt progress (Fin 1));
    cbn [Globe.Engine.renderedMapRef Globe.Engine.renderedSatellites
         Globe.Engine.transitionRef Globe.Engine.animationFrameRef];
    (split; [reflexivity |]);
    (split; [unfold NumMap.values; rewrite List.map_map; reflexivity |]);
    [left | right]; auto.
Qed.

Lemma mounted_orderly : orderly Globe.mounted.
Proof.
  unfold orderly, Globe.mounted. simpl.
  split; [congruence |]. split; [reflexivity |]. split; [exact I |].
  split; [constructor |]. intros transition Hnone. discriminate.
Qed.

Lemma startTransition_orderly (incoming : list Globe.Satellite.t) (nowMs : number)
  (handle : Z) (engine : Globe.Engine.t) :
  orderly engine -> orderly (Globe.startTransition incoming nowMs handle engine).
Proof.
  intros (Hframe & Hlist & Hkeys & Hfiled & Hto).
  assert (Hdistinct : distinct (NumMap.keys (Globe.buildTargetMap incoming [])))
    by (apply buildTargetMap_distinct; exact I).
  assert (Htarget : Forall filed (Globe.buildTargetMap incoming []))
    by (apply buildTargetMap_filed; constructor).
  unfold Globe.startTransition.
  destruct (NumMap.size (Globe.Engine.renderedMapRef engine) =? 0)%nat;
    unfold orderly;
    cbn [Globe.Engine.renderedMapRef Globe.Engine.renderedSatellites
         Globe.Engine.transitionRef Globe.Engine.animationFrameRef].
  - split; [exact Hframe |]. split; [reflexivity |]. split; [exact Hdistinct |].
    split; [exact Htarget |]. exact Hto.
  - split; [intros _; destruct (Globe.Engine.animationFrameRef engine); discriminate |].
    split; [exact Hlist |]. split; [exact Hkeys |]. split; [exact Hfiled |].
    intros transition [= <-]. simpl. split; assumption.
Qed.

Lemma animateStep_orderly (frameTimeMs : number) (handle : Z)
  (engine : Globe.Engine.t) :
  orderly engine -> orderly (Globe.animateStep frameTimeMs handle engine).
Proof.
  intros (Hframe & Hlist & Hkeys & Hfiled & Hto).
  destruct (Globe.Engine.transitionRef engine) as [transition |] eqn:Htransition.
  - destruct (Hto transition eq_refl) as [Hdistinct Htarget].
    destruct (animateStep_renders transition frameTimeMs handle engine
                Hdistinct Htransition) as (Hmap & Hvalues & Hrefs).
    unfold orderly. rewrite Hvalues, Hmap.
    assert (Hsame : NumMap.keys
              (List.map (fun entry =>
                 (fst entry,
                  Globe.interpolate
                    (default (snd entry)
                       (NumMap.get (Globe.TransitionState.from transition) (fst entry)))
                    (snd entry)
                    (Globe.easeInOutCubic
                       (Num.min (Fin 1)
                          (Num.div
                             (Num.sub frameTimeMs (Globe.TransitionState.startMs transition))
                             (Globe.TransitionState.durationMs transition))))))
                 (Globe.TransitionState.to transition))
              = NumMap.keys (Globe.TransitionState.to transition)).
    { unfold NumMap.keys. rewrite List.map_map. reflexivity. }
    rewrite Hsame.
    split.
    { destruct Hrefs as [(_ & _ & ->) | (_ & -> & _)]; congruence. }
    split; [reflexivity |]. split; [exact Hdistinct |].
    split.
    { apply Forall_forall. intros entry Hin. apply list_elem_of_In, in_map_iff in Hin.
      destruct Hin as ([k target] & <- & Hin).
      apply list_elem_of_In in Hin.
      destruct (proj1 (Forall_forall _ _) Htarget _ Hin) as [Hkey Hcolor].
      split; [exact Hkey | exact Hcolor]. }
    intros transition' Hafter.
    destruct Hrefs as [(_ & Hsome & _) | (_ & Hnone & _)]; [| congruence].
    rewrite Hsome in Hafter. injection Hafter as <-. split; assumption.
  - unfold Globe.animateStep. rewrite Htransition. unfold orderly.
    cbn [Globe.Engine.renderedMapRef Globe.Engine.renderedSatellites
         Globe.Engine.transitionRef Globe.Engine.animationFrameRef].
    split; [congruence |]. split; [exact Hlist |]. split; [exact Hkeys |].
    split; [exact Hfiled |]. intros transition Hnone. discriminate.
Qed.

Lemma running_orderly (engine : Globe.Engine.t) : running engine -> orderly engine.
Proof.
  induction 1 as [| incoming nowMs handle engine _ IH | frameTimeMs handle engine _ IH].
  - apply mounted_orderly.
  - apply startTransition_orderly, IH.
  - apply animateStep_orderly, IH.
Qed.

End Orderly.

Lemma particleGroups_uniform (rendered groupList : list Globe.SatellitePoint.t) :
  groupList ∈ Globe.particleGroups rendered ->
  (exists bucket : Globe.SatelliteBucket,
     Forall (fun p => Globe.SatellitePoint.bucket p = bucket) groupList) /\
  Forall (fun p => p ∈ rendered) groupList.
Proof.
  unfold Globe.particleGroups.
  destruct (fold_pushSatellite rendered []
              {| Globe.Groups.debris := []; Globe.Groups.other := [];
                 Globe.Groups.payload := []; Globe.Groups.rocket := [] |}
              ltac:(reflexivity) ltac:(constructor) ltac:(constructor)
              ltac:(constructor) ltac:(constructor))
    as (Hperm & Hp & Hd & Hr & Ho).
  simpl app in Hperm.
  set (final := List.fold_left Globe.pushSatellite rendered _) in *.
  intros Hin. apply list_elem_of_In, filter_In in Hin. destruct Hin as [Hin _].
  assert (Hall : forall p, p ∈ Globe.Groups.payload final \/ p ∈ Globe.Groups.debris final \/
                           p ∈ Globe.Groups.rocket final \/ p ∈ Globe.Groups.other final ->
                           p ∈ rendered).
  { intros p Hp'. rewrite <- Hperm. rewrite !elem_of_app. exact Hp'. }
  simpl in Hin.
  destruct Hin as [<- | [<- | [<- | [<- | []]]]];
    (split; [eauto |]); apply Forall_forall; intros p Hp'; apply Hall; auto.
Qed.

(** X17. What the engine keeps true.  In every state the engine reaches from
    the mounted component by snapshots and animation frames, in any order
    and with any timing: a frame is scheduled whenever a transition is
    pending; the rendered list holds the values of the rendered map, in its
    order; the keys of the rendered map and of a pending target map are
    pairwise different, and each entry is filed under the identifier of its
    point, whose colour is that of its bucket; hence no identifier is
    rendered twice, and every particle of a group has the colour the group
    is drawn with. *)
Theorem engine_stays_orderly `{Host} (engine : Globe.Engine.t) :
  running engine ->
  orderly engine /\
  distinct (List.map Globe.SatellitePoint.noradId
              (Globe.Engine.renderedSatellites engine)) /\
  (forall groupList : list Globe.SatellitePoint.t,
     groupList ∈ Globe.particleGroups (Globe.Engine.renderedSatellites engine) ->
     Forall (fun p => Globe.SatellitePoint.color p = Globe.particlesColor groupList)
            groupList).
Proof.
  intros Hrunning. pose proof (running_orderly engine Hrunning) as Horderly.
  split; [exact Horderly |].
  destruct Horderly as (_ & Hlist & Hkeys & Hfiled & _).
  split.
  { rewrite Hlist. apply (distinct_same _ _ (filed_ids _ Hfiled) Hkeys). }
  intros groupList Hin.
  destruct (particleGroups_uniform _ _ Hin) as [[bucket Hbucket] Hrendered].
  assert (Hcolor : Forall (fun p => Globe.SatellitePoint.color p = Globe.bucketColor bucket)
                          groupList).
  { apply Forall_forall. intros p Hp.
    pose proof (proj1 (Forall_forall _ _) Hbucket p Hp) as Hb.
    pose proof (proj1 (Forall_forall _ _) Hrendered p Hp) as Hr.
    simpl in Hb, Hr. rewrite Hlist in Hr.
    apply list_elem_of_In, in_map_iff in Hr. destruct Hr as (entry & <- & Hentry).
    apply list_elem_of_In in Hentry.
    destruct (proj1 (Forall_forall _ _) Hfiled entry Hentry) as [_ Hc].
    rewrite Hc, Hb. reflexivity. }
  destruct groupList as [| first rest]; [constructor |].
  simpl. inversion Hcolor as [| ? ? Hfirst Hrest]; subst.
  rewrite Hfirst. exact Hcolor.
Qed.

Lemma engine_stays_orderly_witness :
  let engine :=
    Globe.animateStep (H := Sample.host) (Fin 4250) 9
      (Globe.startTransition [Sample.satellite 2 0 30; Sample.satellite 3 5 5]
         (Fin 0) 8
         (Globe.startTransition [Sample.satellite 1 0 10; Sample.satellite 2 0 20]
            (Fin 0) 7 Globe.mounted)) in
  running (H := Sample.host) engine /\
  distinct (List.map Globe.SatellitePoint.noradId
              (Globe.Engine.renderedSatellites engine)).
Proof.
  intros engine.
  assert (Hrunning : running (H := Sample.host) engine).
  { apply (running_frame (H := Sample.host)), (running_snapshot (H := Sample.host)),
      (running_snapshot (H := Sample.host)), (running_mounted (H := Sample.host)). }
  split; [exact Hrunning |].
  destruct (@engine_stays_orderly Sample.host engine Hrunning) as (_ & Hdistinct & _).
  exact Hdistinct.
Defined.

(** ** The easing curve *)

Lemma cube_monotone (a b : Q) : (0 <= a <= b)%Q -> (a * a * a <= b * b * b)%Q.
Proof.
  intros [Ha Hab]. assert (Hsquare : (a * a <= b * b)%Q) by nra. nra.
Qed.

Lemma easeInOutCubic_value `{Host} (p : Q) :
  cubes ->
  exists e : Q,
    Globe.easeInOutCubic (Fin p) = Fin e /\
    ((p < 1 # 2)%Q -> (e == 4 * p * p * p)%Q) /\
    ((1 # 2 <= p)%Q ->
     (e == 1 - (1 # 2) * ((2 - 2 * p) * (2 - 2 * p) * (2 - 2 * p)))%Q).
Proof.
  intros Hcubes. unfold Globe.easeInOutCubic, Num.lt.
  destruct (Num.Qlt_bool p (1 # 2)) eqn:Hhalf.
  - apply Qlt_bool_true in Hhalf. eexists. split; [reflexivity |].
    split; [intros _; reflexivity | intros Hge; lra].
  - apply Qlt_bool_false in Hhalf.
    destruct (Hcubes (-2 * p + 2)%Q) as (r & Hr & Hcube).
    change (Num.add (Num.mul (Fin (-2)) (Fin p)) (Fin 2)) with (Fin (-2 * p + 2)).
    rewrite Hr.
    change (Num.sub (Fin 1) (Num.div (Fin r) (Fin 2))) with (Fin (1 + - (r / 2))).
    eexists. split; [reflexivity |].
    split; [intros Hlt; lra |]. intros _. rewrite Hcube. field.
Qed.

(** The easing curve on two progress values in order. *)
Lemma easeInOutCubic_pair `{Host} (p q : Q) :
  cubes -> (0 <= p)%Q -> (p <= q)%Q -> (q <= 1)%Q ->
  exists e f : Q,
    Globe.easeInOutCubic (Fin p) = Fin e /\
    Globe.easeInOutCubic (Fin q) = Fin f /\
    (0 <= e)%Q /\ (e <= f)%Q /\ (f <= 1)%Q /\
    ((p == 0)%Q -> (e == 0)%Q) /\
    ((q == 1)%Q -> (f == 1)%Q) /\
    ((p + q == 1)%Q -> (e + f == 1)%Q).
Proof.
  intros Hcubes Hp Hpq Hq.
  destruct (easeInOutCubic_value p Hcubes) as (e & He & Hlow & Hhigh).
  destruct (easeInOutCubic_value q Hcubes) as (f & Hf & Hlow' & Hhigh').
  exists e, f. split; [exact He |]. split; [exact Hf |].
  pose proof (cube_monotone 0 p ltac:(lra)) as Hp3.
  pose proof (cube_monotone p q ltac:(lra)) as Hpq3.
  pose proof (cube_monotone p (1 # 2)) as Hphalf.
  pose proof (cube_monotone 0 (2 - 2 * q) ltac:(lra)) as Hq3.
  pose proof (cube_monotone (2 - 2 * q) (2 - 2 * p) ltac:(lra)) as Hqp3.
  pose proof (cube_monotone (2 - 2 * q) 1) as Hqone.
  pose proof (cube_monotone (2 - 2 * p) 1) as Hpone.
  destruct (Qlt_le_dec p (1 # 2)) as [Hpl | Hph];
    destruct (Qlt_le_dec q (1 # 2)) as [Hql | Hqh].
  - specialize (Hlow Hpl). specialize (Hlow' Hql).
    pose proof (cube_monotone q (1 # 2) ltac:(lra)) as Hqhalf.
    specialize (Hphalf ltac:(lra)).
    split; [lra |]. split; [lra |]. split; [lra |].
    split; [intros Hzero; rewrite Hlow, Hzero; ring |].
    split; [intros Hone; lra |]. intros Hsum. lra.
  - specialize (Hlow Hpl). specialize (Hhigh' Hqh).
    specialize (Hphalf ltac:(lra)). specialize (Hqone ltac:(lra)).
    split; [lra |]. split; [lra |]. split; [lra |].
    split; [intros Hzero; rewrite Hlow, Hzero; ring |].
    split; [intros Hone; rewrite Hhigh', Hone; reflexivity |].
    intros Hsum.
    assert (Hmirror : (2 - 2 * q == 2 * p)%Q) by lra.
    rewrite Hlow, Hhigh', Hmirror. ring.
  - lra.
  - specialize (Hhigh Hph). specialize (Hhigh' Hqh).
    specialize (Hqone ltac:(lra)). specialize (Hpone ltac:(lra)).
    split; [lra |]. split; [lra |]. split; [lra |].
    split; [intros Hzero; lra |].
    split; [intros Hone; rewrite Hhigh', Hone; reflexivity |].
    intros Hsum.
    assert (Hboth : (p == 1 # 2)%Q /\ (q == 1 # 2)%Q) by (split; lra).
    destruct Hboth as [Hp2 Hq2]. rewrite Hhigh, Hhigh', Hp2, Hq2. reflexivity.
Qed.

(** X18. The easing curve.  On a host whose [Math.pow] cubes finite
    numbers, [easeInOutCubic] maps progress values between 0 and 1 to eased
    values between 0 and 1, more progress never giving less; it starts at 0
    and ends at 1; and it is symmetric about the middle: the eased values of
    two progress values that add up to 1 add up to 1. *)
Theorem easing_curve `{Host} (p q : Q) :
  cubes -> (0 <= p)%Q -> (p <= q)%Q -> (q <= 1)%Q ->
  exists e f : Q,
    Globe.easeInOutCubic (Fin p) = Fin e /\
    Globe.easeInOutCubic (Fin q) = Fin f /\
    (0 <= e)%Q /\ (e <= f)%Q /\ (f <= 1)%Q /\
    ((p == 0)%Q -> (e == 0)%Q) /\
    ((q == 1)%Q -> (f == 1)%Q) /\
    ((p + q == 1)%Q -> (e + f == 1)%Q).
Proof.
  intros Hcubes Hp Hpq Hq. exact (easeInOutCubic_pair p q Hcubes Hp Hpq Hq).
Qed.

Lemma sample_host_cubes : cubes (H := Sample.host).
Proof.
  intros q. exists (Qred (Qpower q 3)). split; [reflexivity |].
  rewrite Qred_correct. simpl. ring.
Qed.

Lemma easing_curve_witness :
  cubes (H := Sample.host) /\ (0 <= 1 # 4)%Q /\ (1 # 4 <= 3 # 4)%Q /\ (3 # 4 <= 1)%Q /\
  exists e f : Q,
    Globe.easeInOutCubic (H := Sample.host) (Fin (1 # 4)) = Fin e /\
    Globe.easeInOutCubic (H := Sample.host) (Fin (3 # 4)) = Fin f /\
    (e <= f)%Q.
Proof.
  assert (Hp : (0 <= 1 # 4)%Q) by discriminate.
  assert (Hpq : (1 # 4 <= 3 # 4)%Q) by discriminate.
  assert (Hq : (3 # 4 <= 1)%Q) by discriminate.
  split; [exact sample_host_cubes |].
  split; [exact Hp |]. split; [exact Hpq |]. split; [exact Hq |].
  destruct (@easing_curve Sample.host (1 # 4) (3 # 4) sample_host_cubes Hp Hpq Hq)
    as (e & f & He & Hf & _ & Hle & _).
  exists e, f. split; [exact He |]. split; [exact Hf | exact Hle].
Defined.

(** ** The frames of a transition *)

Lemma get_member {V : Type} (m : list (number * V)) (key : number) (value : V) :
  distinct (NumMap.keys m) -> (key, value) ∈ m -> NumMap.get m key = Some value.
Proof.
  induction m as [| [k v] rest IH]; intros Hkeys Hin.
  - apply elem_of_nil in Hin. contradiction.
  - simpl in Hkeys. destruct Hkeys as [Hfresh Hrest].
    apply elem_of_cons in Hin. simpl. destruct Hin as [[= -> ->] | Hin].
    + rewrite same_refl. reflexivity.
    + destruct (Num.same k key) eqn:Hk; [| apply IH; assumption].
      exfalso. unfold fresh in Hfresh.
      rewrite forallb_forall in Hfresh.
      assert (Hkey : In key (NumMap.keys rest)).
      { apply in_map_iff. exists (key, value). split; [reflexivity |].
        apply list_elem_of_In. exact Hin. }
      specialize (Hfresh key Hkey). rewrite same_sym, Hk in Hfresh. discriminate.
Qed.

Lemma get_value {V : Type} (m : list (number * V)) (key : number) (value : V) :
  NumMap.get m key = Some value -> value ∈ NumMap.values m.
Proof.
  induction m as [| [k v] rest IH]; simpl; [discriminate |].
  destruct (Num.same k key).
  - intros [= ->]. apply elem_of_cons. auto.
  - intros Hrest. apply elem_of_cons. right. apply IH, Hrest.
Qed.

(** The progress of a frame at time [t] of a transition started at [s]. *)
Lemma progress_value (s t : Q) :
  let progress :=
    Num.min (Fin 1) (Num.div (Num.sub (Fin t) (Fin s)) Globe.MOTION_DURATION_MS) in
  ((t - s < 8500)%Q ->
   progress = Fin ((t + - s) / 8500) /\ Num.lt progress (Fin 1) = true) /\
  ((8500 <= t - s)%Q -> progress = Fin 1 /\ Num.lt progress (Fin 1) = false).
Proof.
  intros progress.
  assert (Hprogress : progress =
            if Num.Qlt_bool ((t + - s) / 8500) 1 then Fin ((t + - s) / 8500) else Fin 1)
    by reflexivity.
  assert (Hscale : ((t + - s) / 8500 == (t - s) * (1 # 8500))%Q) by (field; discriminate).
  rewrite Hprogress.
  destruct (Num.Qlt_bool ((t + - s) / 8500) 1) eqn:Hlt.
  - apply Qlt_bool_true in Hlt. split.
    + intros _. split; [reflexivity |]. simpl. apply Qlt_bool_true. exact Hlt.
    + intros Hge. exfalso. rewrite Hscale in Hlt. lra.
  - apply Qlt_bool_false in Hlt. split.
    + intros Hless. exfalso. rewrite Hscale in Hlt. lra.
    + intros _. split; reflexivity.
Qed.

Section Transition.
Context `{Host}.

Lemma running_duration (engine : Globe.Engine.t) (transition : Globe.TransitionState.t) :
  running engine ->
  Globe.Engine.transitionRef engine = Some transition ->
  Globe.TransitionState.durationMs transition = Globe.MOTION_DURATION_MS.
Proof.
  intros Hrunning. revert transition.
  induction Hrunning as [| incoming nowMs handle engine _ IH
                          | frameTimeMs handle engine _ IH]; intros transition.
  - discriminate.
  - unfold Globe.startTransition.
    destruct (NumMap.size (Globe.Engine.renderedMapRef engine) =? 0)%nat;
      cbn [Globe.Engine.transitionRef].
    + apply IH.
    + intros [= <-]. reflexivity.
  - unfold Globe.animateStep.
    destruct (Globe.Engine.transitionRef engine) as [current |];
      [| discriminate].
    destruct (Globe.animateLoop _ _ _ _ _) as [nextMap nextList].
    destruct (Num.lt _ _); cbn [Globe.Engine.transitionRef]; [| discriminate].
    intros [= <-]. apply IH. reflexivity.
Qed.

Lemma play_rest (frames : list (number * Z)) (engine : Globe.Engine.t) :
  Globe.Engine.transitionRef engine = None ->
  Globe.Engine.animationFrameRef engine = None ->
  play frames engine = engine.
Proof.
  intros Htransition Hframe.
  assert (Hstep : forall frameTimeMs handle,
            Globe.animateStep frameTimeMs handle engine = engine).
  { intros frameTimeMs handle. unfold Globe.animateStep. rewrite Htransition.
    destruct engine as [transitionRef animationFrameRef renderedMapRef renderedSatellites].
    simpl in *. subst. reflexivity. }
  induction frames as [| [frameTimeMs handle] rest IH]; [reflexivity |].
  simpl. rewrite Hstep. exact IH.
Qed.

End Transition.

(** X19. A transition lasts [MOTION_DURATION_MS].  For an engine reached by
    snapshots and frames with a transition pending that started at a finite
    time: a frame earlier than 8500 ms after the start renders the
    identifiers of the target map, keeps the transition and schedules the
    next frame; a frame at 8500 ms or later renders them too, clears the
    transition and the frame handle, and the frames that follow, if any,
    change nothing. *)
Theorem transition_lasts_motion_duration `{Host} (engine : Globe.Engine.t)
  (transition : Globe.TransitionState.t) (s t : Q) (handle : Z) :
  running engine ->
  Globe.Engine.transitionRef engine = Some transition ->
  Globe.TransitionState.startMs transition = Fin s ->
  let after := Globe.animateStep (Fin t) handle engine in
  shows (Globe.TransitionState.to transition) after /\
  ((t - s < 8500)%Q ->
   Globe.Engine.transitionRef after = Some transition /\
   Globe.Engine.animationFrameRef after = Some handle) /\
  ((8500 <= t - s)%Q ->
   Globe.Engine.transitionRef after = None /\
   Globe.Engine.animationFrameRef after = None /\
   forall frames : list (number * Z), play frames after = after).
Proof.
  intros Hrunning Htransition Hstart after.
  pose proof (running_duration engine transition Hrunning Htransition) as Hduration.
  destruct (running_orderly engine Hrunning) as (_ & _ & _ & _ & Hto).
  destruct (Hto transition Htransition) as [Hdistinct _].
  destruct (animateStep_shows transition (Fin t) handle engine Hdistinct Htransition)
    as [Hshows _].
  destruct (animateStep_renders transition (Fin t) handle engine Hdistinct Htransition)
    as (_ & _ & Hrefs).
  rewrite Hstart, Hduration in Hrefs.
  destruct (progress_value s t) as [Hearly Hlate].
  split; [exact Hshows |]. split.
  - intros Hless. destruct (Hearly Hless) as [_ Hlt].
    destruct Hrefs as [(_ & Hsome & Hframe) | (Hnot & _)]; [auto |].
    rewrite Hlt in Hnot. discriminate.
  - intros Hmore. destruct (Hlate Hmore) as [_ Hlt].
    destruct Hrefs as [(Hyes & _) | (_ & Hnone & Hframe)].
    + rewrite Hlt in Hyes. discriminate.
    + split; [exact Hnone |]. split; [exact Hframe |].
      intros frames. apply play_rest; assumption.
Qed.

Lemma transition_lasts_motion_duration_witness :
  let populated :=
    Globe.startTransition [Sample.satellite 1 0 10; Sample.satellite 2 0 20]
      (Fin 0) 7 Globe.mounted in
  let engine :=
    Globe.startTransition [Sample.satellite 2 0 30; Sample.satellite 3 5 5]
      (Fin 10000) 8 populated in
  exists transition : Globe.TransitionState.t,
    running (H := Sample.host) engine /\
    Globe.Engine.transitionRef engine = Some transition /\
    Globe.TransitionState.startMs transition = Fin 10000 /\
    (8500 <= 18500 - 10000)%Q /\
    Globe.Engine.transitionRef
      (Globe.animateStep (H := Sample.host) (Fin 18500) 9 engine) = None.
Proof.
  intros populated engine.
  assert (Hrunning : running (H := Sample.host) engine).
  { apply (running_snapshot (H := Sample.host)), (running_snapshot (H := Sample.host)),
      (running_mounted (H := Sample.host)). }
  assert (Hlate : (8500 <= 18500 - 10000)%Q) by discriminate.
  eexists. split; [exact Hrunning |]. split; [reflexivity |].
  split; [reflexivity |]. split; [exact Hlate |].
  destruct (@transition_lasts_motion_duration Sample.host engine _ 10000 18500 9%Z
              Hrunning eq_refl eq_refl) as (_ & _ & Hends).
  destruct (Hends Hlate) as [Hnone _]. exact Hnone.
Defined.

(** X20. Every frame moves each point towards its target.  On a host whose
    [Math.pow] cubes finite numbers, take an engine reached by snapshots and
    frames with a transition pending that started at a finite time, and a
    frame not earlier than the start.  For an entry of the target map whose
    target and origin are placed, the frame renders a point under the
    identifier of the entry, also in the rendered list, whose latitude and
    altitude lie between those of the origin and the target and whose
    longitude is normalised; a frame at the start renders the origin, and a
    frame at 8500 ms or later renders the target, up to the meridian of 180
    degrees being written 180 or -180. *)
Theorem frames_move_towards_target `{Host} (engine : Globe.Engine.t)
  (transition : Globe.TransitionState.t) (s t : Q) (handle : Z)
  (id : number) (target : Globe.SatellitePoint.t) (fl fa fg tl ta tg : Q) :
  cubes ->
  running engine ->
  Globe.Engine.transitionRef engine = Some transition ->
  Globe.TransitionState.startMs transition = Fin s ->
  (s <= t)%Q ->
  (id, target) ∈ Globe.TransitionState.to transition ->
  placed target tl ta tg ->
  placed (default target (NumMap.get (Globe.TransitionState.from transition) id))
         fl fa fg ->
  let after := Globe.animateStep (Fin t) handle engine in
  exists (point : Globe.SatellitePoint.t) (y z r : Q),
    NumMap.get (Globe.Engine.renderedMapRef after) id = Some point /\
    point ∈ Globe.Engine.renderedSatellites after /\
    Globe.SatellitePoint.lat point = Fin y /\
    Globe.SatellitePoint.altitudeKm point = Fin z /\
    Globe.SatellitePoint.lng point = Fin r /\
    ((fl <= y <= tl)%Q \/ (tl <= y <= fl)%Q) /\
    ((fa <= z <= ta)%Q \/ (ta <= z <= fa)%Q) /\
    (-180 <= r <= 180)%Q /\
    ((t == s)%Q -> (y == fl)%Q /\ (z == fa)%Q /\ (r == fg)%Q) /\
    ((8500 <= t - s)%Q ->
     (y == tl)%Q /\ (z == ta)%Q /\
     ((r == tg)%Q \/ (((tg == 180)%Q \/ (tg == -180)%Q) /\ (r == - tg)%Q))).
Proof.
  intros Hcubes Hrunning Htransition Hstart Horder Hentry Htarget Hfrom after.
  pose proof (running_duration engine transition Hrunning Htransition) as Hduration.
  destruct (running_orderly engine Hrunning) as (_ & _ & _ & _ & Hto).
  destruct (Hto transition Htransition) as [Hdistinct _].
  destruct (animateStep_renders transition (Fin t) handle engine Hdistinct Htransition)
    as (Hmap & Hvalues & _).
  rewrite Hstart, Hduration in Hmap.
  fold after in Hmap, Hvalues.
  destruct (progress_value s t) as [Hearly Hlate].
  (* the eased progress of the frame *)
  assert (Heased : exists e : Q,
            Globe.easeInOutCubic
              (Num.min (Fin 1)
                 (Num.div (Num.sub (Fin t) (Fin s)) Globe.MOTION_DURATION_MS)) = Fin e /\
            (0 <= e <= 1)%Q /\
            ((t == s)%Q -> (e == 0)%Q) /\
            ((8500 <= t - s)%Q -> (e == 1)%Q)).
  { destruct (Qlt_le_dec (t - s) 8500) as [Hless | Hmore].
    - destruct (Hearly Hless) as [-> _].
      assert (Hscale : ((t + - s) / 8500 == (t - s) * (1 # 8500))%Q)
        by (field; discriminate).
      destruct (easeInOutCubic_pair ((t + - s) / 8500) ((t + - s) / 8500) Hcubes)
        as (e & f & He & Hf & Hzero & Hle & Hone & Hstarts & _);
        [rewrite Hscale; lra | lra | rewrite Hscale; lra |].
      assert (Hsame : f = e) by congruence. subst f.
      exists e. split; [exact He |]. split; [split; assumption |].
      split; [| intros Hge; lra].
      intros Hts. apply Hstarts. rewrite Hscale, Hts. ring.
    - destruct (Hlate Hmore) as [-> _].
      destruct (easeInOutCubic_pair 1 1 Hcubes)
        as (e & f & He & Hf & Hzero & Hle & Hone & _ & Hends & _); [lra | lra | lra |].
      assert (Hsame : f = e) by congruence. subst f.
      exists e. split; [exact He |]. split; [split; assumption |].
      split; [intros Hts; lra |]. intros _. apply Hends. reflexivity. }
  destruct Heased as (e & He & Hrange & Hstarts & Hends).
  rewrite He in Hmap.
  (* the point rendered for the entry *)
  pose proof (get_member _ id target Hdistinct Hentry) as Hget.
  destruct (get_rebuilt
              (fun k v =>
                 Globe.interpolate
                   (default v (NumMap.get (Globe.TransitionState.from transition) k))
                   v (Fin e))
              (Globe.TransitionState.to transition) id) as [Hsome _].
  destruct (Hsome target Hget) as (k & Hk & Hpoint).
  rewrite (get_same (Globe.TransitionState.from transition) k id Hk) in Hpoint.
  rewrite <- Hmap in Hpoint.
  destruct (interpolate_step _ target fl fa fg tl ta tg e Hfrom Htarget Hrange)
    as (y & z & r & h & Hy & Hz & Hr & _ & Hlat & Halt & Hlng & _ & Hzero & Hone & _).
  eexists. exists y, z, r.
  split; [exact Hpoint |].
  split; [rewrite Hvalues; apply (get_value _ id), Hpoint |].
  split; [exact Hy |]. split; [exact Hz |]. split; [exact Hr |].
  split; [exact Hlat |]. split; [exact Halt |]. split; [exact Hlng |].
  split; [intros Hts; apply Hzero, Hstarts, Hts |].
  intros Hmore. apply Hone, Hends, Hmore.
Qed.

Lemma frames_move_towards_target_witness :
  let populated :=
    Globe.startTransition [Sample.satellite 1 0 10; Sample.satellite 2 0 20]
      (Fin 0) 7 Globe.mounted in
  let incoming := [Sample.satellite 2 10 30; Sample.satellite 3 5 5] in
  let engine := Globe.startTransition incoming (Fin 10000) 8 populated in
  let target := Globe.makeSatellitePoint (Sample.satellite 2 10 30) in
  exists transition : Globe.TransitionState.t,
    cubes (H := Sample.host) /\
    running (H := Sample.host) engine /\
    Globe.Engine.transitionRef engine = Some transition /\
    Globe.TransitionState.startMs transition = Fin 10000 /\
    (10000 <= 14250)%Q /\
    (Num.of_Z 2, target) ∈ Globe.TransitionState.to transition /\
    placed target 10 420 30 /\
    placed (default target
              (NumMap.get (Globe.TransitionState.from transition) (Num.of_Z 2)))
           0 420 20 /\
    exists (point : Globe.SatellitePoint.t) (y : Q),
      NumMap.get
        (Globe.Engine.renderedMapRef
           (Globe.animateStep (H := Sample.host) (Fin 14250) 9 engine))
        (Num.of_Z 2) = Some point /\
      Globe.SatellitePoint.lat point = Fin y /\
      ((0 <= y <= 10)%Q \/ (10 <= y <= 0)%Q).
Proof.
  intros populated incoming engine target.
  exists {| Globe.TransitionState.durationMs := Globe.MOTION_DURATION_MS;
            Globe.TransitionState.from :=
              Globe.buildFromMap (Globe.Engine.renderedMapRef populated)
                (Globe.buildTargetMap incoming []) [];
            Globe.TransitionState.startMs := Fin 10000;
            Globe.TransitionState.to := Globe.buildTargetMap incoming [] |}.
  assert (Hrunning : running (H := Sample.host) engine).
  { apply (running_snapshot (H := Sample.host)), (running_snapshot (H := Sample.host)),
      (running_mounted (H := Sample.host)). }
  assert (Horder : (10000 <= 14250)%Q) by discriminate.
  assert (Hentry : (Num.of_Z 2, target) ∈ Globe.buildTargetMap incoming []).
  { apply elem_of_cons. left. reflexivity. }
  assert (Htarget : placed target 10 420 30) by (repeat split; discriminate).
  assert (Hfrom : placed
            (default target
               (NumMap.get
                  (Globe.buildFromMap (Globe.Engine.renderedMapRef populated)
                     (Globe.buildTargetMap incoming []) [])
                  (Num.of_Z 2)))
            0 420 20) by (repeat split; discriminate).
  split; [exact sample_host_cubes |]. split; [exact Hrunning |].
  split; [reflexivity |]. split; [reflexivity |]. split; [exact Horder |].
  split; [exact Hentry |]. split; [exact Htarget |]. split; [exact Hfrom |].
  destruct (@frames_move_towards_target Sample.host engine _ 10000 14250 9%Z
              (Num.of_Z 2) target 0 420 20 10 420 30
              sample_host_cubes Hrunning eq_refl eq_refl Horder Hentry Htarget Hfrom)
    as (point & y & z & r & Hpoint & _ & Hy & _ & _ & Hbetween & _).
  exists point, y. split; [exact Hpoint |]. split; [exact Hy | exact Hbetween].
Defined.

(** * Further properties of the refresh effect *)

Lemma effectStarted_guarded (engine : Globe.Engine.t) (status : Globe.FeedStatus)
  (lastComputedAt : option string) (totalOrbits : number) :
  guarded (Globe.fetchSatellites_send
             (Globe.effectStarted engine status lastComputedAt totalOrbits)).
Proof.
  unfold guarded. simpl. split; [lia |]. split; [tauto | reflexivity].
Qed.

Lemma handleEvent_guarded (event : Globe.Event) (session : Globe.Session.t) :
  guarded session -> guarded (Globe.handleEvent event session).
Proof.
  destruct session as [engine status stamp orbits active flying timer out].
  unfold guarded. simpl. intros (Hone & Hflag & Htimer).
  destruct event as [| settlement nowMs handle |]; simpl.
  - destruct timer; [| auto]. unfold Globe.fetchSatellites_send. simpl.
    destruct flying; simpl; [auto |].
    assert (Hzero : out = 0%nat).
    { destruct out as [| [| n]]; [reflexivity | | lia].
      destruct Hflag as [_ Hback]. discriminate (Hback eq_refl). }
    subst out. split; [lia |]. split; [tauto | exact Htimer].
  - destruct out as [| n]; [auto |].
    assert (Hn : n = 0%nat) by lia. subst n.
    destruct settlement as [response |]; simpl;
      [destruct (negb active) |]; simpl;
      (split; [lia |]); (split; [split; discriminate | exact Htimer]).
  - split; [exact Hone |]. split; [exact Hflag | reflexivity].
Qed.

Lemma fold_handleEvent_guarded (events : list Globe.Event) (session : Globe.Session.t) :
  guarded session ->
  guarded (List.fold_left (fun current event => Globe.handleEvent event current)
             events session).
Proof.
  revert session. induction events as [| event rest IH]; intros session Hguarded.
  - exact Hguarded.
  - simpl. apply IH, handleEvent_guarded, Hguarded.
Qed.

Lemma tick_twice (session : Globe.Session.t) :
  Globe.handleEvent Globe.Tick (Globe.handleEvent Globe.Tick session) =
  Globe.handleEvent Globe.Tick session.
Proof.
  destruct session as [engine status stamp orbits active flying timer out].
  simpl. destruct timer; [| reflexivity].
  unfold Globe.fetchSatellites_send. simpl. destruct flying; reflexivity.
Qed.

(** X21. One request at a time.  However the timer ticks and the requests
    settle after the effect has started, at most one request is outstanding,
    the in-flight flag is up exactly while one is, and the timer is set
    exactly while the effect is active; and a tick that follows a tick with
    nothing in between changes nothing, the request of the first being in
    flight. *)
Theorem one_request_at_a_time (events : list Globe.Event) (engine : Globe.Engine.t)
  (status : Globe.FeedStatus) (lastComputedAt : option string) (totalOrbits : number) :
  guarded (Globe.runEffect events
             (Globe.effectStarted engine status lastComputedAt totalOrbits)) /\
  Globe.runEffect (events ++ [Globe.Tick; Globe.Tick])
    (Globe.effectStarted engine status lastComputedAt totalOrbits) =
  Globe.runEffect (events ++ [Globe.Tick])
    (Globe.effectStarted engine status lastComputedAt totalOrbits).
Proof.
  split.
  - unfold Globe.runEffect. apply fold_handleEvent_guarded, effectStarted_guarded.
  - unfold Globe.runEffect. rewrite !fold_left_app. simpl. apply tick_twice.
Qed.





